(** * Copy Missing Images Between Two Folders: a shallow embedding

    The program under study is the single script
    [get_missing_imgs_between_folders.py].  Its logic lives in four
    functions: [list_files], [is_corner_color], [check_corners_color] and
    [find_and_copy_missing_images].  They are embedded here as Rocq
    functions over an explicit world (file system, standard output,
    message boxes, history of completed copies), with Python exceptions
    as an error result.  The two callbacks that fill the entries,
    [select_directory] and [choose_color], are embedded as functions on
    the text of an entry.  The window itself ([on_escape], the layout
    and the main loop) is not modelled.

    Conventions of the embedding:
    - Python integers are [Z]; a string is a [string] whose characters
      are the code points below 256 (ASCII and the Latin-1 supplement).
    - A path is the list of its components, as the operating system
      resolves it; [os.path.join dir name] is [dir ++ [name]].
    - The file system maps a path to a node: a directory with the names
      entered in it, or a file with its bytes, what Pillow decodes from
      them, and its permission bits.  The process owns the files and is
      not the superuser; directories can be searched, read and written.
    - What lies outside the file system and decides how a call ends is
      the environment of the run: whether standard output is closed and
      which characters it can encode, and the order in which
      [os.listdir] reports the names of a directory.  That order is any
      ranking of the names, one for each directory; a directory whose
      entries have not changed is reported in the same order again.
    - The widgets the script reads ([source_dir_entry], [check_var], ...)
      are the fields of a record passed to the function. *)

From Stdlib Require Import ZArith Lia Ascii String.
From stdpp Require Import base option list strings gmap.

Local Open Scope string_scope.
Local Open Scope list_scope.
Local Open Scope Z_scope.

(** ** Exceptions and results *)

Inductive exn : Type :=
| FileNotFoundError
| FileExistsError
| IsADirectoryError
| NotADirectoryError
| PermissionError
| SameFileError
| UnidentifiedImageError
| IndexError
| TypeError
| ValueError
| UnicodeEncodeError.

Inductive result (A : Type) : Type :=
| Ok (a : A)
| Raise (e : exn).
Arguments Ok {A} a.
Arguments Raise {A} e.

Definition rbind {A B} (r : result A) (k : A -> result B) : result B :=
  match r with
  | Ok a => k a
  | Raise e => Raise e
  end.

Notation "'let?' x ':=' r 'in' k" := (rbind r (fun x => k))
  (at level 10, x pattern, r at level 100, k at level 200).

(** ** Strings: the pieces of [str] and [os.path] the script calls *)

Module Str.

Definition chars (s : string) : list ascii := list_ascii_of_string s.
Definition of_chars (l : list ascii) : string := string_of_list_ascii l.

Definition code (c : ascii) : Z := Z.of_nat (nat_of_ascii c).

(** [str.lower] on one character: the letters [A] to [Z], and the
    capital letters of the Latin-1 supplement, U+00C0 to U+00DE but the
    multiplication sign U+00D7, have their small letter 32 places on;
    every other character below U+0100 is left as it is. *)
Definition lower_char (c : ascii) : ascii :=
  if ((65 <=? code c) && (code c <=? 90))
     || ((192 <=? code c) && (code c <=? 222) && negb (code c =? 215))
  then ascii_of_nat (nat_of_ascii c + 32)
  else c.

Fixpoint lower (s : string) : string :=
  match s with
  | EmptyString => EmptyString
  | String c s' => String (lower_char c) (lower s')
  end.

(** [s.lstrip(c)] for a one-character argument. *)
Fixpoint lstrip (c : ascii) (s : string) : string :=
  match s with
  | String a s' => if Ascii.eqb a c then lstrip c s' else s
  | EmptyString => EmptyString
  end.

(** [s[i:i+n]]: shorter than [n] when the string ends early. *)
Definition slice (i n : nat) (s : string) : string := substring i n s.

(** [s.rfind(c)]: the last index of [c], or [-1]. *)
Fixpoint rfind_from (i : Z) (s : string) (c : ascii) (last : Z) : Z :=
  match s with
  | EmptyString => last
  | String a s' =>
      rfind_from (i + 1) s' c (if Ascii.eqb a c then i else last)
  end.

Definition rfind (s : string) (c : ascii) : Z := rfind_from 0 s c (-1).

End Str.

(** [genericpath._splitext], with [posixpath]'s separators
    ([sep = "/"], no [altsep], [extsep = "."]). *)
Fixpoint only_dots (p : string) (filenameIndex : nat) (steps : nat) : bool :=
  match steps with
  | O => true
  | S steps' =>
      match String.get filenameIndex p with
      | Some c =>
          if Ascii.eqb c "."%char
          then only_dots p (S filenameIndex) steps'
          else false
      | None => false
      end
  end.

Definition splitext (p : string) : string * string :=
  let sepIndex := Str.rfind p "/"%char in
  let dotIndex := Str.rfind p "."%char in
  if sepIndex <? dotIndex then
    (* skip all leading dots *)
    let filenameIndex := sepIndex + 1 in
    if only_dots p (Z.to_nat filenameIndex) (Z.to_nat (dotIndex - filenameIndex))
    then (p, EmptyString)
    else (Str.slice 0 (Z.to_nat dotIndex) p,
          Str.slice (Z.to_nat dotIndex) (String.length p) p)
  else (p, EmptyString).

(** The expression [os.path.splitext(f)[0].lower()], which the script
    applies to the entries of both directories. *)
Definition base_name_lower (f : string) : string :=
  Str.lower (fst (splitext f)).

(** ** [int(s, 16)] *)

Module Int16.

(** The blanks [int] skips around the number: the ASCII ones are tab to
    carriage return and the space (the separators U+001C to U+001F are
    not among them); of the characters above them, the next-line
    character U+0085 and the no-break space U+00A0, which [int] turns
    into a space before it reads the string. *)
Definition is_space (c : ascii) : bool :=
  let n := Str.code c in
  ((9 <=? n) && (n <=? 13)) || (n =? 32) || (n =? 133) || (n =? 160).

Definition digit (c : ascii) : option Z :=
  let n := Str.code c in
  if (48 <=? n) && (n <=? 57) then Some (n - 48)
  else if (97 <=? n) && (n <=? 102) then Some (n - 87)
  else if (65 <=? n) && (n <=? 70) then Some (n - 55)
  else None.

Definition is_underscore (c : ascii) : bool := Ascii.eqb c "_"%char.

Fixpoint skip_spaces (l : list ascii) : list ascii :=
  match l with
  | c :: l' => if is_space c then skip_spaces l' else l
  | [] => []
  end.

(** The digit loop: digits and single underscores between them.
    [prev] is the character consumed last, if any. *)
Fixpoint scan (prev : option ascii) (acc : Z) (l : list ascii)
  : option (Z * list ascii) :=
  let stop (rest : list ascii) :=
    match prev with
    | None => None
    | Some c => if is_underscore c then None else Some (acc, rest)
    end in
  match l with
  | [] => stop []
  | c :: l' =>
      if is_underscore c then
        match prev with
        | Some p => if is_underscore p then None else scan (Some c) acc l'
        | None => None
        end
      else
        match digit c with
        | Some d => scan (Some c) (16 * acc + d) l'
        | None => stop l
        end
  end.

Definition strip_prefix (l : list ascii) : list ascii :=
  match l with
  | z :: x :: l' =>
      if Ascii.eqb z "0"%char
         && (Ascii.eqb x "x"%char || Ascii.eqb x "X"%char)
      then match l' with
           | u :: l'' => if is_underscore u then l'' else l'
           | [] => l'
           end
      else l
  | _ => l
  end.

Definition parse_chars (l : list ascii) : option Z :=
  let l := skip_spaces l in
  let '(sign, l) :=
    match l with
    | c :: l' =>
        if Ascii.eqb c "+"%char then (1, l')
        else if Ascii.eqb c "-"%char then (-1, l')
        else (1, l)
    | [] => (1, l)
    end in
  match scan None 0 (strip_prefix l) with
  | Some (v, rest) =>
      match skip_spaces rest with
      | [] => Some (sign * v)
      | _ :: _ => None
      end
  | None => None
  end.

Definition int16 (s : string) : result Z :=
  match parse_chars (Str.chars s) with
  | Some v => Ok v
  | None => Raise ValueError
  end.

End Int16.

(** The tuple expression of line 76:
    [tuple(int(target_color.lstrip('#')[i:i+2], 16) for i in (0, 2, 4))]. *)
Definition rgb : Type := Z * Z * Z.

Definition parse_color (target_color : string) : result rgb :=
  let s := Str.lstrip "#"%char target_color in
  let? r := Int16.int16 (Str.slice 0 2 s) in
  let? g := Int16.int16 (Str.slice 2 2 s) in
  let? b := Int16.int16 (Str.slice 4 2 s) in
  Ok (r, g, b).

(** ** Pixels and images *)

(** What [pixels[x, y]] yields: a number for single-band modes
    ("L", "P", "1", "I", "F"), a tuple of bands otherwise. *)
Inductive pixel : Type :=
| PxScalar (v : Z)
| PxTuple (bands : list Z).

(** [pixel[i]]. *)
Definition pixel_getitem (px : pixel) (i : nat) : result Z :=
  match px with
  | PxScalar _ => Raise TypeError
  | PxTuple bands =>
      match bands !! i with
      | Some v => Ok v
      | None => Raise IndexError
      end
  end.

(** [target_color[i]] for the indices of [range(3)]. *)
Definition rgb_getitem (t : rgb) (i : nat) : Z :=
  let '(r, g, b) := t in
  match i with
  | O => r
  | S O => g
  | _ => b
  end.

Record image : Type := Image {
  img_size : Z * Z;               (* (width, height) *)
  img_data : Z -> Z -> pixel      (* the band values at column x, row y *)
}.

(** [PixelAccess.__getitem__]: a negative coordinate counts from the far
    edge; a coordinate outside the image raises [IndexError]. *)
Definition pixel_access (img : image) (x y : Z) : result pixel :=
  let '(xsize, ysize) := img_size img in
  let x := if x <? 0 then xsize + x else x in
  let y := if y <? 0 then ysize + y else y in
  if (x <? 0) || (xsize <=? x) || (y <? 0) || (ysize <=? y)
  then Raise IndexError
  else Ok (img_data img x y).

(** [all(f(x) for x in l)]: stops at the first false or raise. *)
Fixpoint all_of {A} (f : A -> result bool) (l : list A) : result bool :=
  match l with
  | [] => Ok true
  | x :: l' =>
      match f x with
      | Ok true => all_of f l'
      | Ok false => Ok false
      | Raise e => Raise e
      end
  end.

Definition is_corner_color (px : pixel) (target_color : rgb) (threshold : Z)
  : result bool :=
  all_of (fun i =>
            let? p := pixel_getitem px i in
            Ok (Z.abs (p - rgb_getitem target_color i) <=? threshold))
         (seq 0 3).

(** The body of the [with] block of [check_corners_color], once the image
    is open. *)
Definition corners_match (img : image) (target_color : rgb) (threshold : Z)
  : result bool :=
  let '(width, height) := img_size img in
  let? c1 := pixel_access img 0 0 in
  let? c2 := pixel_access img 0 (height - 1) in
  let? c3 := pixel_access img (width - 1) 0 in
  let? c4 := pixel_access img (width - 1) (height - 1) in
  let corners := [c1; c2; c3; c4] in
  all_of (fun corner => is_corner_color corner target_color threshold) corners.

(** ** The world: file system, output, history *)

(** A path, as the list of its components. *)
Abbreviation path := (list string).

Record file : Type := File {
  f_bytes : list Byte.byte;       (* what [shutil.copyfile] transfers *)
  f_pixels : option image;        (* what Pillow decodes from the bytes, if anything *)
  f_mode : Z                      (* the permission bits, [stat.S_IMODE] *)
}.

(** The owner's read and write bits, [S_IRUSR] and [S_IWUSR]. *)
Definition readable (f : file) : bool := Z.testbit (f_mode f) 8.
Definition writable (f : file) : bool := Z.testbit (f_mode f) 7.

(** What [Image.open] and [img.load] yield on the file, if they succeed:
    the file has to be readable and its bytes an image. *)
Definition f_image (f : file) : option image :=
  if readable f then f_pixels f else None.

(** The mode [open(dst, 'wb')] gives a file it creates, under the usual
    mask 022. *)
Definition new_file_mode : Z := 420.

Inductive node : Type :=
| NFile (f : file)
| NDir (names : list string).     (* the names [os.listdir] returns *)

(** The three [messagebox] calls of the script. *)
Inductive dialog : Type :=
| ErrInvalidDirectory             (* "Source or upscaled directory is invalid." *)
| InfoNoneMissing                 (* "No files were flagged as missing." *)
| InfoFlagged (count : Z).        (* "Flagged {count} files as missing ..." *)

(** What decides, from outside the file system, how a call ends. *)
Record environment : Type := Environment {
  stdout_closed : bool;               (* [sys.stdout] has been closed *)
  stdout_encodes : ascii -> bool;     (* the characters its encoding has *)
  listdir_rank : path -> string -> Z  (* [os.listdir] reports a directory's
                                         names by increasing rank *)
}.

Record world : Type := World {
  w_fs : gmap path node;
  w_stdout : list (path * exn);   (* "Error processing image {path}: {e}" *)
  w_dialogs : list dialog;
  w_copied : list (path * path);  (* completed copies: source, destination *)
  w_listed : list path;           (* the directories [os.listdir] has read *)
  w_env : environment
}.

(** A computation reads and updates the world, and returns or raises. *)
Definition M (A : Type) : Type := world -> result A * world.

Definition ret {A} (a : A) : M A := fun w => (Ok a, w).
Definition raise {A} (e : exn) : M A := fun w => (Raise e, w).
Definition bind {A B} (m : M A) (k : A -> M B) : M B :=
  fun w =>
    match m w with
    | (Ok a, w') => k a w'
    | (Raise e, w') => (Raise e, w')
    end.
Definition lift {A} (r : result A) : M A := fun w => (r, w).

(** [try: body  except Exception as e: handler]. *)
Definition try_except {A} (body : M A) (handler : exn -> M A) : M A :=
  fun w =>
    match body w with
    | (Ok a, w') => (Ok a, w')
    | (Raise e, w') => handler e w'
    end.

Notation "'let*' x ':=' m 'in' k" := (bind m (fun x => k))
  (at level 10, x pattern, m at level 100, k at level 200).
Notation "'run' m 'in' k" := (bind m (fun _ => k))
  (at level 10, m at level 100, k at level 200).

Definition get_fs : M (gmap path node) := fun w => (Ok (w_fs w), w).
Definition put_fs (fs : gmap path node) : M unit :=
  fun w => (Ok tt, World fs (w_stdout w) (w_dialogs w) (w_copied w)
                         (w_listed w) (w_env w)).

(** What [print] raises on the line for [image_path], if it does:
    [ValueError] on a closed stream, [UnicodeEncodeError] when the stream
    cannot encode a character of the path.  The fixed words of the line
    are taken to be encodable. *)
Definition print_fails (env : environment) (image_path : path) : option exn :=
  if stdout_closed env then Some ValueError
  else if forallb (fun name => forallb (stdout_encodes env) (Str.chars name))
                  image_path
       then None
       else Some UnicodeEncodeError.

(** [print(f"Error processing image {image_path}: {e}")]. *)
Definition print_error (image_path : path) (e : exn) : M unit :=
  fun w =>
    match print_fails (w_env w) image_path with
    | Some e' => (Raise e', w)
    | None =>
        (Ok tt, World (w_fs w) (w_stdout w ++ [(image_path, e)])
                      (w_dialogs w) (w_copied w) (w_listed w) (w_env w))
    end.

Definition messagebox (d : dialog) : M unit :=
  fun w => (Ok tt, World (w_fs w) (w_stdout w) (w_dialogs w ++ [d])
                         (w_copied w) (w_listed w) (w_env w)).
Definition record_copy (src dst : path) : M unit :=
  fun w => (Ok tt, World (w_fs w) (w_stdout w) (w_dialogs w)
                         (w_copied w ++ [(src, dst)]) (w_listed w) (w_env w)).
Definition record_listing (p : path) : M unit :=
  fun w => (Ok tt, World (w_fs w) (w_stdout w) (w_dialogs w) (w_copied w)
                         (w_listed w ++ [p]) (w_env w)).

(** ** [os], [shutil] and [PIL.Image.open] on the modelled file system *)

Definition is_dir (fs : gmap path node) (p : path) : bool :=
  match fs !! p with
  | Some (NDir _) => true
  | _ => false
  end.

Definition os_path_isdir (p : path) : M bool :=
  let* fs := get_fs in ret (is_dir fs p).

Definition os_path_exists (p : path) : M bool :=
  let* fs := get_fs in ret (bool_decide (is_Some (fs !! p))).

(** The order of [os.listdir] is the environment's: the names entered in
    the directory, sorted by rank (names of one rank stay in the order
    of their entry). *)
Fixpoint insert_by (rank : string -> Z) (x : string) (l : list string)
  : list string :=
  match l with
  | [] => [x]
  | y :: l' => if rank x <=? rank y then x :: l else y :: insert_by rank x l'
  end.

Definition order_by (rank : string -> Z) (l : list string) : list string :=
  fold_right (insert_by rank) [] l.

Definition os_listdir (p : path) : M (list string) :=
  fun w =>
    match w_fs w !! p with
    | Some (NDir names) =>
        (let* _ := record_listing p in
         ret (order_by (listdir_rank (w_env w) p) names)) w
    | Some (NFile _) => (Raise NotADirectoryError, w)
    | None => (Raise FileNotFoundError, w)
    end.

Definition os_path_join (dir : path) (name : string) : path := dir ++ [name].
Definition os_path_basename (p : path) : string := List.last p EmptyString.
Definition os_path_dirname (p : path) : path := removelast p.

(** Enter a new name under its parent directory; the parent must be a
    directory already.  The names of a directory are kept in the order
    of their entry, which [os.listdir] does not report. *)
Definition link (fs : gmap path node) (p : path) (n : node)
  : result (gmap path node) :=
  match fs !! os_path_dirname p with
  | Some (NDir names) =>
      Ok (<[p := n]>
            (<[os_path_dirname p := NDir (names ++ [os_path_basename p])]> fs))
  | Some (NFile _) => Raise NotADirectoryError
  | None => Raise FileNotFoundError
  end.

Definition os_mkdir (p : path) : M unit :=
  let* fs := get_fs in
  match fs !! p with
  | Some _ => raise FileExistsError
  | None =>
      match p with
      | [] => raise FileNotFoundError
      | _ :: _ => let* fs' := lift (link fs p (NDir [])) in put_fs fs'
      end
  end.

(** [os.makedirs(name, exist_ok=True)], on the reversed path so that the
    recursion on [head] is structural. *)
Fixpoint makedirs_rev (rname : list string) : M unit :=
  let name := rev rname in
  run match rname with
      | _tail :: rhead =>
          let* head_exists := os_path_exists (rev rhead) in
          if negb head_exists then
            try_except (makedirs_rev rhead)
              (fun e => match e with
                        | FileExistsError => ret tt
                        | _ => raise e
                        end)
          else ret tt
      | [] => ret tt
      end in
  try_except (os_mkdir name)
    (fun e => let* d := os_path_isdir name in
              if negb d then raise e else ret tt).

Definition os_makedirs (name : path) : M unit := makedirs_rev (rev name).

(** [Image.open(path)] followed by [img.load()]. *)
Definition Image_open (image_path : path) : M image :=
  let* fs := get_fs in
  match fs !! image_path with
  | Some (NFile f) =>
      if negb (readable f) then raise PermissionError
      else
        match f_pixels f with
        | Some img => ret img
        | None => raise UnidentifiedImageError
        end
  | Some (NDir _) => raise IsADirectoryError
  | None => raise FileNotFoundError
  end.

(** [shutil.copyfile(src, dst)]: [src] is opened for reading, [dst] for
    writing; an existing [dst] keeps its mode and takes the content, a
    new one is entered in its directory. *)
Definition shutil_copyfile (src dst : path) : M unit :=
  let* fs := get_fs in
  if bool_decide (src = dst) && bool_decide (is_Some (fs !! src))
  then raise SameFileError
  else
    match fs !! src with
    | None => raise FileNotFoundError
    | Some (NDir _) => raise IsADirectoryError
    | Some (NFile f) =>
        if negb (readable f) then raise PermissionError
        else
          match fs !! dst with
          | Some (NDir _) => raise IsADirectoryError
          | Some (NFile g) =>
              if negb (writable g) then raise PermissionError
              else put_fs (<[dst := NFile (File (f_bytes f) (f_pixels f)
                                                (f_mode g))]> fs)
          | None =>
              let* fs' := lift (link fs dst
                                  (NFile (File (f_bytes f) (f_pixels f)
                                               new_file_mode))) in
              put_fs fs'
          end
    end.

(** [shutil.copymode(src, dst)]: [os.chmod(dst, S_IMODE(os.stat(src)))].
    The modes of directories are not modelled. *)
Definition shutil_copymode (src dst : path) : M unit :=
  let* fs := get_fs in
  match fs !! src with
  | None => raise FileNotFoundError
  | Some nsrc =>
      match fs !! dst with
      | None => raise FileNotFoundError
      | Some (NFile g) =>
          match nsrc with
          | NFile f =>
              put_fs (<[dst := NFile (File (f_bytes g) (f_pixels g)
                                           (f_mode f))]> fs)
          | NDir _ => ret tt
          end
      | Some (NDir _) => ret tt
      end
  end.

(** [shutil.copy(src, dst)]: a destination that is a directory receives
    the file under the source's base name; the content is copied, then
    the mode.  A completed copy is entered in the history. *)
Definition shutil_copy (src dst : path) : M path :=
  let* d := os_path_isdir dst in
  let dst := if d then os_path_join dst (os_path_basename src) else dst in
  run shutil_copyfile src dst in
  run shutil_copymode src dst in
  run record_copy src dst in
  ret dst.

(** ** The script's functions *)

Definition list_files (directory : path) : M (list string) :=
  os_listdir directory.

Definition check_corners_color (image_path : path) (target_color : rgb)
    (threshold : Z) : M bool :=
  try_except
    (let* img := Image_open image_path in
     lift (corners_match img target_color threshold))
    (fun e => run print_error image_path e in ret false).

(** The values the script reads from its widgets. *)
Record inputs : Type := Inputs {
  source_dir_entry : path;
  upscaled_dir_entry : path;
  missing_dir_entry : path;
  check_var : bool;
  color_entry : string
}.

(** One iteration of the [for filename in os.listdir(source_dir)] loop;
    [continue] is an early return of the unchanged count. *)
Definition loop_body (source_dir missing_dir : path) (check_black_corners : bool)
    (target_color_rgb : rgb) (upscaled_files_base_names : gset string)
    (filename : string) (copied_files_count : Z) : M Z :=
  let base_name_lower := base_name_lower filename in
  (* Skip file if a base-named equivalent exists in the upscaled directory *)
  if bool_decide (base_name_lower ∈ upscaled_files_base_names)
  then ret copied_files_count
  else
    (* Perform corner color check if required *)
    let source_path := os_path_join source_dir filename in
    let* skip :=
      (if check_black_corners
       then let* ok := check_corners_color source_path target_color_rgb 10 in
            ret (negb ok)
       else ret false) in
    if skip then ret copied_files_count
    else
      (* Copy the file to the missing directory with its original name *)
      let missing_path := os_path_join missing_dir filename in
      run shutil_copy source_path missing_path in
      ret (copied_files_count + 1).

Fixpoint for_each {A S} (body : A -> S -> M S) (l : list A) (s : S) : M S :=
  match l with
  | [] => ret s
  | x :: l' => let* s' := body x s in for_each body l' s'
  end.

(** Lines 69-71: [if not os.path.exists(missing_dir): os.makedirs(...)]. *)
Definition ensure_missing_dir (missing_dir : path) : M unit :=
  let* missing_exists := os_path_exists missing_dir in
  if negb missing_exists then os_makedirs missing_dir else ret tt.

Definition find_and_copy_missing_images (gui : inputs) : M unit :=
  let source_dir := source_dir_entry gui in
  let upscaled_dir := upscaled_dir_entry gui in
  let missing_dir := missing_dir_entry gui in
  (* Validate directories *)
  let* src_ok := os_path_isdir source_dir in
  let* up_ok := os_path_isdir upscaled_dir in
  if negb src_ok || negb up_ok then
    messagebox ErrInvalidDirectory
  else
    (* Ensure the missing directory exists *)
    run ensure_missing_dir missing_dir in
    (* Configuration for corner color checking *)
    let check_black_corners := check_var gui in
    let target_color := color_entry gui in
    let* target_color_rgb := lift (parse_color target_color) in
    (* Collect base names of files in the upscaled directory *)
    let* upscaled_names := os_listdir upscaled_dir in
    let upscaled_files_base_names : gset string :=
      list_to_set (map base_name_lower upscaled_names) in
    (* Iterate through source files and check against upscaled files *)
    let* source_names := os_listdir source_dir in
    let* copied_files_count :=
      for_each (loop_body source_dir missing_dir check_black_corners
                          target_color_rgb upscaled_files_base_names)
               source_names 0 in
    (* Provide feedback to the user *)
    if copied_files_count =? 0
    then messagebox InfoNoneMissing
    else messagebox (InfoFlagged copied_files_count).

(** * Vocabulary of the properties *)

(** Every one of the first three bands of [px] is present and within
    [threshold] of the same band of [target_color]. *)
Definition within (target_color : rgb) (threshold : Z) (px : pixel) : Prop :=
  forall i, (i < 3)%nat ->
    exists v, pixel_getitem px i = Ok v /\
              Z.abs (v - rgb_getitem target_color i) <= threshold.

(** One of the first three bands of [px] is further than [threshold]
    from the same band of [target_color]. *)
Definition exceeds (target_color : rgb) (threshold : Z) (px : pixel) : Prop :=
  exists i v, (i < 3)%nat /\ pixel_getitem px i = Ok v /\
              threshold < Z.abs (v - rgb_getitem target_color i).

(** [px] is a tuple of at least three bands. *)
Definition three_bands (px : pixel) : Prop :=
  exists a b c rest, px = PxTuple (a :: b :: c :: rest).

(** What [check_corners_color] answers for the file at [p], read off the
    file system alone. *)
Definition corner_ok (fs : gmap path node) (p : path) (t : rgb) (thr : Z)
  : bool :=
  match fs !! p with
  | Some (NFile f) =>
      match f_image f with
      | Some img =>
          match corners_match img t thr with
          | Ok true => true
          | _ => false
          end
      | None => false
      end
  | _ => false
  end.

(** What the [try] block of [check_corners_color] comes to for the file
    at [p]: the answer, or the exception the handler catches. *)
Definition corner_result (fs : gmap path node) (p : path) (t : rgb) (thr : Z)
  : result bool :=
  match fs !! p with
  | Some (NFile f) =>
      if negb (readable f) then Raise PermissionError
      else
        match f_pixels f with
        | Some img => corners_match img t thr
        | None => Raise UnidentifiedImageError
        end
  | Some (NDir _) => Raise IsADirectoryError
  | None => Raise FileNotFoundError
  end.

(** The file at [p] cannot be opened as an image, or has no corner. *)
Definition cannot_decode (fs : gmap path node) (p : path) : Prop :=
  forall f img, fs !! p = Some (NFile f) -> f_image f = Some img ->
    fst (img_size img) <= 0 \/ snd (img_size img) <= 0.

(** The set built on line 79 from a listing of [upscaled_dir]. *)
Definition snapshot (upscaled_names : list string) : gset string :=
  list_to_set (map base_name_lower upscaled_names).

(** The two tests of the loop body on [filename]: not in the snapshot,
    and, when the corner check is on, passing it. *)
Definition selected (source_dir : path) (check : bool) (t : rgb)
    (snap : gset string) (fs : gmap path node) (filename : string) : bool :=
  negb (bool_decide (base_name_lower filename ∈ snap))
  && (negb check || corner_ok fs (source_dir ++ [filename]) t 10).

(** Where [shutil.copy] puts [filename]: under [missing_dir], or inside
    the directory of that name if there is one. *)
Definition dst_of (missing_dir : path) (fs : gmap path node)
    (filename : string) : path :=
  if is_dir fs (missing_dir ++ [filename])
  then (missing_dir ++ [filename]) ++ [filename]
  else missing_dir ++ [filename].

(** What the loop body does with [filename]: pass over it, pass over it
    after the corner check has printed the exception it caught, copy it,
    or raise what the print of that line raises. *)
Inductive verdict : Type :=
| Pass
| PassPrinting (caught : exn)
| Copy
| PrintRaises (e : exn).

Definition verdict_of (source_dir : path) (check : bool) (t : rgb)
    (snap : gset string) (fs : gmap path node) (env : environment)
    (filename : string) : verdict :=
  if bool_decide (base_name_lower filename ∈ snap) then Pass
  else if check then
    match corner_result fs (source_dir ++ [filename]) t 10 with
    | Ok true => Copy
    | Ok false => Pass
    | Raise caught =>
        match print_fails env (source_dir ++ [filename]) with
        | None => PassPrinting caught
        | Some e => PrintRaises e
        end
    end
  else Copy.

(** The names [os.listdir] reports for [p] in the world [w], in its
    order. *)
Definition listing (w : world) (p : path) : list string :=
  match w_fs w !! p with
  | Some (NDir names) => order_by (listdir_rank (w_env w) p) names
  | _ => []
  end.

(** The world once the directories [ps] have been listed. *)
Definition listed (w : world) (ps : list path) : world :=
  World (w_fs w) (w_stdout w) (w_dialogs w) (w_copied w) (w_listed w ++ ps)
        (w_env w).

(** The world with one more line printed. *)
Definition printed (w : world) (out : list (path * exn)) : world :=
  World (w_fs w) (w_stdout w ++ out) (w_dialogs w) (w_copied w) (w_listed w)
        (w_env w).

(** The copy of [filename] is in place in [fs]: its destination holds
    the file that [source_dir] held under that name in [fs1], a readable
    file. *)
Definition in_place (source_dir missing_dir : path) (fs1 fs : gmap path node)
    (filename : string) : Prop :=
  exists f,
    fs1 !! (source_dir ++ [filename]) = Some (NFile f) /\
    fs !! dst_of missing_dir fs1 filename = Some (NFile f) /\
    source_dir ++ [filename] <> dst_of missing_dir fs1 filename /\
    readable f = true.

(** The copies a completed loop makes, in order. *)
Definition copies_of (source_dir missing_dir : path) (check : bool) (t : rgb)
    (snap : gset string) (fs : gmap path node) (names : list string)
  : list (path * path) :=
  map (fun n => (source_dir ++ [n], dst_of missing_dir fs n))
      (filter (fun n => selected source_dir check t snap fs n = true) names).

(** The message that closes a run that copied [count] files. *)
Definition summary (count : Z) : dialog :=
  if count =? 0 then InfoNoneMissing else InfoFlagged count.

(** What the loop leaves untouched of the file system [fs1] it started
    from: which paths are directories, the files of [source_dir], the
    names already listed, and what exists. *)
Definition frame (source_dir : path) (fs1 fs : gmap path node) : Prop :=
  (forall q, is_dir fs q = is_dir fs1 q) /\
  (forall n, is_dir fs1 (source_dir ++ [n]) = false ->
             fs !! (source_dir ++ [n]) = fs1 !! (source_dir ++ [n])) /\
  (forall q l, fs1 !! q = Some (NDir l) ->
               exists l', fs !! q = Some (NDir (l ++ l'))) /\
  (forall q, is_Some (fs1 !! q) -> is_Some (fs !! q)).

(** What [os.makedirs] leaves untouched: files stay as they are and no
    file appears, directories only gain names. *)
Definition grows (fs fs' : gmap path node) : Prop :=
  (forall q f, fs !! q = Some (NFile f) <-> fs' !! q = Some (NFile f)) /\
  (forall q l, fs !! q = Some (NDir l) ->
               exists l', fs' !! q = Some (NDir (l ++ l'))).

(** The spec's colour syntax, section 6: [#RRGGBB]. *)
Definition is_hex_digit (c : ascii) : bool :=
  match Int16.digit c with Some _ => true | None => false end.

Definition well_formed_color (s : string) : bool :=
  match Str.chars s with
  | h :: digits =>
      Ascii.eqb h "#"%char && (length digits =? 6)%nat
      && forallb is_hex_digit digits
  | [] => false
  end.

(** * The run, step by step *)

(** The fields of the world other than the file system. *)
Definition same_log (w w' : world) : Prop :=
  w_stdout w' = w_stdout w /\ w_dialogs w' = w_dialogs w /\
  w_copied w' = w_copied w /\ w_listed w' = w_listed w /\
  w_env w' = w_env w.

(** The world with one more message shown. *)
Definition add_dialog (w : world) (d : dialog) : world :=
  World (w_fs w) (w_stdout w) (w_dialogs w ++ [d]) (w_copied w) (w_listed w)
        (w_env w).

(** The outcomes of a run.  [w1] is the world once the missing directory
    is in place, [ups] and [names] what [os.listdir] reports there for
    [upscaled_dir] and [source_dir]. *)
Inductive outcome (gui : inputs) (w : world) : result unit -> world -> Prop :=
| out_invalid :
    is_dir (w_fs w) (source_dir_entry gui) = false \/
    is_dir (w_fs w) (upscaled_dir_entry gui) = false ->
    outcome gui w (Ok tt) (add_dialog w ErrInvalidDirectory)
| out_no_missing_dir (e : exn) (w1 : world) :
    ensure_missing_dir (missing_dir_entry gui) w = (Raise e, w1) ->
    outcome gui w (Raise e) w1
| out_bad_color (e : exn) (w1 : world) :
    ensure_missing_dir (missing_dir_entry gui) w = (Ok tt, w1) ->
    parse_color (color_entry gui) = Raise e ->
    outcome gui w (Raise e) w1
| out_copy_failed (e : exn) (w1 w2 : world) (t : rgb)
    (pre post : list string) (n : string) :
    ensure_missing_dir (missing_dir_entry gui) w = (Ok tt, w1) ->
    parse_color (color_entry gui) = Ok t ->
    listing w1 (source_dir_entry gui) = pre ++ n :: post ->
    selected (source_dir_entry gui) (check_var gui) t
             (snapshot (listing w1 (upscaled_dir_entry gui))) (w_fs w1) n
      = true ->
    shutil_copy (source_dir_entry gui ++ [n]) (missing_dir_entry gui ++ [n])
                w2 = (Raise e, w2) ->
    frame (source_dir_entry gui) (w_fs w1) (w_fs w2) ->
    w_dialogs w2 = w_dialogs w ->
    w_copied w2 = w_copied w ++
      copies_of (source_dir_entry gui) (missing_dir_entry gui) (check_var gui)
                t (snapshot (listing w1 (upscaled_dir_entry gui))) (w_fs w1)
                pre ->
    outcome gui w (Raise e) w2
| out_print_failed (e : exn) (w1 w2 : world) (t : rgb)
    (pre post : list string) (n : string) :
    ensure_missing_dir (missing_dir_entry gui) w = (Ok tt, w1) ->
    parse_color (color_entry gui) = Ok t ->
    listing w1 (source_dir_entry gui) = pre ++ n :: post ->
    verdict_of (source_dir_entry gui) (check_var gui) t
               (snapshot (listing w1 (upscaled_dir_entry gui))) (w_fs w1)
               (w_env w) n = PrintRaises e ->
    frame (source_dir_entry gui) (w_fs w1) (w_fs w2) ->
    w_dialogs w2 = w_dialogs w ->
    w_copied w2 = w_copied w ++
      copies_of (source_dir_entry gui) (missing_dir_entry gui) (check_var gui)
                t (snapshot (listing w1 (upscaled_dir_entry gui))) (w_fs w1)
                pre ->
    outcome gui w (Raise e) w2
| out_done (w1 w2 : world) (t : rgb) :
    ensure_missing_dir (missing_dir_entry gui) w = (Ok tt, w1) ->
    parse_color (color_entry gui) = Ok t ->
    for_each (loop_body (source_dir_entry gui) (missing_dir_entry gui)
                (check_var gui) t
                (snapshot (listing w1 (upscaled_dir_entry gui))))
             (listing w1 (source_dir_entry gui)) 0
             (listed w1 [upscaled_dir_entry gui; source_dir_entry gui])
      = (Ok (Z.of_nat (length (copies_of (source_dir_entry gui)
                                 (missing_dir_entry gui) (check_var gui) t
                                 (snapshot (listing w1 (upscaled_dir_entry gui)))
                                 (w_fs w1)
                                 (listing w1 (source_dir_entry gui))))), w2) ->
    frame (source_dir_entry gui) (w_fs w1) (w_fs w2) ->
    w_dialogs w2 = w_dialogs w ->
    w_copied w2 = w_copied w ++
      copies_of (source_dir_entry gui) (missing_dir_entry gui) (check_var gui)
                t (snapshot (listing w1 (upscaled_dir_entry gui))) (w_fs w1)
                (listing w1 (source_dir_entry gui)) ->
    outcome gui w (Ok tt)
      (add_dialog w2
         (summary (Z.of_nat (length (copies_of (source_dir_entry gui)
                                       (missing_dir_entry gui) (check_var gui)
                                       t
                                       (snapshot (listing w1
                                                    (upscaled_dir_entry gui)))
                                       (w_fs w1)
                                       (listing w1 (source_dir_entry gui))))))).

(** * Proof steps used throughout *)

(** Unfold the monad's operations. *)
Ltac unfold_M :=
  unfold bind, ret, raise, lift, try_except, get_fs, put_fs,
    messagebox, record_copy, record_listing in *.

(** Settle a decidable proposition by evaluating its decision. *)
Ltac decide_by_computing :=
  apply (bool_decide_unpack _); vm_compute; exact I.

(** Split a conjunction into its parts. *)
Ltac split_all := repeat match goal with |- _ /\ _ => split end.

(** * Example worlds *)

(** An image of one colour. *)
Definition solid (width height : Z) (px : pixel) : image :=
  Image (width, height) (fun _ _ => px).

(** A file Pillow cannot read, and a picture of one colour. *)
Definition junk : file := File [] None 420.
Definition picture (px : pixel) : file := File [] (Some (solid 4 3 px)) 420.

(** The same picture, read-only. *)
Definition read_only (f : file) : file := File (f_bytes f) (f_pixels f) 292.

(** An open standard output that encodes every character, and
    [os.listdir] reporting the names in the order of their entry. *)
Definition plain : environment :=
  Environment false (fun _ => true) (fun _ _ => 0).

(** A closed standard output. *)
Definition closed : environment :=
  Environment true (fun _ => true) (fun _ _ => 0).

Definition black : pixel := PxTuple [0; 0; 0].
Definition grey_rgba : pixel := PxTuple [5; 9; 3; 255].
Definition white : pixel := PxTuple [255; 255; 255].

Definition world_of (nodes : list (path * node)) : world :=
  World (list_to_map nodes) [] [] [] [] plain.

(** The same world in another environment. *)
Definition in_env (env : environment) (w : world) : world :=
  World (w_fs w) (w_stdout w) (w_dialogs w) (w_copied w) (w_listed w) env.

(** Scenario A of the spec, with one more pair: [source] holds
    [cat.png], [dog.jpg] and [photo.png]; [upscaled] holds [cat.PNG] and
    [photo.jpg]; there is no [missing] directory yet. *)
Definition scenario_A : world :=
  world_of
    [ ([], NDir ["source"; "upscaled"]);
      (["source"], NDir ["cat.png"; "dog.jpg"; "photo.png"]);
      (["source"; "cat.png"], NFile (picture black));
      (["source"; "dog.jpg"], NFile (picture white));
      (["source"; "photo.png"], NFile (picture black));
      (["upscaled"], NDir ["cat.PNG"; "photo.jpg"]);
      (["upscaled"; "cat.PNG"], NFile (picture black));
      (["upscaled"; "photo.jpg"], NFile (picture black)) ].

Definition gui_A (check : bool) (color : string) : inputs :=
  Inputs ["source"] ["upscaled"] ["missing"] check color.

(** [source] holds [A.png] and [a.PNG], [v1.0.png], [Album.png] and a
    broken file; [upscaled] holds the subdirectories [v1.0] and [album];
    [missing] exists. *)
Definition scenario_B : world :=
  world_of
    [ ([], NDir ["source"; "upscaled"; "missing"]);
      (["source"],
       NDir ["A.png"; "a.PNG"; "v1.0.png"; "Album.png"; "broken.png"]);
      (["source"; "A.png"], NFile (picture grey_rgba));
      (["source"; "a.PNG"], NFile (picture grey_rgba));
      (["source"; "v1.0.png"], NFile (picture grey_rgba));
      (["source"; "Album.png"], NFile (picture grey_rgba));
      (["source"; "broken.png"], NFile junk);
      (["upscaled"], NDir ["v1.0"; "album"]);
      (["upscaled"; "v1.0"], NDir []);
      (["upscaled"; "album"], NDir []);
      (["missing"], NDir []) ].

Definition gui_B (check : bool) (color : string) : inputs :=
  Inputs ["source"] ["upscaled"] ["missing"] check color.

(** [source] lists a subdirectory before a file. *)
Definition scenario_C : world :=
  world_of
    [ ([], NDir ["source"; "upscaled"; "missing"]);
      (["source"], NDir ["first.png"; "sub"; "last.png"]);
      (["source"; "first.png"], NFile (picture black));
      (["source"; "sub"], NDir []);
      (["source"; "last.png"], NFile (picture black));
      (["upscaled"], NDir []);
      (["missing"], NDir []) ].

(** The world a computation leaves, and what it returns. *)
Definition world_after {A} (m : M A) (w : world) : world := snd (m w).
Definition result_of {A} (m : M A) (w : world) : result A := fst (m w).

(** [source] holds one read-only picture; [upscaled] is empty. *)
Definition scenario_D : world :=
  world_of
    [ ([], NDir ["source"; "upscaled"; "missing"]);
      (["source"], NDir ["seal.png"]);
      (["source"; "seal.png"], NFile (read_only (picture black)));
      (["upscaled"], NDir []);
      (["missing"], NDir []) ].

(** * The callbacks of the buttons (lines 110 to 122)

    An [Entry] widget is modelled by the text it holds; what the user
    answers in a dialog is an argument of the callback. *)

Module Entry.

(** [entry.delete(first, last)]: the characters from [first] up to, not
    including, [last]. *)
Definition delete (first last : nat) (text : string) : string :=
  (substring 0 first text
   ++ substring last (String.length text - last) text)%string.

(** [entry.insert(index, s)]: [s] goes before the character at
    [index]. *)
Definition insert (index : nat) (s : string) (text : string) : string :=
  (substring 0 index text ++ s
   ++ substring index (String.length text - index) text)%string.

(** The index ["end"]. *)
Definition end_index (text : string) : nat := String.length text.

End Entry.

(** The truth value of a string in an [if]. *)
Definition truthy (s : string) : bool :=
  match s with
  | EmptyString => false
  | String _ _ => true
  end.

(** [select_directory(entry)], for the answer [askdirectory()] gave: the
    chosen path, or the empty string when the dialog is cancelled. *)
Definition select_directory (askdirectory : string) (entry : string) : string :=
  let directory := askdirectory in
  if truthy directory
  then Entry.insert 0 directory (Entry.delete 0 (Entry.end_index entry) entry)
  else entry.

(** [choose_color()], for the pair [colorchooser.askcolor] gave: the
    colour as a triple and as [#rrggbb], or [(None, None)] when the
    dialog is cancelled.  The callback reads component 1. *)
Definition choose_color (askcolor : option rgb * option string)
    (color_entry : string) : string :=
  match snd askcolor with
  | Some color_code =>
      if truthy color_code
      then Entry.insert 0 color_code
             (Entry.delete 0 (Entry.end_index color_entry) color_entry)
      else color_entry
  | None => color_entry
  end.

(** * Kinds of exception *)

(** The exceptions of the file system, subclasses of [OSError], as
    opposed to those of the script's own computations. *)
Definition is_os_error (e : exn) : bool :=
  match e with
  | FileNotFoundError | FileExistsError | IsADirectoryError
  | NotADirectoryError | SameFileError | PermissionError => true
  | UnidentifiedImageError | IndexError | TypeError | ValueError
  | UnicodeEncodeError => false
  end.

(** * Properties *)

(** ** The corner matcher on pixels *)


Lemma all_of_Forall {A} (f : A -> result bool) (l : list A) :
  Forall (fun x => f x = Ok true) l -> all_of f l = Ok true.
Proof.
  induction 1 as [|x l Hx _ IH]; simpl; [reflexivity|].
  rewrite Hx. exact IH.
Qed.

Lemma all_of_Exists {A} (f : A -> result bool) (l : list A) :
  Exists (fun x => f x = Ok false) l -> all_of f l <> Ok true.
Proof.
  induction 1 as [x l Hx|x l _ IH]; simpl.
  - rewrite Hx. discriminate.
  - destruct (f x) as [[|]|e]; [exact IH|discriminate|discriminate].
Qed.

Lemma is_corner_color_within (t : rgb) (thr : Z) (px : pixel) :
  within t thr px -> is_corner_color px t thr = Ok true.
Proof.
  intros H. unfold is_corner_color. apply all_of_Forall.
  assert (Hband : forall i, (i < 3)%nat ->
            (let? p := pixel_getitem px i in
             Ok (Z.abs (p - rgb_getitem t i) <=? thr)) = Ok true).
  { intros i Hi. destruct (H i Hi) as (v & -> & Hv). simpl.
    f_equal. apply Z.leb_le. exact Hv. }
  cbn [seq]. repeat (constructor; [apply Hband; lia|]). constructor.
Qed.

Lemma is_corner_color_exceeds (t : rgb) (thr : Z) (px : pixel) :
  exceeds t thr px -> is_corner_color px t thr = Ok false.
Proof.
  intros (i & v & Hi & Hget & Hv).
  destruct px as [s|bands]; [discriminate|].
  unfold pixel_getitem in Hget.
  destruct (bands !! i) as [v'|] eqn:Hb; [|discriminate].
  injection Hget as ->.
  apply Z.leb_gt in Hv.
  unfold is_corner_color. cbn [seq all_of].
  destruct i as [|[|[|i]]]; [| | |lia].
  - destruct bands as [|a bands]; [discriminate|].
    injection Hb as ->. cbn. rewrite Hv. reflexivity.
  - destruct bands as [|a [|b bands]]; [discriminate|discriminate|].
    injection Hb as ->. cbn.
    destruct (Z.abs (a - rgb_getitem t 0) <=? thr); [|reflexivity].
    rewrite Hv. reflexivity.
  - destruct bands as [|a [|b [|c bands]]]; [discriminate..|].
    injection Hb as ->. cbn.
    destruct (Z.abs (a - rgb_getitem t 0) <=? thr); [|reflexivity].
    destruct (Z.abs (b - rgb_getitem t 1) <=? thr); [|reflexivity].
    rewrite Hv. reflexivity.
Qed.

(** A pixel with fewer than three bands never matches: a single-band
    pixel is not subscriptable, a shorter tuple runs out of bands. *)
Lemma is_corner_color_short (t : rgb) (thr : Z) (px : pixel) :
  (forall a b c rest, px <> PxTuple (a :: b :: c :: rest)) ->
  is_corner_color px t thr <> Ok true.
Proof.
  intros H. destruct px as [s|[|a [|b [|c rest]]]]; cbn.
  - discriminate.
  - discriminate.
  - destruct (_ <=? _); discriminate.
  - destruct (_ <=? _); [|discriminate]. destruct (_ <=? _); discriminate.
  - exfalso. eapply H. reflexivity.
Qed.

Lemma corners_match_eq (img : image) (t : rgb) (thr : Z)
    (c1 c2 c3 c4 : pixel) :
  pixel_access img 0 0 = Ok c1 ->
  pixel_access img 0 (snd (img_size img) - 1) = Ok c2 ->
  pixel_access img (fst (img_size img) - 1) 0 = Ok c3 ->
  pixel_access img (fst (img_size img) - 1) (snd (img_size img) - 1) = Ok c4 ->
  corners_match img t thr =
  all_of (fun corner => is_corner_color corner t thr) [c1; c2; c3; c4].
Proof.
  intros H1 H2 H3 H4. unfold corners_match.
  destruct (img_size img) as [width height]; simpl in H2, H3, H4.
  rewrite H1, H2, H3, H4. reflexivity.
Qed.

Lemma corners_match_within (img : image) (t : rgb) (thr : Z)
    (c1 c2 c3 c4 : pixel) :
  pixel_access img 0 0 = Ok c1 ->
  pixel_access img 0 (snd (img_size img) - 1) = Ok c2 ->
  pixel_access img (fst (img_size img) - 1) 0 = Ok c3 ->
  pixel_access img (fst (img_size img) - 1) (snd (img_size img) - 1) = Ok c4 ->
  Forall (within t thr) [c1; c2; c3; c4] ->
  corners_match img t thr = Ok true.
Proof.
  intros H1 H2 H3 H4 HF.
  rewrite (corners_match_eq img t thr c1 c2 c3 c4 H1 H2 H3 H4).
  apply all_of_Forall.
  eapply Forall_impl; [exact HF|].
  intros px Hpx. apply is_corner_color_within, Hpx.
Qed.

Lemma corners_match_exceeds (img : image) (t : rgb) (thr : Z)
    (c1 c2 c3 c4 : pixel) :
  pixel_access img 0 0 = Ok c1 ->
  pixel_access img 0 (snd (img_size img) - 1) = Ok c2 ->
  pixel_access img (fst (img_size img) - 1) 0 = Ok c3 ->
  pixel_access img (fst (img_size img) - 1) (snd (img_size img) - 1) = Ok c4 ->
  Exists (exceeds t thr) [c1; c2; c3; c4] ->
  corners_match img t thr <> Ok true.
Proof.
  intros H1 H2 H3 H4 HE.
  rewrite (corners_match_eq img t thr c1 c2 c3 c4 H1 H2 H3 H4).
  apply all_of_Exists.
  eapply Exists_impl; [exact HE|].
  intros px Hpx. apply is_corner_color_exceeds, Hpx.
Qed.

(** An image with no column or no row has no corner to read. *)
Lemma corners_match_zero_size (img : image) (t : rgb) (thr : Z) :
  fst (img_size img) <= 0 \/ snd (img_size img) <= 0 ->
  corners_match img t thr = Raise IndexError.
Proof.
  intros H. unfold corners_match, pixel_access.
  destruct (img_size img) as [width height]; simpl in *.
  replace (0 <? 0) with false by reflexivity.
  destruct H as [H|H].
  - replace (width <=? 0) with true by (symmetry; apply Z.leb_le; lia).
    reflexivity.
  - replace (height <=? 0) with true by (symmetry; apply Z.leb_le; lia).
    rewrite orb_true_r. reflexivity.
Qed.

(** On a pixel of three bands or more the comparison raises nothing. *)
Lemma is_corner_color_three_bands (t : rgb) (thr : Z) (px : pixel) :
  three_bands px -> exists b, is_corner_color px t thr = Ok b.
Proof.
  intros (x & y & z & rest & ->). destruct t as [[r g] b]. cbn.
  destruct (_ <=? _); [|eauto]. destruct (_ <=? _); [|eauto].
  destruct (_ <=? _); eauto.
Qed.

Lemma all_of_total {A} (f : A -> result bool) (l : list A) :
  Forall (fun x => exists b, f x = Ok b) l -> exists b, all_of f l = Ok b.
Proof.
  induction 1 as [|x l [b Hx] _ [b' IH]]; simpl; [eauto|].
  rewrite Hx. destruct b; eauto.
Qed.

Lemma corners_match_three_bands (img : image) (t : rgb) (thr : Z)
    (c1 c2 c3 c4 : pixel) :
  pixel_access img 0 0 = Ok c1 ->
  pixel_access img 0 (snd (img_size img) - 1) = Ok c2 ->
  pixel_access img (fst (img_size img) - 1) 0 = Ok c3 ->
  pixel_access img (fst (img_size img) - 1) (snd (img_size img) - 1) = Ok c4 ->
  Forall three_bands [c1; c2; c3; c4] ->
  exists b, corners_match img t thr = Ok b.
Proof.
  intros H1 H2 H3 H4 HF.
  rewrite (corners_match_eq img t thr c1 c2 c3 c4 H1 H2 H3 H4).
  apply all_of_total.
  eapply Forall_impl; [exact HF|].
  intros px Hpx. apply is_corner_color_three_bands, Hpx.
Qed.

(** ** The corner matcher on files *)

Lemma corner_ok_result (fs : gmap path node) (p : path) (t : rgb) (thr : Z) :
  corner_ok fs p t thr =
  match corner_result fs p t thr with
  | Ok true => true
  | _ => false
  end.
Proof.
  unfold corner_ok, corner_result, f_image.
  destruct (fs !! p) as [[f|names]|]; [|reflexivity..].
  destruct (readable f); cbn [negb]; [destruct (f_pixels f)|]; reflexivity.
Qed.

(** [check_corners_color], in one equation: the answer of the [try]
    block, or the line of the handler, or what printing it raises. *)
Lemma check_corners_color_eq (p : path) (t : rgb) (thr : Z) (w : world) :
  check_corners_color p t thr w =
  match corner_result (w_fs w) p t thr with
  | Ok b => (Ok b, w)
  | Raise caught =>
      match print_fails (w_env w) p with
      | None => (Ok false, printed w [(p, caught)])
      | Some e => (Raise e, w)
      end
  end.
Proof.
  unfold check_corners_color, Image_open, corner_result, print_error, printed.
  unfold_M.
  destruct (w_fs w !! p) as [[f|names]|]; cbn [negb].
  - destruct (readable f); cbn [negb].
    + destruct (f_pixels f) as [img|].
      * destruct (corners_match img t thr) as [b|e]; [reflexivity|].
        destruct (print_fails _ _); reflexivity.
      * destruct (print_fails _ _); reflexivity.
    + destruct (print_fails _ _); reflexivity.
  - destruct (print_fails _ _); reflexivity.
  - destruct (print_fails _ _); reflexivity.
Qed.

Lemma check_corners_color_true (p : path) (t : rgb) (thr : Z) (w : world) :
  fst (check_corners_color p t thr w) = Ok true <->
  corner_ok (w_fs w) p t thr = true.
Proof.
  rewrite check_corners_color_eq, corner_ok_result.
  destruct (corner_result _ _ _ _) as [[|]|e]; simpl.
  - tauto.
  - split; discriminate.
  - destruct (print_fails _ _); simpl; split; discriminate.
Qed.

Lemma check_corners_color_passes (p : path) (t : rgb) (thr : Z) (w : world) :
  corner_ok (w_fs w) p t thr = true ->
  check_corners_color p t thr w = (Ok true, w).
Proof.
  rewrite check_corners_color_eq, corner_ok_result.
  destruct (corner_result _ _ _ _) as [[|]|e]; [reflexivity|discriminate..].
Qed.

Lemma corner_ok_cannot_decode (fs : gmap path node) (p : path) (t : rgb)
    (thr : Z) :
  cannot_decode fs p -> corner_ok fs p t thr = false.
Proof.
  intros H. unfold corner_ok.
  destruct (fs !! p) as [[f|names]|] eqn:Hp; [|reflexivity..].
  destruct (f_image f) as [img|] eqn:Himg; [|reflexivity].
  rewrite (corners_match_zero_size img t thr (H f img Hp Himg)).
  reflexivity.
Qed.

(** A file that cannot be decoded makes the [try] block raise. *)
Lemma corner_result_cannot_decode (fs : gmap path node) (p : path) (t : rgb)
    (thr : Z) :
  cannot_decode fs p -> exists caught, corner_result fs p t thr = Raise caught.
Proof.
  intros H. unfold corner_result.
  destruct (fs !! p) as [[f|names]|] eqn:Hp; [|eauto..].
  destruct (readable f) eqn:Hr; cbn [negb]; [|eauto].
  destruct (f_pixels f) as [img|] eqn:Himg; [|eauto].
  assert (Hi : f_image f = Some img) by (unfold f_image; rewrite Hr; exact Himg).
  rewrite (corners_match_zero_size img t thr (H f img Hp Hi)). eauto.
Qed.

(** ** [shutil.copy] on the modelled file system *)

Lemma last_snoc (l : list string) (x d : string) : List.last (l ++ [x]) d = x.
Proof. induction l as [|a l IH]; [reflexivity|]. simpl. rewrite IH.
  destruct (l ++ [x]) eqn:E; [|reflexivity].
  destruct l; discriminate. Qed.

Lemma removelast_snoc (l : list string) (x : string) :
  removelast (l ++ [x]) = l.
Proof. apply removelast_last. Qed.

Lemma snoc_neq_self (l : list string) (x : string) : l ++ [x] <> l.
Proof.
  intros H. apply (f_equal (@length string)) in H.
  rewrite length_app in H. simpl in H. lia.
Qed.

Lemma file_eta (f : file) : File (f_bytes f) (f_pixels f) (f_mode f) = f.
Proof. destruct f; reflexivity. Qed.

(** What [shutil.copyfile] does when it returns. *)
Lemma shutil_copyfile_ok (src d : path) (w w' : world) :
  shutil_copyfile src d w = (Ok tt, w') ->
  src <> d /\
  exists f fs',
    w_fs w !! src = Some (NFile f) /\ readable f = true /\
    w' = World fs' (w_stdout w) (w_dialogs w) (w_copied w) (w_listed w)
               (w_env w) /\
    ((exists g, w_fs w !! d = Some (NFile g) /\ writable g = true /\
                fs' = <[d := NFile (File (f_bytes f) (f_pixels f) (f_mode g))]>
                        (w_fs w)) \/
     (exists names,
        w_fs w !! d = None /\
        w_fs w !! os_path_dirname d = Some (NDir names) /\
        fs' = <[d := NFile (File (f_bytes f) (f_pixels f) new_file_mode)]>
                (<[os_path_dirname d := NDir (names ++ [os_path_basename d])]>
                   (w_fs w)))).
Proof.
  unfold shutil_copyfile, link. unfold_M.
  destruct (bool_decide (src = d) && bool_decide (is_Some (w_fs w !! src)))
    eqn:Hsame; [discriminate|].
  destruct (w_fs w !! src) as [[f|names]|] eqn:Hsrc; [|discriminate..].
  assert (Hne : src <> d).
  { intros E. rewrite (bool_decide_eq_true_2 _ E) in Hsame.
    rewrite bool_decide_eq_true_2 in Hsame by eauto. discriminate. }
  destruct (readable f) eqn:Hr; cbn [negb]; [|discriminate].
  destruct (w_fs w !! d) as [[g|names]|] eqn:Hd; [|discriminate|].
  - destruct (writable g) eqn:Hw; cbn [negb]; [|discriminate].
    intros H. injection H as <-.
    split; [exact Hne|]. exists f. eexists.
    split; [reflexivity|]. split; [exact Hr|]. split; [reflexivity|].
    left. exists g. auto.
  - destruct (w_fs w !! os_path_dirname d) as [[g|names]|] eqn:Hpar;
      [discriminate| |discriminate].
    intros H. injection H as <-.
    split; [exact Hne|]. exists f. eexists.
    split; [reflexivity|]. split; [exact Hr|]. split; [reflexivity|].
    right. exists names. auto.
Qed.

Lemma shutil_copyfile_raise (src d : path) (w w' : world) (e : exn) :
  shutil_copyfile src d w = (Raise e, w') -> w' = w.
Proof.
  unfold shutil_copyfile, link. unfold_M.
  intros H. repeat case_match; simplify_eq; reflexivity.
Qed.

(** After [shutil.copyfile], [shutil.copymode] finds both files. *)
Lemma shutil_copymode_after (src d : path) (w w1 : world) :
  shutil_copyfile src d w = (Ok tt, w1) ->
  exists f g,
    w_fs w !! src = Some (NFile f) /\
    w_fs w1 !! d = Some (NFile g) /\
    f_bytes g = f_bytes f /\ f_pixels g = f_pixels f /\
    shutil_copymode src d w1 =
      (Ok tt, World (<[d := NFile f]> (w_fs w1)) (w_stdout w) (w_dialogs w)
                    (w_copied w) (w_listed w) (w_env w)).
Proof.
  intros Hcf.
  apply shutil_copyfile_ok in Hcf as (Hne & f & fs' & Hsrc & Hr & -> & Hcase).
  assert (Hs' : fs' !! src = Some (NFile f)).
  { destruct Hcase as [(g & Hd & _ & ->)|(names & Hd & Hpar & ->)].
    - rewrite lookup_insert_ne by congruence. exact Hsrc.
    - rewrite lookup_insert_ne by congruence.
      rewrite lookup_insert_ne by congruence. exact Hsrc. }
  assert (Hd' : exists m, fs' !! d
                          = Some (NFile (File (f_bytes f) (f_pixels f) m))).
  { destruct Hcase as [(g & Hd & _ & ->)|(names & Hd & Hpar & ->)];
      rewrite lookup_insert_eq; eauto. }
  destruct Hd' as [m Hd'].
  exists f, (File (f_bytes f) (f_pixels f) m).
  split; [exact Hsrc|]. split; [exact Hd'|].
  split; [reflexivity|]. split; [reflexivity|].
  unfold shutil_copymode. unfold_M. cbn [w_fs w_stdout w_dialogs w_copied
                                         w_listed w_env].
  rewrite Hs', Hd'. cbn [f_bytes f_pixels]. rewrite file_eta. reflexivity.
Qed.

Lemma shutil_copy_raise (src dst0 : path) (w w' : world) (e : exn) :
  shutil_copy src dst0 w = (Raise e, w') -> w' = w.
Proof.
  unfold shutil_copy, os_path_isdir, record_copy, bind, get_fs, ret.
  set (d := if is_dir (w_fs w) dst0
            then os_path_join dst0 (os_path_basename src) else dst0).
  destruct (shutil_copyfile src d w) as [[[]|e1] w1] eqn:Hcf.
  - destruct (shutil_copymode_after src d w w1 Hcf)
      as (f & g & _ & _ & _ & _ & ->). discriminate.
  - intros H. injection H as _ <-. exact (shutil_copyfile_raise _ _ _ _ _ Hcf).
Qed.

Lemma shutil_copy_ok (src dst0 d : path) (w w' : world) :
  shutil_copy src dst0 w = (Ok d, w') ->
  d = (if is_dir (w_fs w) dst0 then dst0 ++ [os_path_basename src] else dst0) /\
  src <> d /\
  is_dir (w_fs w) d = false /\
  (exists f, w_fs w !! src = Some (NFile f) /\
             w_fs w' !! d = Some (NFile f) /\
             (w_fs w !! d = Some (NFile f) -> w_fs w' = w_fs w) /\
             readable f = true) /\
  (forall q, q <> d ->
     w_fs w' !! q = w_fs w !! q \/
     exists l x, w_fs w !! q = Some (NDir l) /\
                 w_fs w' !! q = Some (NDir (l ++ [x]))) /\
  w_stdout w' = w_stdout w /\ w_dialogs w' = w_dialogs w /\
  w_copied w' = w_copied w ++ [(src, d)] /\
  w_listed w' = w_listed w /\ w_env w' = w_env w.
Proof.
  unfold shutil_copy, os_path_isdir, record_copy, bind, get_fs, ret.
  set (d0 := if is_dir (w_fs w) dst0
             then os_path_join dst0 (os_path_basename src) else dst0).
  destruct (shutil_copyfile src d0 w) as [[[]|e1] w1] eqn:Hcf; [|discriminate].
  destruct (shutil_copymode_after src d0 w w1 Hcf)
    as (f & g & Hsrc & Hg & _ & _ & ->).
  intros H. injection H as Hd Hw. subst d w'.
  cbn [w_fs w_stdout w_dialogs w_copied w_listed w_env].
  apply shutil_copyfile_ok in Hcf as (Hne & f' & fs' & Hsrc' & Hr & -> & Hcase).
  cbn [w_fs] in *. rewrite Hsrc in Hsrc'. injection Hsrc' as <-.
  split; [reflexivity|]. split; [exact Hne|].
  destruct Hcase as [(g0 & Hd0 & Hw0 & ->)|(names & Hd0 & Hpar & ->)].
  - (* the destination is an existing file: overwritten *)
    rewrite insert_insert_eq.
    split; [unfold is_dir; rewrite Hd0; reflexivity|].
    split.
    { exists f. split; [exact Hsrc|]. split; [apply lookup_insert_eq|].
      split; [|exact Hr]. intros Hf. apply insert_id. exact Hf. }
    split; [|auto].
    intros q Hq. left. apply lookup_insert_ne. congruence.
  - (* the destination is new: entered in its parent directory *)
    rewrite insert_insert_eq.
    split; [unfold is_dir; rewrite Hd0; reflexivity|].
    split.
    { exists f. split; [exact Hsrc|]. split; [apply lookup_insert_eq|].
      split; [|exact Hr]. intros Hf. congruence. }
    split; [|auto].
    intros q Hq. rewrite lookup_insert_ne by congruence.
    destruct (decide (q = os_path_dirname d0)) as [->|Hq'].
    + right. exists names, (os_path_basename d0).
      rewrite lookup_insert_eq. auto.
    + left. apply lookup_insert_ne. congruence.
Qed.

(** Copying a file onto a writable copy of itself changes nothing but the
    history. *)
Lemma shutil_copy_same (src dst0 : path) (f : file) (w : world) :
  let d := if is_dir (w_fs w) dst0
           then dst0 ++ [os_path_basename src] else dst0 in
  w_fs w !! src = Some (NFile f) ->
  w_fs w !! d = Some (NFile f) ->
  src <> d ->
  readable f = true -> writable f = true ->
  shutil_copy src dst0 w =
    (Ok d, World (w_fs w) (w_stdout w) (w_dialogs w) (w_copied w ++ [(src, d)])
                 (w_listed w) (w_env w)).
Proof.
  intros d Hsrc Hdst Hne Hr Hw.
  unfold shutil_copy, shutil_copyfile, shutil_copymode, os_path_isdir,
    os_path_join. unfold_M.
  fold d. rewrite (bool_decide_eq_false_2 _ Hne). cbn [andb].
  rewrite Hsrc, Hdst, Hr, Hw. cbn [negb w_fs].
  rewrite file_eta, (insert_id _ _ _ Hdst), Hsrc, Hdst.
  cbn [w_fs w_stdout w_dialogs w_copied w_listed w_env].
  rewrite file_eta, (insert_id _ _ _ Hdst). reflexivity.
Qed.

(** Copying onto a read-only file is refused. *)
Lemma shutil_copy_read_only (src dst0 : path) (f g : file) (w : world) :
  let d := if is_dir (w_fs w) dst0
           then dst0 ++ [os_path_basename src] else dst0 in
  w_fs w !! src = Some (NFile f) ->
  w_fs w !! d = Some (NFile g) ->
  src <> d ->
  readable f = true -> writable g = false ->
  shutil_copy src dst0 w = (Raise PermissionError, w).
Proof.
  intros d Hsrc Hdst Hne Hr Hw.
  unfold shutil_copy, shutil_copyfile, os_path_isdir, os_path_join. unfold_M.
  fold d. rewrite (bool_decide_eq_false_2 _ Hne). cbn [andb].
  rewrite Hsrc, Hdst, Hr, Hw. reflexivity.
Qed.

(** ** The loop *)

Lemma frame_refl (src : path) (fs : gmap path node) : frame src fs fs.
Proof.
  repeat split; auto.
  intros q l H. exists []. rewrite app_nil_r. exact H.
Qed.

Lemma is_dir_true (fs : gmap path node) (q : path) :
  is_dir fs q = true -> exists l, fs !! q = Some (NDir l).
Proof.
  unfold is_dir. destruct (fs !! q) as [[f|l]|]; try discriminate. eauto.
Qed.

Lemma is_dir_NDir (fs : gmap path node) (q : path) (l : list string) :
  fs !! q = Some (NDir l) -> is_dir fs q = true.
Proof. unfold is_dir. intros ->. reflexivity. Qed.

Lemma is_dir_NFile (fs : gmap path node) (q : path) (f : file) :
  fs !! q = Some (NFile f) -> is_dir fs q = false.
Proof. unfold is_dir. intros ->. reflexivity. Qed.

Lemma frame_corner_ok (src : path) (fs1 fs : gmap path node) (n : string)
    (t : rgb) (thr : Z) :
  frame src fs1 fs ->
  corner_ok fs (src ++ [n]) t thr = corner_ok fs1 (src ++ [n]) t thr.
Proof.
  intros (Hd & Hs & _ & _).
  destruct (is_dir fs1 (src ++ [n])) eqn:E.
  - pose proof (Hd (src ++ [n])) as E'. rewrite E in E'.
    apply is_dir_true in E as [l Hl]. apply is_dir_true in E' as [l' Hl'].
    unfold corner_ok. rewrite Hl, Hl'. reflexivity.
  - unfold corner_ok. rewrite (Hs n E). reflexivity.
Qed.

Lemma frame_corner_result (src : path) (fs1 fs : gmap path node) (n : string)
    (t : rgb) (thr : Z) :
  frame src fs1 fs ->
  corner_result fs (src ++ [n]) t thr = corner_result fs1 (src ++ [n]) t thr.
Proof.
  intros (Hd & Hs & _ & _).
  destruct (is_dir fs1 (src ++ [n])) eqn:E.
  - pose proof (Hd (src ++ [n])) as E'. rewrite E in E'.
    apply is_dir_true in E as [l Hl]. apply is_dir_true in E' as [l' Hl'].
    unfold corner_result. rewrite Hl, Hl'. reflexivity.
  - unfold corner_result. rewrite (Hs n E). reflexivity.
Qed.

Lemma frame_selected (src : path) (check : bool) (t : rgb)
    (snap : gset string) (fs1 fs : gmap path node) (n : string) :
  frame src fs1 fs ->
  selected src check t snap fs n = selected src check t snap fs1 n.
Proof.
  intros H. unfold selected. rewrite (frame_corner_ok src fs1 fs n t 10 H).
  reflexivity.
Qed.

Lemma frame_dst_of (src missing : path) (fs1 fs : gmap path node)
    (n : string) :
  frame src fs1 fs -> dst_of missing fs n = dst_of missing fs1 n.
Proof. intros (Hd & _). unfold dst_of. rewrite Hd. reflexivity. Qed.

Lemma dst_of_last (missing : path) (fs : gmap path node) (n : string) :
  exists l, dst_of missing fs n = l ++ [n].
Proof. unfold dst_of. destruct (is_dir _ _); eauto. Qed.

Lemma dst_of_inj (missing : path) (fs : gmap path node) (a b : string) :
  dst_of missing fs a = dst_of missing fs b -> a = b.
Proof.
  destruct (dst_of_last missing fs a) as [la ->].
  destruct (dst_of_last missing fs b) as [lb ->].
  intros H. apply app_inj_tail in H. tauto.
Qed.

Lemma frame_verdict (src : path) (check : bool) (t : rgb)
    (snap : gset string) (fs1 fs : gmap path node) (env : environment)
    (n : string) :
  frame src fs1 fs ->
  verdict_of src check t snap fs env n = verdict_of src check t snap fs1 env n.
Proof.
  intros H. unfold verdict_of.
  rewrite (frame_corner_result src fs1 fs n t 10 H). reflexivity.
Qed.

(** The names the loop copies are those whose verdict is [Copy]. *)
Lemma selected_verdict (src : path) (check : bool) (t : rgb)
    (snap : gset string) (fs : gmap path node) (env : environment)
    (n : string) :
  (selected src check t snap fs n = true ->
   verdict_of src check t snap fs env n = Copy) /\
  (verdict_of src check t snap fs env n = Copy ->
   selected src check t snap fs n = true).
Proof.
  unfold selected, verdict_of. rewrite corner_ok_result.
  destruct (bool_decide (base_name_lower n ∈ snap)); cbn [negb andb].
  { split; discriminate. }
  destruct check; cbn [negb orb]; [|auto].
  destruct (corner_result fs (src ++ [n]) t 10) as [[|]|e];
    [auto|split; discriminate|].
  destruct (print_fails env (src ++ [n])); split; discriminate.
Qed.

Section Loop.

Variables (source_dir missing_dir : path) (check : bool) (t : rgb)
          (snap : gset string) (fs1 : gmap path node) (env : environment).

Let sel (n : string) : bool := selected source_dir check t snap fs1 n.
Let vd (n : string) : verdict := verdict_of source_dir check t snap fs1 env n.
Let body := loop_body source_dir missing_dir check t snap.
Let src_of (n : string) : path := source_dir ++ [n].
Let dst (n : string) : path := dst_of missing_dir fs1 n.

(** One successful copy of the loop keeps the frame. *)
Lemma copy_keeps_frame (n : string) (d : path) (w w' : world) :
  frame source_dir fs1 (w_fs w) ->
  shutil_copy (src_of n) (missing_dir ++ [n]) w = (Ok d, w') ->
  frame source_dir fs1 (w_fs w') /\ d = dst n /\ src_of n <> dst n /\
  (exists f, fs1 !! src_of n = Some (NFile f) /\
             w_fs w' !! dst n = Some (NFile f) /\
             (w_fs w !! dst n = Some (NFile f) -> w_fs w' = w_fs w) /\
             readable f = true) /\
  (forall q, q <> dst n ->
     w_fs w' !! q = w_fs w !! q \/
     exists l x, w_fs w !! q = Some (NDir l) /\
                 w_fs w' !! q = Some (NDir (l ++ [x]))) /\
  w_dialogs w' = w_dialogs w /\
  w_copied w' = w_copied w ++ [(src_of n, dst n)] /\
  w_stdout w' = w_stdout w /\ w_listed w' = w_listed w /\
  w_env w' = w_env w.
Proof.
  intros HF Hcp. pose proof HF as (Hd & Hs & Hl & He).
  apply shutil_copy_ok in Hcp
    as (Hdeq & Hne & Hnd & (f & Hsrc & Hdst & Hid & Hrd) & Hoth & Hout & Hdlg
        & Hcop & Hlis & Henv).
  assert (Ed : d = dst n).
  { rewrite Hdeq. unfold dst, dst_of, src_of, os_path_basename.
    rewrite last_snoc, Hd. reflexivity. }
  clear Hdeq. subst d.
  assert (Hfs1 : fs1 !! src_of n = Some (NFile f)).
  { rewrite <- Hsrc. symmetry. apply Hs.
    rewrite <- Hd. exact (is_dir_NFile _ _ _ Hsrc). }
  assert (Hdir' : forall q, is_dir (w_fs w') q = is_dir (w_fs w) q).
  { intros q. destruct (decide (q = dst n)) as [->|Hq].
    - rewrite Hnd. exact (is_dir_NFile _ _ _ Hdst).
    - destruct (Hoth q Hq) as [E|(l & x & E1 & E2)].
      + unfold is_dir. rewrite E. reflexivity.
      + rewrite (is_dir_NDir _ _ _ E1), (is_dir_NDir _ _ _ E2).
        reflexivity. }
  split; [|repeat split; eauto].
  repeat split.
  - intros q. rewrite Hdir'. apply Hd.
  - intros n' Hn'. rewrite <- (Hs n' Hn').
    destruct (decide (source_dir ++ [n'] = dst n)) as [E|Hq].
    + exfalso. apply Hne. unfold src_of. rewrite <- E.
      destruct (dst_of_last missing_dir fs1 n) as [l El].
      unfold dst in E. rewrite El in E.
      apply app_inj_tail in E as [_ ->]. reflexivity.
    + destruct (Hoth _ Hq) as [E|(l & x & E1 & E2)]; [exact E|].
      apply is_dir_NDir in E1. rewrite Hd in E1. congruence.
  - intros q l Hq. destruct (Hl q l Hq) as [l' Hl'].
    assert (Hqd : q <> dst n).
    { intros ->. apply is_dir_NDir in Hl'. congruence. }
    destruct (Hoth q Hqd) as [E|(l0 & x & E1 & E2)].
    + exists l'. rewrite E. exact Hl'.
    + exists (l' ++ [x]). rewrite E2. rewrite Hl' in E1.
      injection E1 as <-. rewrite app_assoc. reflexivity.
  - intros q Hq. apply He in Hq.
    destruct (decide (q = dst n)) as [->|Hqd]; [rewrite Hdst; eauto|].
    destruct (Hoth q Hqd) as [E|(l0 & x & E1 & E2)].
    + rewrite E. exact Hq.
    + rewrite E2. eauto.
Qed.

(** What one iteration does, by the verdict on its entry. *)
Lemma loop_body_spec (n : string) (c : Z) (w : world) :
  frame source_dir fs1 (w_fs w) ->
  w_env w = env ->
  body n c w =
    match vd n with
    | Pass => (Ok c, w)
    | PassPrinting caught => (Ok c, printed w [(src_of n, caught)])
    | Copy =>
        match shutil_copy (src_of n) (missing_dir ++ [n]) w with
        | (Ok _, w') => (Ok (c + 1), w')
        | (Raise e, w') => (Raise e, w')
        end
    | PrintRaises e => (Raise e, w)
    end.
Proof.
  intros HF Henv. unfold body, loop_body, vd.
  rewrite <- (frame_verdict source_dir check t snap fs1 (w_fs w) env n HF).
  unfold verdict_of.
  destruct (bool_decide (base_name_lower n ∈ snap)); [reflexivity|].
  unfold os_path_join. fold (src_of n).
  destruct check.
  - unfold bind at 1. unfold bind at 1.
    rewrite check_corners_color_eq, Henv.
    destruct (corner_result (w_fs w) (src_of n) t 10) as [[|]|caught].
    + unfold ret at 1. cbn [negb]. unfold bind, ret.
      destruct (shutil_copy _ _ _) as [[d|e] w']; reflexivity.
    + reflexivity.
    + destruct (print_fails env (src_of n)); reflexivity.
  - unfold bind, ret.
    destruct (shutil_copy _ _ _) as [[d|e] w']; reflexivity.
Qed.

(** A file already copied stays where it was put. *)
Let kept (w : world) (n : string) : Prop :=
  in_place source_dir missing_dir fs1 (w_fs w) n.
Let copies (names : list string) : list (path * path) :=
  copies_of source_dir missing_dir check t snap fs1 names.

(** An iteration that returns has passed over its entry or copied it. *)
Lemma body_returns (n : string) (c c' : Z) (w w' : world) :
  frame source_dir fs1 (w_fs w) -> w_env w = env ->
  body n c w = (Ok c', w') ->
  (forall e, vd n <> PrintRaises e) /\
  ((sel n = false /\ c' = c /\ w_fs w' = w_fs w /\
    w_copied w' = w_copied w /\ w_dialogs w' = w_dialogs w /\
    w_listed w' = w_listed w /\ w_env w' = w_env w) \/
   (sel n = true /\ c' = c + 1 /\
    exists d, shutil_copy (src_of n) (missing_dir ++ [n]) w = (Ok d, w'))).
Proof.
  intros HF Henv Hb. rewrite (loop_body_spec n c w HF Henv) in Hb.
  pose proof (selected_verdict source_dir check t snap fs1 env n) as [Hsv Hvs].
  fold (sel n) in Hsv, Hvs. fold (vd n) in Hsv, Hvs.
  destruct (vd n) as [|caught| |e] eqn:Hv.
  - injection Hb as <- <-. split; [discriminate|]. left.
    split; [|auto 10]. destruct (sel n); [|reflexivity].
    discriminate (Hsv eq_refl).
  - injection Hb as <- <-. split; [discriminate|]. left.
    split; [|cbn; auto 10]. destruct (sel n); [|reflexivity].
    discriminate (Hsv eq_refl).
  - split; [discriminate|]. right. split; [exact (Hvs eq_refl)|].
    destruct (shutil_copy _ _ _) as [[d|e] w1] eqn:Hcp; [|discriminate].
    injection Hb as <- <-. eauto.
  - discriminate.
Qed.

(** An iteration that raises: the copy raised, or the print of the
    corner check's line. *)
Lemma body_raise (n : string) (c : Z) (w w' : world) (e : exn) :
  frame source_dir fs1 (w_fs w) -> w_env w = env ->
  body n c w = (Raise e, w') ->
  w' = w /\
  ((sel n = true /\
    shutil_copy (src_of n) (missing_dir ++ [n]) w = (Raise e, w)) \/
   vd n = PrintRaises e).
Proof.
  intros HF Henv Hb. rewrite (loop_body_spec n c w HF Henv) in Hb.
  pose proof (selected_verdict source_dir check t snap fs1 env n) as [_ Hvs].
  fold (sel n) in Hvs. fold (vd n) in Hvs.
  destruct (vd n) as [|caught| |e'] eqn:Hv; try discriminate.
  - destruct (shutil_copy _ _ _) as [[d|e'] w2] eqn:Hcp; [discriminate|].
    injection Hb as <- <-.
    pose proof (shutil_copy_raise _ _ _ _ _ Hcp) as ->.
    split; [reflexivity|]. left. auto.
  - injection Hb as <- <-. auto.
Qed.

Lemma body_keeps_frame (n : string) (c c' : Z) (w w' : world) :
  frame source_dir fs1 (w_fs w) -> w_env w = env ->
  body n c w = (Ok c', w') ->
  frame source_dir fs1 (w_fs w') /\ w_env w' = env /\
  w_dialogs w' = w_dialogs w /\ w_listed w' = w_listed w.
Proof.
  intros HF Henv Hb.
  destruct (body_returns n c c' w w' HF Henv Hb)
    as [_ [(_ & _ & Hfs & _ & Hd & Hl & He)|(_ & _ & d & Hcp)]].
  - rewrite Hfs, He. auto.
  - apply copy_keeps_frame in Hcp
      as (HF' & _ & _ & _ & _ & Hd & _ & _ & Hl & He); [|exact HF].
    rewrite He. auto.
Qed.

Lemma body_keeps_copied (n0 n : string) (c c' : Z) (w w' : world) :
  frame source_dir fs1 (w_fs w) -> w_env w = env ->
  kept w n0 -> body n c w = (Ok c', w') -> kept w' n0.
Proof.
  intros HF Henv (f0 & Hsrc0 & Hdst0 & Hne0 & Hrd0) Hb.
  destruct (body_returns n c c' w w' HF Henv Hb)
    as [_ [(_ & _ & Hfs & _)|(_ & _ & d & Hcp)]].
  - exists f0. rewrite Hfs. auto.
  - apply copy_keeps_frame in Hcp
      as (_ & _ & _ & (f & Hsrc & Hdst & _) & Hoth & _); [|exact HF].
    exists f0. split; [exact Hsrc0|]. split; [|split; [exact Hne0|exact Hrd0]].
    change (w_fs w' !! dst n0 = Some (NFile f0)).
    change (fs1 !! src_of n0 = Some (NFile f0)) in Hsrc0.
    change (w_fs w !! dst n0 = Some (NFile f0)) in Hdst0.
    destruct (decide (dst n0 = dst n)) as [E|Hq].
    + pose proof (dst_of_inj _ _ _ _ E) as ->. congruence.
    + destruct (Hoth _ Hq) as [E|(l & x & E1 & E2)].
      * rewrite E. exact Hdst0.
      * simpl in E1. congruence.
Qed.

Lemma for_each_keeps_copied (n0 : string) (names : list string) :
  forall (c : Z) (w : world) (r : result Z) (w' : world),
    frame source_dir fs1 (w_fs w) -> w_env w = env -> kept w n0 ->
    for_each body names c w = (r, w') -> kept w' n0.
Proof.
  induction names as [|n names IH]; intros c w r w' HF Henv Hk Hrun.
  - cbn in Hrun. injection Hrun as _ <-. exact Hk.
  - cbn [for_each] in Hrun. unfold bind in Hrun.
    destruct (body n c w) as [[c1|e] w1] eqn:Hb.
    + destruct (body_keeps_frame n c c1 w w1 HF Henv Hb) as (HF1 & Henv1 & _).
      eapply IH; [exact HF1|exact Henv1| |exact Hrun].
      exact (body_keeps_copied n0 n c c1 w w1 HF Henv Hk Hb).
    + injection Hrun as _ <-.
      apply body_raise in Hb as [-> _]; [exact Hk|exact HF|exact Henv].
Qed.

(** The whole loop: either it completes, having copied exactly the
    selected names in order, or an iteration raised, in the copy or in
    the print of the corner check, and the names before it are copied. *)
Lemma for_each_spec (names : list string) :
  forall (c : Z) (w : world) (r : result Z) (w' : world),
    frame source_dir fs1 (w_fs w) -> w_env w = env ->
    for_each body names c w = (r, w') ->
    frame source_dir fs1 (w_fs w') /\
    w_dialogs w' = w_dialogs w /\
    w_listed w' = w_listed w /\ w_env w' = env /\
    match r with
    | Ok c' =>
        c' = c + Z.of_nat (length (filter (fun n => sel n = true) names)) /\
        w_copied w' = w_copied w ++ copies names /\
        Forall (kept w') (filter (fun n => sel n = true) names) /\
        Forall (fun n => forall e, vd n <> PrintRaises e) names
    | Raise e =>
        exists pre n post,
          names = pre ++ n :: post /\
          w_copied w' = w_copied w ++ copies pre /\
          Forall (kept w') (filter (fun n => sel n = true) pre) /\
          ((sel n = true /\
            shutil_copy (src_of n) (missing_dir ++ [n]) w' = (Raise e, w')) \/
           vd n = PrintRaises e)
    end.
Proof.
  induction names as [|n names IH]; intros c w r w' HF Henv Hrun.
  - cbn in Hrun. injection Hrun as <- <-.
    split; [exact HF|]. split; [reflexivity|]. split; [reflexivity|].
    split; [exact Henv|].
    split; [cbn; lia|]. split; [|split; constructor].
    unfold copies, copies_of. cbn. rewrite app_nil_r. reflexivity.
  - cbn [for_each] in Hrun. unfold bind in Hrun.
    destruct (body n c w) as [[c1|e] w1] eqn:Hb.
    + (* the iteration for [n] returned *)
      destruct (body_keeps_frame n c c1 w w1 HF Henv Hb)
        as (HF1 & Henv1 & Hd1 & Hl1).
      pose proof (IH c1 w1 r w' HF1 Henv1 Hrun)
        as (HF' & Hdlg & Hlis & Henv' & Hr).
      split; [exact HF'|]. split; [congruence|]. split; [congruence|].
      split; [exact Henv'|].
      destruct (body_returns n c c1 w w1 HF Henv Hb)
        as [Hnp [(Hsel & -> & Hfs & Hcop1 & _)|(Hsel & -> & d & Hcp)]].
      * (* passed over *)
        assert (Hfil : forall l, filter (fun n => sel n = true) (n :: l)
                                 = filter (fun n => sel n = true) l).
        { intros l. apply filter_cons_False.
          change (sel n <> true). rewrite Hsel. discriminate. }
        destruct r as [c'|e].
        -- destruct Hr as (-> & Hcop & Hkept & Hnps).
           rewrite Hfil. split; [reflexivity|].
           split; [|split; [exact Hkept|constructor; assumption]].
           rewrite Hcop, Hcop1. unfold copies, copies_of. rewrite Hfil.
           reflexivity.
        -- destruct Hr as (pre & m & post & -> & Hcop & Hkept & Hwhy).
           exists (n :: pre), m, post.
           split; [reflexivity|]. rewrite Hfil.
           split; [|split; [exact Hkept|exact Hwhy]].
           rewrite Hcop, Hcop1. unfold copies, copies_of. rewrite Hfil.
           reflexivity.
      * (* copied *)
        assert (Hfil : forall l, filter (fun n => sel n = true) (n :: l)
                                 = n :: filter (fun n => sel n = true) l).
        { intros l. apply filter_cons_True. exact Hsel. }
        apply copy_keeps_frame in Hcp
          as (_ & _ & Hne & (f & Hsrc & Hdst & _ & Hrd) & _ & _ & Hcop1 & _);
          [|exact HF].
        assert (Hk1 : kept w1 n) by (exists f; auto).
        pose proof (for_each_keeps_copied n names _ _ _ _ HF1 Henv1 Hk1 Hrun)
          as Hk'.
        destruct r as [c'|e].
        -- destruct Hr as (-> & Hcop & Hkept & Hnps).
           rewrite Hfil. split; [cbn [length]; lia|].
           split; [|split; constructor; assumption].
           rewrite Hcop, Hcop1. unfold copies, copies_of. rewrite Hfil.
           cbn [map]. rewrite <- app_assoc. reflexivity.
        -- destruct Hr as (pre & m & post & -> & Hcop & Hkept & Hwhy).
           exists (n :: pre), m, post.
           split; [reflexivity|]. rewrite Hfil.
           split; [|split; [constructor; assumption|exact Hwhy]].
           rewrite Hcop, Hcop1. unfold copies, copies_of. rewrite Hfil.
           cbn [map]. rewrite <- app_assoc. reflexivity.
    + (* the iteration for [n] raised *)
      injection Hrun as <- <-.
      apply body_raise in Hb as [-> Hwhy]; [|exact HF|exact Henv].
      split; [exact HF|]. split; [reflexivity|]. split; [reflexivity|].
      split; [exact Henv|].
      exists [], n, names.
      split; [reflexivity|].
      split; [unfold copies, copies_of; cbn; rewrite app_nil_r; reflexivity|].
      split; [constructor|exact Hwhy].
Qed.

End Loop.

(** ** Creating the missing directory *)

Lemma grows_refl (fs : gmap path node) : grows fs fs.
Proof.
  split; [tauto|]. intros q l H. exists []. rewrite app_nil_r. exact H.
Qed.

Lemma grows_trans (fs1 fs2 fs3 : gmap path node) :
  grows fs1 fs2 -> grows fs2 fs3 -> grows fs1 fs3.
Proof.
  intros [F1 D1] [F2 D2]. split.
  - intros q f. rewrite F1. apply F2.
  - intros q l H. destruct (D1 q l H) as [l1 H1].
    destruct (D2 q _ H1) as [l2 H2]. exists (l1 ++ l2).
    rewrite H2, app_assoc. reflexivity.
Qed.

Lemma grows_is_dir (fs fs' : gmap path node) (q : path) :
  grows fs fs' -> is_dir fs q = true -> is_dir fs' q = true.
Proof.
  intros [_ D] H. apply is_dir_true in H as [l Hl].
  destruct (D q l Hl) as [l' Hl']. exact (is_dir_NDir _ _ _ Hl').
Qed.

Lemma os_mkdir_spec (p : path) (w w' : world) (r : result unit) :
  os_mkdir p w = (r, w') ->
  grows (w_fs w) (w_fs w') /\ same_log w w' /\
  (r = Ok tt -> is_dir (w_fs w') p = true).
Proof.
  unfold os_mkdir, link. unfold_M. destruct w as [fs out ds cs]; simpl.
  intros H.
  destruct (fs !! p) as [nd|] eqn:Hp.
  { injection H as <- <-. split; [apply grows_refl|].
    split; [repeat split|discriminate]. }
  destruct p as [|a p'].
  { injection H as <- <-. split; [apply grows_refl|].
    split; [repeat split|discriminate]. }
  remember (a :: p') as p eqn:Ep. clear Ep a p'.
  destruct (fs !! os_path_dirname p) as [[g|names]|] eqn:Hpar; simpl in H;
    injection H as <- <-; simpl;
    try (split; [apply grows_refl|split; [repeat split|discriminate]]).
  assert (Hne : os_path_dirname p <> p).
  { intros E. rewrite E in Hpar. congruence. }
  split; [|split; [repeat split|]].
  - split.
    + intros q f. destruct (decide (q = p)) as [->|Hq].
      * rewrite lookup_insert_eq, Hp. split; discriminate.
      * rewrite lookup_insert_ne by congruence.
        destruct (decide (q = os_path_dirname p)) as [->|Hq'].
        -- rewrite lookup_insert_eq, Hpar. split; discriminate.
        -- rewrite lookup_insert_ne by congruence. tauto.
    + intros q l Hq. destruct (decide (q = p)) as [->|Hqp]; [congruence|].
      rewrite lookup_insert_ne by congruence.
      destruct (decide (q = os_path_dirname p)) as [->|Hq'].
      * rewrite lookup_insert_eq. rewrite Hpar in Hq. injection Hq as ->.
        eauto.
      * rewrite lookup_insert_ne by congruence. exists [].
        rewrite app_nil_r. exact Hq.
  - intros _. unfold is_dir. rewrite lookup_insert_eq. reflexivity.
Qed.

Lemma same_log_refl (w : world) : same_log w w.
Proof. repeat split. Qed.

Lemma same_log_trans (w1 w2 w3 : world) :
  same_log w1 w2 -> same_log w2 w3 -> same_log w1 w3.
Proof.
  unfold same_log. intros (?&?&?&?&?) (?&?&?&?&?).
  repeat split; congruence.
Qed.

Lemma makedirs_rev_spec (rname : list string) :
  forall (w w' : world) (r : result unit),
    makedirs_rev rname w = (r, w') ->
    grows (w_fs w) (w_fs w') /\ same_log w w' /\
    (r = Ok tt -> is_dir (w_fs w') (rev rname) = true).
Proof.
  induction rname as [|tail rhead IH]; intros w w' r H.
  - cbn [makedirs_rev] in H. unfold bind at 1, ret at 1 in H.
    unfold try_except in H.
    destruct (os_mkdir (rev []) w) as [[u|e] w1] eqn:Hmk.
    + injection H as <- <-. destruct u. exact (os_mkdir_spec _ _ _ _ Hmk).
    + apply os_mkdir_spec in Hmk as (Hg & Hl & _).
      unfold os_path_isdir in H. unfold_M.
      destruct (is_dir (w_fs w1) (rev [])) eqn:Hd; simpl in H;
        injection H as <- <-; (split; [exact Hg|split; [exact Hl|]]).
      * intros _. exact Hd.
      * discriminate.
  - cbn [makedirs_rev] in H. unfold bind at 1 in H.
    match type of H with
    | context [match ?m w with _ => _ end] =>
        destruct (m w) as [[u|e] w1] eqn:Hhead
    end.
    + (* the head is in place *)
      assert (Hh : grows (w_fs w) (w_fs w1) /\ same_log w w1).
      { revert Hhead. unfold os_path_exists, try_except. unfold_M.
        destruct (negb _).
        - destruct (makedirs_rev rhead w) as [[u'|e'] w2] eqn:Hrec.
          + intros E. inversion E; subst.
            apply IH in Hrec as (? & ? & _). auto.
          + apply IH in Hrec as (? & ? & _).
            destruct e'; intros E; inversion E; subst; auto.
        - intros E. inversion E; subst.
          split; [apply grows_refl|apply same_log_refl]. }
      destruct Hh as [Hg1 Hl1].
      unfold try_except in H.
      destruct (os_mkdir (rev (tail :: rhead)) w1) as [[u2|e2] w2] eqn:Hmk.
      * injection H as <- <-. destruct u2.
        apply os_mkdir_spec in Hmk as (Hg & Hl & Hd).
        split; [eapply grows_trans; eassumption|].
        split; [eapply same_log_trans; eassumption|exact Hd].
      * apply os_mkdir_spec in Hmk as (Hg & Hl & _).
        unfold os_path_isdir in H. unfold_M.
        destruct (is_dir (w_fs w2) (rev (tail :: rhead))) eqn:Hd;
          simpl in H; injection H as <- <-;
          (split; [eapply grows_trans; eassumption|];
           split; [eapply same_log_trans; eassumption|]).
        -- intros _. exact Hd.
        -- discriminate.
    + (* creating the head raised *)
      injection H as <- <-.
      revert Hhead. unfold os_path_exists, try_except. unfold_M.
      destruct (negb _).
      * destruct (makedirs_rev rhead w) as [[u'|e'] w2] eqn:Hrec.
        -- discriminate.
        -- apply IH in Hrec as (? & ? & _).
           destruct e'; intros E; inversion E; subst;
             (split; [assumption|split; [assumption|discriminate]]).
      * discriminate.
Qed.

Lemma ensure_missing_dir_spec (missing : path) (w w' : world)
    (r : result unit) :
  ensure_missing_dir missing w = (r, w') ->
  grows (w_fs w) (w_fs w') /\ same_log w w' /\
  (r = Ok tt -> is_Some (w_fs w' !! missing)) /\
  (is_Some (w_fs w !! missing) -> r = Ok tt /\ w' = w).
Proof.
  unfold ensure_missing_dir, os_path_exists, os_makedirs.
  unfold bind at 1. unfold get_fs at 1. unfold bind at 1. unfold ret at 1.
  destruct (bool_decide (is_Some (w_fs w !! missing))) eqn:Hex; simpl.
  - apply bool_decide_eq_true in Hex. unfold ret. intros E.
    injection E as <- <-.
    split; [apply grows_refl|]. split; [apply same_log_refl|]. auto.
  - apply bool_decide_eq_false in Hex. intros H.
    apply makedirs_rev_spec in H as (Hg & Hl & Hd).
    rewrite rev_involutive in Hd.
    split; [exact Hg|]. split; [exact Hl|]. split; [|tauto].
    intros E. apply Hd, is_dir_true in E as [l ->]. eauto.
Qed.

(** ** A run of the resolver, step by step *)

(** What [os.listdir] reports is what the directory holds. *)
Lemma insert_by_perm (rank : string -> Z) (x : string) (l : list string) :
  insert_by rank x l ≡ₚ x :: l.
Proof.
  induction l as [|y l IH]; [reflexivity|].
  cbn [insert_by]. destruct (rank x <=? rank y); [reflexivity|].
  rewrite IH. apply perm_swap.
Qed.

Lemma order_by_perm (rank : string -> Z) (l : list string) :
  order_by rank l ≡ₚ l.
Proof.
  induction l as [|x l IH]; [reflexivity|].
  unfold order_by. cbn [fold_right]. fold (order_by rank l).
  rewrite insert_by_perm, IH. reflexivity.
Qed.

Lemma listing_perm (w : world) (p : path) (names : list string) :
  w_fs w !! p = Some (NDir names) -> listing w p ≡ₚ names.
Proof. intros H. unfold listing. rewrite H. apply order_by_perm. Qed.

Lemma elem_of_listing (w : world) (p : path) (names : list string)
    (n : string) :
  w_fs w !! p = Some (NDir names) -> n ∈ listing w p <-> n ∈ names.
Proof. intros H. rewrite (listing_perm w p names H). reflexivity. Qed.

Lemma snapshot_listing (w : world) (p : path) (ups : list string) :
  w_fs w !! p = Some (NDir ups) -> snapshot (listing w p) = snapshot ups.
Proof.
  intros H. unfold snapshot. apply list_to_set_perm_L.
  apply fmap_Permutation. exact (listing_perm w p ups H).
Qed.

Lemma os_listdir_eq (p : path) (w : world) (names : list string) :
  w_fs w !! p = Some (NDir names) ->
  os_listdir p w = (Ok (listing w p), listed w [p]).
Proof.
  intros H. unfold os_listdir, listing, listed. rewrite H. reflexivity.
Qed.

Lemma listed_listed (w : world) (ps qs : list path) :
  listed (listed w ps) qs = listed w (ps ++ qs).
Proof. unfold listed. cbn. rewrite <- app_assoc. reflexivity. Qed.

Lemma run_invalid_eq (gui : inputs) (w : world) :
  is_dir (w_fs w) (source_dir_entry gui) = false \/
  is_dir (w_fs w) (upscaled_dir_entry gui) = false ->
  find_and_copy_missing_images gui w = (Ok tt, add_dialog w ErrInvalidDirectory).
Proof.
  intros H. unfold find_and_copy_missing_images, os_path_isdir. unfold_M.
  destruct H as [-> | ->]; [reflexivity|].
  rewrite orb_true_r. reflexivity.
Qed.

Lemma run_valid_eq (gui : inputs) (w : world) :
  is_dir (w_fs w) (source_dir_entry gui) = true ->
  is_dir (w_fs w) (upscaled_dir_entry gui) = true ->
  find_and_copy_missing_images gui w =
    match ensure_missing_dir (missing_dir_entry gui) w with
    | (Raise e, w1) => (Raise e, w1)
    | (Ok _, w1) =>
        match parse_color (color_entry gui) with
        | Raise e => (Raise e, w1)
        | Ok t =>
            match w_fs w1 !! upscaled_dir_entry gui,
                  w_fs w1 !! source_dir_entry gui with
            | Some (NDir _), Some (NDir _) =>
                match for_each
                        (loop_body (source_dir_entry gui)
                           (missing_dir_entry gui) (check_var gui) t
                           (snapshot (listing w1 (upscaled_dir_entry gui))))
                        (listing w1 (source_dir_entry gui)) 0
                        (listed w1 [upscaled_dir_entry gui;
                                    source_dir_entry gui]) with
                | (Ok c, w2) => (Ok tt, add_dialog w2 (summary c))
                | (Raise e, w2) => (Raise e, w2)
                end
            | Some (NDir _), Some (NFile _) =>
                (Raise NotADirectoryError, listed w1 [upscaled_dir_entry gui])
            | Some (NDir _), None =>
                (Raise FileNotFoundError, listed w1 [upscaled_dir_entry gui])
            | Some (NFile _), _ => (Raise NotADirectoryError, w1)
            | None, _ => (Raise FileNotFoundError, w1)
            end
        end
    end.
Proof.
  intros Hs Hu. unfold find_and_copy_missing_images, os_path_isdir.
  unfold bind at 1. unfold get_fs at 1. unfold bind at 1. unfold ret at 1.
  unfold bind at 1. unfold get_fs at 1. unfold bind at 1. unfold ret at 1.
  rewrite Hs, Hu. cbn [negb orb].
  unfold bind at 1.
  destruct (ensure_missing_dir (missing_dir_entry gui) w) as [[u|e] w1];
    [|reflexivity].
  unfold bind at 1, lift at 1.
  destruct (parse_color (color_entry gui)) as [t|e]; [|reflexivity].
  unfold bind at 1.
  destruct (w_fs w1 !! upscaled_dir_entry gui) as [[f|ups]|] eqn:Hups;
    [unfold os_listdir; rewrite Hups; reflexivity|
    |unfold os_listdir; rewrite Hups; reflexivity].
  rewrite (os_listdir_eq _ w1 ups Hups).
  unfold bind at 1.
  destruct (w_fs w1 !! source_dir_entry gui) as [[f|names]|] eqn:Hnames;
    [unfold os_listdir; cbn [listed w_fs]; rewrite Hnames; reflexivity|
    |unfold os_listdir; cbn [listed w_fs]; rewrite Hnames; reflexivity].
  rewrite (os_listdir_eq _ (listed w1 [upscaled_dir_entry gui]) names)
    by exact Hnames.
  rewrite listed_listed. cbn [app].
  change (listing (listed w1 [upscaled_dir_entry gui]) (source_dir_entry gui))
    with (listing w1 (source_dir_entry gui)).
  unfold snapshot at 1. fold (snapshot (listing w1 (upscaled_dir_entry gui))).
  unfold bind at 1.
  destruct (for_each _ _ _ _) as [[c|e] w2]; [|reflexivity].
  unfold summary, add_dialog. destruct (c =? 0); reflexivity.
Qed.

Lemma elem_of_copies_of (src missing : path) (check : bool) (t : rgb)
    (snap : gset string) (fs : gmap path node) (names : list string)
    (s d : path) :
  (s, d) ∈ copies_of src missing check t snap fs names <->
  exists n, n ∈ names /\ selected src check t snap fs n = true /\
            s = src ++ [n] /\ d = dst_of missing fs n.
Proof.
  unfold copies_of. rewrite list_elem_of_fmap. split.
  - intros (n & E & Hn). apply list_elem_of_filter in Hn as [Hsel Hn].
    injection E as -> ->. eauto.
  - intros (n & Hn & Hsel & -> & ->). exists n. split; [reflexivity|].
    apply list_elem_of_filter. auto.
Qed.

Lemma length_copies_of (src missing : path) (check : bool) (t : rgb)
    (snap : gset string) (fs : gmap path node) (names : list string) :
  length (copies_of src missing check t snap fs names) =
  length (filter (fun n => selected src check t snap fs n = true) names).
Proof. unfold copies_of. apply length_fmap. Qed.

Lemma run_outcome (gui : inputs) (w w' : world) (r : result unit) :
  find_and_copy_missing_images gui w = (r, w') -> outcome gui w r w'.
Proof.
  intros H.
  destruct (is_dir (w_fs w) (source_dir_entry gui)) eqn:Hs;
    [|rewrite run_invalid_eq in H by auto; injection H as <- <-;
      apply out_invalid; auto].
  destruct (is_dir (w_fs w) (upscaled_dir_entry gui)) eqn:Hu;
    [|rewrite run_invalid_eq in H by auto; injection H as <- <-;
      apply out_invalid; auto].
  rewrite (run_valid_eq gui w Hs Hu) in H.
  destruct (ensure_missing_dir _ w) as [[[]|e] w1] eqn:He;
    [|injection H as <- <-; eapply out_no_missing_dir; eassumption].
  pose proof (ensure_missing_dir_spec _ _ _ _ He)
    as (Hg & (_ & Hdl & Hcp & _ & Henv) & _).
  destruct (parse_color _) as [t|e] eqn:Hp;
    [|injection H as <- <-; eapply out_bad_color; eassumption].
  pose proof (grows_is_dir _ _ _ Hg Hs) as Hs1.
  pose proof (grows_is_dir _ _ _ Hg Hu) as Hu1.
  apply is_dir_true in Hs1 as [names Hnames].
  apply is_dir_true in Hu1 as [ups Hups].
  rewrite Hups, Hnames in H.
  destruct (for_each _ _ _ _) as [rl w2] eqn:Hloop.
  pose proof (for_each_spec (source_dir_entry gui) (missing_dir_entry gui)
                (check_var gui) t
                (snapshot (listing w1 (upscaled_dir_entry gui))) (w_fs w1)
                (w_env w) (listing w1 (source_dir_entry gui)) 0
                (listed w1 [upscaled_dir_entry gui; source_dir_entry gui])
                rl w2 (frame_refl _ _) Henv Hloop)
    as (HF & Hdlg & _ & _ & Hr).
  cbn [listed w_dialogs w_copied] in Hdlg, Hr.
  destruct rl as [c|e].
  - destruct Hr as (Hc & Hcop & _). injection H as <- <-.
    rewrite Z.add_0_l,
      <- (length_copies_of (source_dir_entry gui) (missing_dir_entry gui))
      in Hc. subst c.
    eapply out_done; try eassumption; congruence.
  - destruct Hr as (pre & n & post & Hsplit & Hcop & _ & [[Hsel Hcp']|Hpr]).
    + injection H as <- <-.
      eapply out_copy_failed; try eassumption; congruence.
    + injection H as <- <-.
      eapply out_print_failed; try eassumption; congruence.
Qed.

(** Whatever the outcome, a run only copies selected names of the source
    listing, and shows no message unless it returns. *)
Lemma run_copies_selected (gui : inputs) (w w' : world) (r : result unit) :
  find_and_copy_missing_images gui w = (r, w') ->
  exists cs, w_copied w' = w_copied w ++ cs /\
    forall s d, (s, d) ∈ cs ->
      exists w1 t ups names n,
        ensure_missing_dir (missing_dir_entry gui) w = (Ok tt, w1) /\
        parse_color (color_entry gui) = Ok t /\
        w_fs w1 !! upscaled_dir_entry gui = Some (NDir ups) /\
        w_fs w1 !! source_dir_entry gui = Some (NDir names) /\
        n ∈ names /\ s = source_dir_entry gui ++ [n] /\
        selected (source_dir_entry gui) (check_var gui) t (snapshot ups)
                 (w_fs w1) n = true.
Proof.
  intros H.
  assert (Hnone : w_copied w' = w_copied w ->
            exists cs, w_copied w' = w_copied w ++ cs /\
              forall s d, (s, d) ∈ cs ->
                exists w1 t ups names n,
                  ensure_missing_dir (missing_dir_entry gui) w = (Ok tt, w1) /\
                  parse_color (color_entry gui) = Ok t /\
                  w_fs w1 !! upscaled_dir_entry gui = Some (NDir ups) /\
                  w_fs w1 !! source_dir_entry gui = Some (NDir names) /\
                  n ∈ names /\ s = source_dir_entry gui ++ [n] /\
                  selected (source_dir_entry gui) (check_var gui) t
                           (snapshot ups) (w_fs w1) n = true).
  { intros E. exists []. split; [rewrite app_nil_r; exact E|].
    intros s d Hin. inversion Hin. }
  destruct (is_dir (w_fs w) (source_dir_entry gui)) eqn:Hs;
    [|rewrite run_invalid_eq in H by auto; injection H as <- <-;
      apply Hnone; reflexivity].
  destruct (is_dir (w_fs w) (upscaled_dir_entry gui)) eqn:Hu;
    [|rewrite run_invalid_eq in H by auto; injection H as <- <-;
      apply Hnone; reflexivity].
  assert (Hall : forall w1 t l,
            ensure_missing_dir (missing_dir_entry gui) w = (Ok tt, w1) ->
            parse_color (color_entry gui) = Ok t ->
            (forall n, n ∈ l -> n ∈ listing w1 (source_dir_entry gui)) ->
            w_copied w' = w_copied w ++
              copies_of (source_dir_entry gui) (missing_dir_entry gui)
                (check_var gui) t
                (snapshot (listing w1 (upscaled_dir_entry gui))) (w_fs w1) l ->
            exists cs, w_copied w' = w_copied w ++ cs /\
              forall s d, (s, d) ∈ cs ->
                exists w1 t ups names n,
                  ensure_missing_dir (missing_dir_entry gui) w = (Ok tt, w1) /\
                  parse_color (color_entry gui) = Ok t /\
                  w_fs w1 !! upscaled_dir_entry gui = Some (NDir ups) /\
                  w_fs w1 !! source_dir_entry gui = Some (NDir names) /\
                  n ∈ names /\ s = source_dir_entry gui ++ [n] /\
                  selected (source_dir_entry gui) (check_var gui) t
                           (snapshot ups) (w_fs w1) n = true).
  { intros w1 t l He Hp Hl Hc.
    pose proof (ensure_missing_dir_spec _ _ _ _ He) as (Hg & _).
    pose proof (grows_is_dir _ _ _ Hg Hs) as Hs1.
    pose proof (grows_is_dir _ _ _ Hg Hu) as Hu1.
    apply is_dir_true in Hs1 as [names Hnames].
    apply is_dir_true in Hu1 as [ups Hups].
    eexists. split; [exact Hc|].
    intros s d Hin. apply elem_of_copies_of in Hin
      as (m & Hm & Hselm & -> & ->).
    exists w1, t, ups, names, m.
    rewrite (snapshot_listing w1 _ ups Hups) in Hselm.
    repeat split; try assumption.
    apply (elem_of_listing w1 _ names m Hnames). apply Hl. exact Hm. }
  apply run_outcome in H.
  destruct H as [Hinv|e w1 He|e w1 He Hp
                 |e w1 w2 t pre post n He Hp Hsplit Hsel Hcp HF Hd Hc
                 |e w1 w2 t pre post n He Hp Hsplit Hpr HF Hd Hc
                 |w1 w2 t He Hp Hloop HF Hd Hc].
  - apply Hnone. reflexivity.
  - apply ensure_missing_dir_spec in He as (_ & (_ & _ & Hc & _) & _).
    apply Hnone. exact Hc.
  - apply ensure_missing_dir_spec in He as (_ & (_ & _ & Hc & _) & _).
    apply Hnone. exact Hc.
  - apply (Hall w1 t pre He Hp); [|exact Hc].
    intros m Hm. rewrite Hsplit. apply elem_of_app. left. exact Hm.
  - apply (Hall w1 t pre He Hp); [|exact Hc].
    intros m Hm. rewrite Hsplit. apply elem_of_app. left. exact Hm.
  - apply (Hall w1 t (listing w1 (source_dir_entry gui)) He Hp);
      [auto|exact Hc].
Qed.

Lemma in_snapshot (ups : list string) (u n : string) :
  u ∈ ups -> base_name_lower n = base_name_lower u ->
  base_name_lower n ∈ snapshot ups.
Proof.
  intros Hu E. unfold snapshot. apply elem_of_list_to_set.
  apply list_elem_of_fmap. eauto.
Qed.

Lemma selected_true (src : path) (check : bool) (t : rgb)
    (snap : gset string) (fs : gmap path node) (n : string) :
  selected src check t snap fs n = true <->
  (base_name_lower n ∉ snap) /\
  (check = false \/ corner_ok fs (src ++ [n]) t 10 = true).
Proof.
  unfold selected. rewrite andb_true_iff, negb_true_iff, orb_true_iff,
    negb_true_iff, bool_decide_eq_false. tauto.
Qed.

(** * The claims *)

(** ** C2: what the corner matcher answers *)

Lemma f_image_Some (f : file) (img : image) :
  f_image f = Some img -> readable f = true /\ f_pixels f = Some img.
Proof. unfold f_image. destruct (readable f); [auto|discriminate]. Qed.

Lemma corner_result_image (fs : gmap path node) (p : path) (f : file)
    (img : image) (t : rgb) (thr : Z) :
  fs !! p = Some (NFile f) -> f_image f = Some img ->
  corner_result fs p t thr = corners_match img t thr.
Proof.
  intros Hp Hi. apply f_image_Some in Hi as [Hr Hpx].
  unfold corner_result. rewrite Hp, Hr, Hpx. reflexivity.
Qed.

(** C2.  For a file that decodes to an image whose four corner pixels are
    [c1] to [c4]: if every corner is within the threshold of the target
    colour on each of its first three bands, [check_corners_color] returns
    true and prints nothing; if some corner is beyond the threshold on one
    of them, it returns false, the corners having three bands or more (or
    the line of the handler being printable, for corners that have
    fewer).  The pixel may have any number of further bands. *)
Theorem corner_matcher_decides (w : world) (p : path) (f : file)
    (img : image) (t : rgb) (thr : Z) (c1 c2 c3 c4 : pixel) :
  w_fs w !! p = Some (NFile f) ->
  f_image f = Some img ->
  pixel_access img 0 0 = Ok c1 ->
  pixel_access img 0 (snd (img_size img) - 1) = Ok c2 ->
  pixel_access img (fst (img_size img) - 1) 0 = Ok c3 ->
  pixel_access img (fst (img_size img) - 1) (snd (img_size img) - 1) = Ok c4 ->
  (Forall (within t thr) [c1; c2; c3; c4] ->
     check_corners_color p t thr w = (Ok true, w)) /\
  (Exists (exceeds t thr) [c1; c2; c3; c4] ->
     Forall three_bands [c1; c2; c3; c4] \/ print_fails (w_env w) p = None ->
     fst (check_corners_color p t thr w) = Ok false).
Proof.
  intros Hp Himg H1 H2 H3 H4.
  pose proof (corner_result_image (w_fs w) p f img t thr Hp Himg) as Hres.
  split.
  - intros HF. apply check_corners_color_passes.
    rewrite corner_ok_result, Hres.
    rewrite (corners_match_within img t thr c1 c2 c3 c4 H1 H2 H3 H4 HF).
    reflexivity.
  - intros HE Hwhy. rewrite check_corners_color_eq, Hres.
    pose proof (corners_match_exceeds img t thr c1 c2 c3 c4 H1 H2 H3 H4 HE)
      as Hno.
    destruct Hwhy as [H3b|Hpr].
    + destruct (corners_match_three_bands img t thr c1 c2 c3 c4 H1 H2 H3 H4 H3b)
        as [b Hb].
      rewrite Hb in Hno |- *. destruct b; [congruence|reflexivity].
    + rewrite Hpr.
      destruct (corners_match img t thr) as [[|]|e]; [congruence|reflexivity..].
Qed.

(** ** C3: the corner matcher and its handler *)

(** C3, as amended.  [check_corners_color] returns a boolean whenever the
    line of its handler can be printed, and the only exception that
    leaves it is the one [print] raises.  On a path that is no file, a
    file that cannot be read or decoded, or an image without corners, it
    prints one line and returns false when the line can be printed, and
    raises what [print] raises when it cannot; with the corner check on,
    no run copies such a file. *)
Theorem corner_matcher_never_raises (w : world) (p : path) (t : rgb)
    (thr : Z) :
  (print_fails (w_env w) p = None ->
     exists b w', check_corners_color p t thr w = (Ok b, w')) /\
  (forall e w', check_corners_color p t thr w = (Raise e, w') ->
     print_fails (w_env w) p = Some e /\ w' = w) /\
  (cannot_decode (w_fs w) p ->
     match print_fails (w_env w) p with
     | None =>
         exists caught,
           check_corners_color p t thr w = (Ok false, printed w [(p, caught)])
     | Some e => check_corners_color p t thr w = (Raise e, w)
     end) /\
  (forall (gui : inputs) (n : string) (r : result unit) (w' : world),
     check_var gui = true ->
     cannot_decode (w_fs w) (source_dir_entry gui ++ [n]) ->
     find_and_copy_missing_images gui w = (r, w') ->
     exists cs, w_copied w' = w_copied w ++ cs /\
                forall d, (source_dir_entry gui ++ [n], d) ∉ cs).
Proof.
  rewrite check_corners_color_eq.
  split; [|split; [|split]].
  - intros Hpr. rewrite Hpr.
    destruct (corner_result _ _ _ _) as [b|caught]; eauto.
  - intros e w'.
    destruct (corner_result _ _ _ _) as [b|caught]; [discriminate|].
    destruct (print_fails _ _) as [e'|]; [|discriminate].
    intros E. injection E as <- <-. auto.
  - intros Hcd.
    destruct (corner_result_cannot_decode _ _ t thr Hcd) as [caught ->].
    destruct (print_fails _ _); eauto.
  - intros gui n r w' Hchk' Hcd Hrun.
    destruct (run_copies_selected gui w w' r Hrun) as (cs & Hcs & Hsel).
    exists cs. split; [exact Hcs|].
    intros d Hin.
    destruct (Hsel _ _ Hin)
      as (w1 & t' & ups & names & m & He & _ & _ & _ & _ & Em & Hm).
    apply app_inj_tail in Em as [_ <-].
    apply selected_true in Hm as [_ [Hc|Hc]]; [congruence|].
    apply ensure_missing_dir_spec in He as ([Hfiles _] & _).
    rewrite corner_ok_cannot_decode in Hc; [discriminate|].
    intros f img Hf. apply Hcd. apply Hfiles. exact Hf.
Qed.

(** ** C4: the directories are validated first *)

(** C4.  When [source_dir] or [upscaled_dir] is not a directory, the run
    shows the error message and returns: the file system is as it was, in
    particular [missing_dir] is not created, no directory is listed and
    nothing is copied. *)
Theorem invalid_directory_aborts (gui : inputs) (w : world) :
  is_dir (w_fs w) (source_dir_entry gui) = false \/
  is_dir (w_fs w) (upscaled_dir_entry gui) = false ->
  find_and_copy_missing_images gui w =
    (Ok tt,
     World (w_fs w) (w_stdout w) (w_dialogs w ++ [ErrInvalidDirectory])
           (w_copied w) (w_listed w) (w_env w)).
Proof. intros H. rewrite run_invalid_eq by exact H. reflexivity. Qed.

(** ** C5 and C10: what counts as present in the upscaled directory *)

Lemma listing_after_ensure (missing q : path) (w w1 : world)
    (l ups : list string) (u : string) :
  ensure_missing_dir missing w = (Ok tt, w1) ->
  w_fs w !! q = Some (NDir l) -> w_fs w1 !! q = Some (NDir ups) ->
  u ∈ l -> u ∈ ups.
Proof.
  intros He Hl Hups Hu.
  apply ensure_missing_dir_spec in He as ([_ Hdirs] & _).
  destruct (Hdirs q l Hl) as [l' Hl']. rewrite Hl' in Hups.
  injection Hups as <-. apply elem_of_app. auto.
Qed.

(** An entry of [upscaled_dir] with the stem of [n] keeps every run from
    copying [n]. *)
Lemma same_stem_never_copied (gui : inputs) (w w' : world) (r : result unit)
    (ups : list string) (u n : string) :
  w_fs w !! upscaled_dir_entry gui = Some (NDir ups) ->
  u ∈ ups ->
  base_name_lower n = base_name_lower u ->
  find_and_copy_missing_images gui w = (r, w') ->
  exists cs, w_copied w' = w_copied w ++ cs /\
             forall d, (source_dir_entry gui ++ [n], d) ∉ cs.
Proof.
  intros Hups Hu Hstem Hrun.
  destruct (run_copies_selected gui w w' r Hrun) as (cs & Hcs & Hsel).
  exists cs. split; [exact Hcs|].
  intros d Hin.
  destruct (Hsel _ _ Hin)
    as (w1 & t' & ups1 & names & m & He & _ & Hups1 & _ & _ & Em & Hm).
  apply app_inj_tail in Em as [_ <-].
  apply selected_true in Hm as [Hm _]. apply Hm.
  apply (in_snapshot ups1 u n); [|exact Hstem].
  eapply listing_after_ensure; eassumption.
Qed.

(** C5.  A source file whose case-folded stem is that of an entry of
    [upscaled_dir] is never copied, whatever the two extensions. *)
Theorem same_stem_other_extension_is_present (gui : inputs) (w w' : world)
    (r : result unit) (ups : list string) (u n : string) :
  w_fs w !! upscaled_dir_entry gui = Some (NDir ups) ->
  u ∈ ups ->
  Str.lower (fst (splitext n)) = Str.lower (fst (splitext u)) ->
  snd (splitext n) <> snd (splitext u) ->
  find_and_copy_missing_images gui w = (r, w') ->
  exists cs, w_copied w' = w_copied w ++ cs /\
             forall d, (source_dir_entry gui ++ [n], d) ∉ cs.
Proof.
  intros Hups Hu Hstem _ Hrun.
  exact (same_stem_never_copied gui w w' r ups u n Hups Hu Hstem Hrun).
Qed.

Lemma rfind_from_absent (s : string) (c : ascii) :
  forall i last,
    (forall a, a ∈ Str.chars s -> a <> c) ->
    Str.rfind_from i s c last = last.
Proof.
  induction s as [|a s IH]; intros i last H; [reflexivity|].
  cbn [Str.rfind_from].
  assert (Ha : Ascii.eqb a c = false).
  { apply Ascii.eqb_neq. apply H. unfold Str.chars. simpl. left. }
  rewrite Ha. apply IH. intros b Hb. apply H. unfold Str.chars in *. simpl.
  right. exact Hb.
Qed.

Lemma rfind_from_ge (s : string) (c : ascii) :
  forall i last, last <= i -> last <= Str.rfind_from i s c last.
Proof.
  induction s as [|a s IH]; intros i last H; [simpl; lia|].
  cbn [Str.rfind_from]. destruct (Ascii.eqb a c).
  - etransitivity; [exact H|]. apply IH. lia.
  - apply IH. lia.
Qed.

(** A name without a dot is its own stem. *)
Lemma splitext_no_dot (s : string) :
  (forall a, a ∈ Str.chars s -> a <> "."%char) ->
  splitext s = (s, EmptyString).
Proof.
  intros H. unfold splitext, Str.rfind.
  rewrite (rfind_from_absent s "."%char 0 (-1) H).
  pose proof (rfind_from_ge s "/"%char 0 (-1) ltac:(lia)) as Hge.
  replace (_ <? -1) with false by (symmetry; apply Z.ltb_ge; exact Hge).
  reflexivity.
Qed.

(** C10, as amended.  A subdirectory of [upscaled_dir] keeps every run
    from copying a source file when the two have the same case-folded
    stem, the stem of the subdirectory being taken as for a file; for a
    subdirectory without a dot in its name, that is its lowercased
    name. *)
Theorem subdirectory_stem_suppresses (gui : inputs) (w w' : world)
    (r : result unit) (ups : list string) (sub n : string) :
  w_fs w !! upscaled_dir_entry gui = Some (NDir ups) ->
  sub ∈ ups ->
  is_dir (w_fs w) (upscaled_dir_entry gui ++ [sub]) = true ->
  base_name_lower n = base_name_lower sub \/
  ((forall a, a ∈ Str.chars sub -> a <> "."%char) /\
   base_name_lower n = Str.lower sub) ->
  find_and_copy_missing_images gui w = (r, w') ->
  exists cs, w_copied w' = w_copied w ++ cs /\
             forall d, (source_dir_entry gui ++ [n], d) ∉ cs.
Proof.
  intros Hups Hu _ Hstem Hrun.
  apply (same_stem_never_copied gui w w' r ups sub n Hups Hu); [|exact Hrun].
  destruct Hstem as [E|[Hdot E]]; [exact E|].
  rewrite E. unfold base_name_lower. rewrite (splitext_no_dot sub Hdot).
  reflexivity.
Qed.

(** ** C9: the colour is parsed before anything is listed *)

Lemma int16_raises (s : string) (e : exn) :
  Int16.int16 s = Raise e -> e = ValueError.
Proof.
  unfold Int16.int16. destruct (Int16.parse_chars _); [discriminate|].
  intros E. injection E as <-. reflexivity.
Qed.

Lemma parse_color_raises (s : string) (e : exn) :
  parse_color s = Raise e -> e = ValueError.
Proof.
  unfold parse_color.
  destruct (Int16.int16 (Str.slice 0 2 _)) as [r|e1] eqn:E1;
    [|intros E; injection E as <-; exact (int16_raises _ _ E1)].
  destruct (Int16.int16 (Str.slice 2 2 _)) as [g|e2] eqn:E2;
    [|intros E; injection E as <-; exact (int16_raises _ _ E2)].
  destruct (Int16.int16 (Str.slice 4 2 _)) as [b|e3] eqn:E3;
    [discriminate|intros E; injection E as <-; exact (int16_raises _ _ E3)].
Qed.

(** Fewer than five characters after the leading [#]s leave the third
    slice empty. *)
Lemma parse_color_too_short (s : string) :
  (String.length (Str.lstrip "#"%char s) < 5)%nat ->
  parse_color s = Raise ValueError.
Proof.
  intros H.
  destruct (parse_color s) as [c|e] eqn:E;
    [|f_equal; exact (parse_color_raises s e E)].
  exfalso. revert E. unfold parse_color.
  destruct (Str.lstrip "#"%char s) as [|a [|b [|c0 [|d [|x s']]]]];
    [..|simpl in H; lia]; clear H;
    repeat (match goal with
            | |- context [Int16.int16 ?x] =>
                destruct (Int16.int16 x) eqn:?; cbn [rbind]
            end);
    try discriminate;
    match goal with
    | H : Int16.int16 (Str.slice 4 2 _) = Ok _ |- _ =>
        cbn in H; discriminate
    end.
Qed.

(** C9, as amended.  Once both directories are validated and the missing
    directory is in place, a colour string that the parse rejects, as it
    does every string with fewer than five characters after the leading
    [#]s, makes the run raise [ValueError], with the corner check on or
    off: no directory has been listed, no file copied, nothing printed
    and no message shown, and the missing directory, created or not, is
    there. *)
Theorem bad_color_aborts_before_copying (gui : inputs) (w w1 : world) :
  is_dir (w_fs w) (source_dir_entry gui) = true ->
  is_dir (w_fs w) (upscaled_dir_entry gui) = true ->
  ensure_missing_dir (missing_dir_entry gui) w = (Ok tt, w1) ->
  (exists e, parse_color (color_entry gui) = Raise e) \/
  (String.length (Str.lstrip "#"%char (color_entry gui)) < 5)%nat ->
  find_and_copy_missing_images gui w = (Raise ValueError, w1) /\
  w_listed w1 = w_listed w /\
  w_copied w1 = w_copied w /\
  w_dialogs w1 = w_dialogs w /\
  w_stdout w1 = w_stdout w /\
  is_Some (w_fs w1 !! missing_dir_entry gui) /\
  grows (w_fs w) (w_fs w1).
Proof.
  intros Hs Hu He Hbad.
  assert (Hp : parse_color (color_entry gui) = Raise ValueError).
  { destruct Hbad as [[e Hp]|Hlen].
    - rewrite Hp. f_equal. exact (parse_color_raises _ _ Hp).
    - exact (parse_color_too_short _ Hlen). }
  rewrite (run_valid_eq gui w Hs Hu), He, Hp.
  apply ensure_missing_dir_spec in He
    as (Hg & (Ho & Hd & Hc & Hl & _) & Hex & _).
  split; [reflexivity|]. split; [exact Hl|]. split; [exact Hc|].
  split; [exact Hd|]. split; [exact Ho|].
  split; [exact (Hex eq_refl)|exact Hg].
Qed.

(** ** C1: which files a completed run copies *)

Lemma dst_of_cases (missing : path) (fs : gmap path node) (n : string) :
  dst_of missing fs n = missing ++ [n] \/
  dst_of missing fs n = missing ++ [n; n].
Proof.
  unfold dst_of. destruct (is_dir _ _); [right|left; reflexivity].
  rewrite <- app_assoc. reflexivity.
Qed.

(** The copies of a loop that went through the names [l] are in place:
    each destination holds what its source held when the run began. *)
Lemma copies_in_place (gui : inputs) (w w1 w2 : world) (t : rgb)
    (snap : gset string) (l : list string) :
  grows (w_fs w) (w_fs w1) ->
  Forall (in_place (source_dir_entry gui) (missing_dir_entry gui) (w_fs w1)
                   (w_fs w2))
         (filter (fun n => selected (source_dir_entry gui) (check_var gui) t
                             snap (w_fs w1) n = true) l) ->
  forall s d,
    (s, d) ∈ copies_of (source_dir_entry gui) (missing_dir_entry gui)
               (check_var gui) t snap (w_fs w1) l ->
    exists n f,
      n ∈ l /\
      s = source_dir_entry gui ++ [n] /\
      (d = missing_dir_entry gui ++ [n] \/
       d = missing_dir_entry gui ++ [n; n]) /\
      s <> d /\
      w_fs w !! s = Some (NFile f) /\
      w_fs w2 !! d = Some (NFile f).
Proof.
  intros [Hfile _] Hkept s d Hin.
  apply elem_of_copies_of in Hin as (n & Hn & Hsel & -> & ->).
  rewrite Forall_forall in Hkept.
  destruct (Hkept n) as (f & H1 & H2 & H3 & _).
  { apply list_elem_of_filter. auto. }
  exists n, f. split; [exact Hn|]. split; [reflexivity|].
  split; [apply dst_of_cases|]. split; [exact H3|].
  split; [apply Hfile; exact H1|exact H2].
Qed.

(** The outcome of a run that passes validation and returns. *)
Lemma run_done (gui : inputs) (w w2 : world) :
  is_dir (w_fs w) (source_dir_entry gui) = true ->
  is_dir (w_fs w) (upscaled_dir_entry gui) = true ->
  find_and_copy_missing_images gui w = (Ok tt, w2) ->
  exists w1 t ups names,
    ensure_missing_dir (missing_dir_entry gui) w = (Ok tt, w1) /\
    parse_color (color_entry gui) = Ok t /\
    w_fs w1 !! upscaled_dir_entry gui = Some (NDir ups) /\
    w_fs w1 !! source_dir_entry gui = Some (NDir names) /\
    let snap := snapshot ups in
    let l := listing w1 (source_dir_entry gui) in
    let cs := copies_of (source_dir_entry gui) (missing_dir_entry gui)
                (check_var gui) t snap (w_fs w1) l in
    w_copied w2 = w_copied w ++ cs /\
    w_dialogs w2 = w_dialogs w ++ [summary (Z.of_nat (length cs))] /\
    w_listed w2 = w_listed w ++ [upscaled_dir_entry gui; source_dir_entry gui] /\
    w_env w2 = w_env w /\
    frame (source_dir_entry gui) (w_fs w1) (w_fs w2) /\
    Forall (in_place (source_dir_entry gui) (missing_dir_entry gui) (w_fs w1)
                     (w_fs w2))
           (filter (fun n => selected (source_dir_entry gui) (check_var gui) t
                               snap (w_fs w1) n = true) l) /\
    Forall (fun n => forall e,
              verdict_of (source_dir_entry gui) (check_var gui) t snap
                         (w_fs w1) (w_env w) n <> PrintRaises e) l.
Proof.
  intros Hs Hu Hrun. rewrite (run_valid_eq gui w Hs Hu) in Hrun.
  destruct (ensure_missing_dir _ w) as [[[]|e] w1] eqn:He; [|discriminate].
  pose proof (ensure_missing_dir_spec _ _ _ _ He)
    as (Hg & (_ & Hdl & Hcp & Hls & Henv) & _).
  destruct (parse_color _) as [t|e] eqn:Hp; [|discriminate].
  pose proof (grows_is_dir _ _ _ Hg Hs) as Hs1.
  pose proof (grows_is_dir _ _ _ Hg Hu) as Hu1.
  apply is_dir_true in Hs1 as [names Hnames].
  apply is_dir_true in Hu1 as [ups Hups].
  rewrite Hups, Hnames in Hrun.
  rewrite (snapshot_listing w1 _ ups Hups) in Hrun.
  destruct (for_each _ _ _ _) as [[c|e] w2'] eqn:Hloop; [|discriminate].
  injection Hrun as <-.
  pose proof (for_each_spec (source_dir_entry gui) (missing_dir_entry gui)
                (check_var gui) t (snapshot ups) (w_fs w1) (w_env w)
                (listing w1 (source_dir_entry gui)) 0
                (listed w1 [upscaled_dir_entry gui; source_dir_entry gui])
                (Ok c) w2' (frame_refl _ _) Henv Hloop)
    as (HF & Hdlg & Hlis & Henv' & Hc & Hcop & Hkept & Hnp).
  cbn [listed w_dialogs w_copied w_listed] in Hdlg, Hcop, Hlis.
  exists w1, t, ups, names.
  split; [reflexivity|]. split; [reflexivity|].
  split; [exact Hups|]. split; [exact Hnames|].
  cbv zeta. cbn [add_dialog w_copied w_dialogs w_listed w_env w_fs].
  rewrite Z.add_0_l,
    <- (length_copies_of (source_dir_entry gui) (missing_dir_entry gui))
    in Hc. subst c.
  split; [rewrite Hcop, Hcp; reflexivity|].
  split; [rewrite Hdlg, Hdl; reflexivity|].
  split; [rewrite Hlis, Hls; reflexivity|].
  split; [exact Henv'|]. split; [exact HF|]. split; [exact Hkept|exact Hnp].
Qed.

Lemma ensure_missing_dir_fun (missing : path) (w w1 w1' : world) :
  ensure_missing_dir missing w = (Ok tt, w1) ->
  ensure_missing_dir missing w = (Ok tt, w1') -> w1' = w1.
Proof. intros H H'. rewrite H in H'. injection H' as <-. reflexivity. Qed.

(** C1, as amended.  In a run that passes validation and returns, with
    the two directories as they are once the missing directory is in
    place: an entry is copied if and only if it is listed in
    [source_dir], its case-folded stem is not in the snapshot of
    [upscaled_dir], and the corner check is off or returns true for it.
    Every copy goes from [source_dir] to [missing_dir] under the entry's
    name, and when the run returns the destination holds what the source
    file held when the run began.  The count shown in the summary is the
    number of copies made, one per such entry. *)
Theorem copied_iff_missing_and_matching (gui : inputs) (w w1 w2 : world)
    (t : rgb) (ups names : list string) :
  is_dir (w_fs w) (source_dir_entry gui) = true ->
  is_dir (w_fs w) (upscaled_dir_entry gui) = true ->
  ensure_missing_dir (missing_dir_entry gui) w = (Ok tt, w1) ->
  parse_color (color_entry gui) = Ok t ->
  w_fs w1 !! upscaled_dir_entry gui = Some (NDir ups) ->
  w_fs w1 !! source_dir_entry gui = Some (NDir names) ->
  find_and_copy_missing_images gui w = (Ok tt, w2) ->
  exists cs count,
    w_copied w2 = w_copied w ++ cs /\
    (forall n,
       (exists d, (source_dir_entry gui ++ [n], d) ∈ cs) <->
       n ∈ names /\
       (base_name_lower n ∉ snapshot ups) /\
       (check_var gui = false \/
        fst (check_corners_color (source_dir_entry gui ++ [n]) t 10 w1)
          = Ok true)) /\
    (forall s d, (s, d) ∈ cs ->
       exists n f,
         s = source_dir_entry gui ++ [n] /\
         (d = missing_dir_entry gui ++ [n] \/
          d = missing_dir_entry gui ++ [n; n]) /\
         w_fs w !! s = Some (NFile f) /\
         w_fs w2 !! d = Some (NFile f)) /\
    w_dialogs w2 = w_dialogs w ++ [summary count] /\
    count = Z.of_nat (length cs) /\
    count = Z.of_nat (length (filter
              (fun n => selected (source_dir_entry gui) (check_var gui) t
                          (snapshot ups) (w_fs w1) n = true) names)).
Proof.
  intros Hs Hu He Hp Hups Hnames Hrun.
  destruct (run_done gui w w2 Hs Hu Hrun)
    as (w1' & t' & ups' & names' & He' & Hp' & Hups' & Hnames' & Hc & Hd & _
        & _ & _ & Hkept & _).
  pose proof (ensure_missing_dir_fun _ _ _ _ He He') as ->.
  rewrite Hp in Hp'. injection Hp' as <-.
  rewrite Hups in Hups'. injection Hups' as <-.
  rewrite Hnames in Hnames'. injection Hnames' as <-.
  cbv zeta in Hc, Hd, Hkept.
  pose proof (ensure_missing_dir_spec _ _ _ _ He) as (Hg & _).
  eexists. eexists. split; [exact Hc|].
  split; [|split; [|split; [exact Hd|split; [reflexivity|]]]].
  - intros n. rewrite check_corners_color_true. split.
    + intros (d & Hin). apply elem_of_copies_of in Hin
        as (m & Hm & Hsel & Em & _).
      apply app_inj_tail in Em as [_ <-].
      apply selected_true in Hsel as [Hsnap Hchk].
      apply (elem_of_listing w1 _ names n Hnames) in Hm. auto.
    + intros (Hn & Hsnap & Hchk).
      eexists. apply elem_of_copies_of. exists n.
      split; [apply (elem_of_listing w1 _ names n Hnames); exact Hn|].
      split; [|split; reflexivity].
      apply selected_true. auto.
  - intros s d Hin.
    destruct (copies_in_place gui w w1 w2 t (snapshot ups) _ Hg Hkept s d Hin)
      as (n & f & _ & E1 & E2 & _ & E3 & E4).
    exists n, f. auto.
  - rewrite length_copies_of. f_equal.
    apply Permutation_length, filter_Permutation.
    exact (listing_perm w1 _ names Hnames).
Qed.

(** ** C7: source files with one stem *)

Lemma two_members_length {A} (l : list A) (a b : A) :
  a ∈ l -> b ∈ l -> a <> b -> (2 <= length l)%nat.
Proof.
  intros Ha Hb Hab.
  apply list_elem_of_split in Ha as (l1 & l2 & ->).
  rewrite length_app. simpl.
  apply elem_of_app in Hb as [Hb|Hb].
  - destruct l1; [inversion Hb|simpl; lia].
  - apply elem_of_cons in Hb as [Hb|Hb]; [congruence|].
    destruct l2; [inversion Hb|simpl; lia].
Qed.

(** C7, as amended.  In a run that passes validation and returns, two
    different entries of [source_dir] with the same case-folded stem,
    that stem not being in the snapshot and the corner check being off or
    passed by both, are both copied, to two different files of
    [missing_dir] that hold what the two sources held, and both are
    counted. *)
Theorem same_stem_sources_both_copied (gui : inputs) (w w1 w2 : world)
    (t : rgb) (ups names : list string) (a b : string) :
  is_dir (w_fs w) (source_dir_entry gui) = true ->
  is_dir (w_fs w) (upscaled_dir_entry gui) = true ->
  ensure_missing_dir (missing_dir_entry gui) w = (Ok tt, w1) ->
  parse_color (color_entry gui) = Ok t ->
  w_fs w1 !! upscaled_dir_entry gui = Some (NDir ups) ->
  w_fs w1 !! source_dir_entry gui = Some (NDir names) ->
  a ∈ names -> b ∈ names -> a <> b ->
  base_name_lower a = base_name_lower b ->
  base_name_lower a ∉ snapshot ups ->
  (check_var gui = false \/
   (fst (check_corners_color (source_dir_entry gui ++ [a]) t 10 w1) = Ok true /\
    fst (check_corners_color (source_dir_entry gui ++ [b]) t 10 w1) = Ok true)) ->
  find_and_copy_missing_images gui w = (Ok tt, w2) ->
  exists cs count da db fa fb,
    w_copied w2 = w_copied w ++ cs /\
    (source_dir_entry gui ++ [a], da) ∈ cs /\
    (source_dir_entry gui ++ [b], db) ∈ cs /\
    da <> db /\
    (da = missing_dir_entry gui ++ [a] \/
     da = missing_dir_entry gui ++ [a; a]) /\
    (db = missing_dir_entry gui ++ [b] \/
     db = missing_dir_entry gui ++ [b; b]) /\
    w_fs w !! (source_dir_entry gui ++ [a]) = Some (NFile fa) /\
    w_fs w2 !! da = Some (NFile fa) /\
    w_fs w !! (source_dir_entry gui ++ [b]) = Some (NFile fb) /\
    w_fs w2 !! db = Some (NFile fb) /\
    w_dialogs w2 = w_dialogs w ++ [InfoFlagged count] /\
    count = Z.of_nat (length cs) /\
    2 <= count.
Proof.
  intros Hs Hu He Hp Hups Hnames Ha Hb Hab Hstem Hsnap Hchk Hrun.
  destruct (run_done gui w w2 Hs Hu Hrun)
    as (w1' & t' & ups' & names' & He' & Hp' & Hups' & Hnames' & Hc & Hd & _
        & _ & _ & Hkept & _).
  pose proof (ensure_missing_dir_fun _ _ _ _ He He') as ->.
  rewrite Hp in Hp'. injection Hp' as <-.
  rewrite Hups in Hups'. injection Hups' as <-.
  rewrite Hnames in Hnames'. injection Hnames' as <-.
  cbv zeta in Hc, Hd, Hkept.
  pose proof (ensure_missing_dir_spec _ _ _ _ He) as (Hg & _).
  set (l := listing w1 (source_dir_entry gui)) in *.
  set (cs := copies_of (source_dir_entry gui) (missing_dir_entry gui)
               (check_var gui) t (snapshot ups) (w_fs w1) l) in *.
  assert (Hla : a ∈ l) by (apply (elem_of_listing w1 _ names a Hnames), Ha).
  assert (Hlb : b ∈ l) by (apply (elem_of_listing w1 _ names b Hnames), Hb).
  assert (Hsa : selected (source_dir_entry gui) (check_var gui) t
                  (snapshot ups) (w_fs w1) a = true).
  { apply selected_true. split; [exact Hsnap|].
    rewrite <- check_corners_color_true. tauto. }
  assert (Hsb : selected (source_dir_entry gui) (check_var gui) t
                  (snapshot ups) (w_fs w1) b = true).
  { apply selected_true. split; [rewrite <- Hstem; exact Hsnap|].
    rewrite <- check_corners_color_true. tauto. }
  assert (Hina : (source_dir_entry gui ++ [a],
                  dst_of (missing_dir_entry gui) (w_fs w1) a) ∈ cs).
  { apply elem_of_copies_of. exists a. auto. }
  assert (Hinb : (source_dir_entry gui ++ [b],
                  dst_of (missing_dir_entry gui) (w_fs w1) b) ∈ cs).
  { apply elem_of_copies_of. exists b. auto. }
  destruct (copies_in_place gui w w1 w2 t (snapshot ups) l Hg Hkept _ _ Hina)
    as (na & fa & _ & Ea & Eda & _ & Hfa & Hfa').
  apply app_inj_tail in Ea as [_ <-].
  destruct (copies_in_place gui w w1 w2 t (snapshot ups) l Hg Hkept _ _ Hinb)
    as (nb & fb & _ & Eb & Edb & _ & Hfb & Hfb').
  apply app_inj_tail in Eb as [_ <-].
  assert (Hlen : 2 <= Z.of_nat (length cs)).
  { unfold cs. rewrite length_copies_of.
    assert (2 <= length (filter (fun n => selected (source_dir_entry gui)
              (check_var gui) t (snapshot ups) (w_fs w1) n = true) l))%nat;
      [|lia].
    apply (two_members_length _ a b); [| |exact Hab];
      apply list_elem_of_filter; auto. }
  exists cs, (Z.of_nat (length cs)),
    (dst_of (missing_dir_entry gui) (w_fs w1) a),
    (dst_of (missing_dir_entry gui) (w_fs w1) b), fa, fb.
  split; [exact Hc|]. split; [exact Hina|]. split; [exact Hinb|].
  split; [intros E; apply Hab; exact (dst_of_inj _ _ _ _ E)|].
  split; [exact Eda|]. split; [exact Edb|].
  split; [exact Hfa|]. split; [exact Hfa'|].
  split; [exact Hfb|]. split; [exact Hfb'|].
  split; [|split; [reflexivity|exact Hlen]].
  rewrite Hd. unfold summary.
  replace (_ =? 0) with false by (symmetry; apply Z.eqb_neq; lia).
  reflexivity.
Qed.

(** ** C8: a failing copy *)

Lemma for_each_app {A S} (body : A -> S -> M S) (l1 l2 : list A) :
  forall (s : S) (w : world),
    for_each body (l1 ++ l2) s w =
    match for_each body l1 s w with
    | (Ok s', w') => for_each body l2 s' w'
    | (Raise e, w') => (Raise e, w')
    end.
Proof.
  induction l1 as [|x l1 IH]; intros s w; [reflexivity|].
  cbn [app for_each]. unfold bind.
  destruct (body x s w) as [[s1|e] w1]; [apply IH|reflexivity].
Qed.

(** C8.  When the loop has gone through the entries [pre] and comes to
    an entry [n] it does not pass over, and [shutil.copy] raises for [n],
    the run raises the same exception there: no summary is shown, the
    copies made for [pre] are the only ones, their files are in place,
    and no entry listed after [n] is copied. *)
Theorem copy_failure_aborts_batch (gui : inputs) (w w1 wm : world)
    (t : rgb) (pre post : list string) (n : string) (c : Z) (e : exn) :
  is_dir (w_fs w) (source_dir_entry gui) = true ->
  is_dir (w_fs w) (upscaled_dir_entry gui) = true ->
  ensure_missing_dir (missing_dir_entry gui) w = (Ok tt, w1) ->
  parse_color (color_entry gui) = Ok t ->
  listing w1 (source_dir_entry gui) = pre ++ n :: post ->
  for_each (loop_body (source_dir_entry gui) (missing_dir_entry gui)
              (check_var gui) t
              (snapshot (listing w1 (upscaled_dir_entry gui))))
           pre 0 (listed w1 [upscaled_dir_entry gui; source_dir_entry gui])
    = (Ok c, wm) ->
  base_name_lower n ∉ snapshot (listing w1 (upscaled_dir_entry gui)) ->
  (check_var gui = false \/
   fst (check_corners_color (source_dir_entry gui ++ [n]) t 10 wm) = Ok true) ->
  fst (shutil_copy (source_dir_entry gui ++ [n]) (missing_dir_entry gui ++ [n])
         wm) = Raise e ->
  let cs := copies_of (source_dir_entry gui) (missing_dir_entry gui)
              (check_var gui) t
              (snapshot (listing w1 (upscaled_dir_entry gui))) (w_fs w1) pre in
  find_and_copy_missing_images gui w = (Raise e, wm) /\
  w_dialogs wm = w_dialogs w /\
  w_copied wm = w_copied w ++ cs /\
  (forall s d, (s, d) ∈ cs ->
     exists m f, m ∈ pre /\ s = source_dir_entry gui ++ [m] /\
                 w_fs w !! s = Some (NFile f) /\
                 w_fs wm !! d = Some (NFile f)).
Proof.
  intros Hs Hu He Hp Hsplit Hpre Hsnap Hchk Hfail cs.
  pose proof (ensure_missing_dir_spec _ _ _ _ He)
    as (Hg & (_ & Hd1 & Hc1 & _ & Henv) & _).
  pose proof (for_each_spec (source_dir_entry gui) (missing_dir_entry gui)
                (check_var gui) t
                (snapshot (listing w1 (upscaled_dir_entry gui))) (w_fs w1)
                (w_env w) pre 0
                (listed w1 [upscaled_dir_entry gui; source_dir_entry gui])
                (Ok c) wm (frame_refl _ _) Henv Hpre)
    as (HF & Hdlg & _ & Henvm & _ & Hcop & Hkept & _).
  cbn [listed w_dialogs w_copied] in Hdlg, Hcop.
  assert (Hbody : loop_body (source_dir_entry gui) (missing_dir_entry gui)
                    (check_var gui) t
                    (snapshot (listing w1 (upscaled_dir_entry gui))) n c wm
                  = (Raise e, wm)).
  { rewrite (loop_body_spec (source_dir_entry gui) (missing_dir_entry gui)
               (check_var gui) t _ (w_fs w1) (w_env w) n c wm HF Henvm).
    assert (Hsel : selected (source_dir_entry gui) (check_var gui) t
                     (snapshot (listing w1 (upscaled_dir_entry gui)))
                     (w_fs w1) n = true).
    { rewrite <- (frame_selected _ _ _ _ (w_fs w1) (w_fs wm) n HF).
      apply selected_true. split; [exact Hsnap|].
      rewrite <- check_corners_color_true. exact Hchk. }
    apply (selected_verdict _ _ _ _ _ (w_env w)) in Hsel. rewrite Hsel.
    destruct (shutil_copy _ _ wm) as [[d|e'] wm'] eqn:Hcp;
      [discriminate|].
    cbn [fst] in Hfail. injection Hfail as ->.
    rewrite (shutil_copy_raise _ _ _ _ _ Hcp). reflexivity. }
  split; [|split; [congruence|split; [rewrite Hcop, Hc1; reflexivity|]]].
  - rewrite (run_valid_eq gui w Hs Hu), He, Hp.
    pose proof (grows_is_dir _ _ _ Hg Hs) as Hs1.
    pose proof (grows_is_dir _ _ _ Hg Hu) as Hu1.
    apply is_dir_true in Hs1 as [names ->].
    apply is_dir_true in Hu1 as [ups ->].
    rewrite Hsplit, for_each_app, Hpre. cbn [for_each]. unfold bind.
    rewrite Hbody. reflexivity.
  - intros s d Hin.
    destruct (copies_in_place gui w w1 wm t _ pre Hg Hkept s d Hin)
      as (m & f & Hm & E1 & _ & _ & E3 & E4).
    exists m, f. auto.
Qed.

(** ** C6: a second run *)

Section Again.

Variables (source_dir missing_dir : path) (check : bool) (t : rgb)
          (snap : gset string) (fs : gmap path node) (env : environment).

(** Starting from [fs], in which every selected name has its copy in
    place, a writable one, the loop copies the same names and leaves [fs]
    as it is. *)
Lemma for_each_again (names : list string) :
  forall (c : Z) (w : world),
    w_fs w = fs -> w_env w = env ->
    Forall (fun n => in_place source_dir missing_dir fs fs n /\
                     forall f, fs !! (source_dir ++ [n]) = Some (NFile f) ->
                               writable f = true)
           (filter (fun n => selected source_dir check t snap fs n = true)
                   names) ->
    Forall (fun n => forall e,
              verdict_of source_dir check t snap fs env n <> PrintRaises e)
           names ->
    exists out,
      for_each (loop_body source_dir missing_dir check t snap) names c w =
        (Ok (c + Z.of_nat (length (filter
               (fun n => selected source_dir check t snap fs n = true)
               names))),
         World fs (w_stdout w ++ out) (w_dialogs w)
               (w_copied w ++
                copies_of source_dir missing_dir check t snap fs names)
               (w_listed w) env).
Proof.
  induction names as [|n names IH]; intros c w Hfs Henv Hk Hnp.
  - exists []. cbn. unfold ret. rewrite Z.add_0_r, !app_nil_r.
    rewrite <- Hfs, <- Henv. destruct w; reflexivity.
  - cbn [for_each]. unfold bind.
    assert (HF : frame source_dir fs (w_fs w))
      by (rewrite Hfs; apply frame_refl).
    rewrite (loop_body_spec source_dir missing_dir check t snap fs env n c w
               HF Henv).
    apply Forall_cons in Hnp as [Hn Hnp].
    pose proof (selected_verdict source_dir check t snap fs env n)
      as [Hsv Hvs].
    unfold copies_of.
    destruct (selected source_dir check t snap fs n) eqn:Hsel.
    + rewrite (Hsv eq_refl).
      rewrite filter_cons_True in Hk |- * by exact Hsel.
      apply Forall_cons in Hk as [[(f & Hsrc & Hdst & Hne & Hr) Hw] Hk].
      assert (Ed : (if is_dir (w_fs w) (missing_dir ++ [n])
                    then (missing_dir ++ [n]) ++
                         [os_path_basename (source_dir ++ [n])]
                    else missing_dir ++ [n]) = dst_of missing_dir fs n).
      { unfold dst_of, os_path_basename. rewrite last_snoc, Hfs.
        reflexivity. }
      pose proof (shutil_copy_same (source_dir ++ [n]) (missing_dir ++ [n])
                    f w) as Hcp.
      cbv zeta in Hcp. rewrite Ed in Hcp.
      rewrite Hcp by (rewrite ?Hfs; auto). clear Hcp.
      destruct (IH (c + 1)
                  (World (w_fs w) (w_stdout w) (w_dialogs w)
                         (w_copied w ++
                          [(source_dir ++ [n], dst_of missing_dir fs n)])
                         (w_listed w) (w_env w))
                  Hfs Henv Hk Hnp) as [out' ->].
      exists out'. cbn [w_stdout w_dialogs w_copied w_listed]. f_equal.
      * f_equal. cbn [length]. lia.
      * cbn [map]. rewrite <- !app_assoc. reflexivity.
    + rewrite filter_cons_False in Hk |- *
        by (rewrite Hsel; discriminate).
      destruct (verdict_of source_dir check t snap fs env n)
        as [|caught| |e] eqn:Hv.
      * destruct (IH c w Hfs Henv Hk Hnp) as [out' ->]. eauto.
      * destruct (IH c (printed w [(source_dir ++ [n], caught)]) Hfs Henv
                    Hk Hnp) as [out' ->].
        exists ([(source_dir ++ [n], caught)] ++ out').
        cbn [printed w_stdout w_dialogs w_copied w_listed].
        rewrite <- !app_assoc. reflexivity.
      * discriminate (Hvs eq_refl).
      * exfalso. exact (Hn e eq_refl).
Qed.

End Again.

(** The selection and the destinations are the same in any file system
    the loop can reach. *)
Lemma copies_of_frame (src missing : path) (check : bool) (t : rgb)
    (snap : gset string) (fs1 fs : gmap path node) (names : list string) :
  frame src fs1 fs ->
  copies_of src missing check t snap fs names =
  copies_of src missing check t snap fs1 names /\
  filter (fun n => selected src check t snap fs n = true) names =
  filter (fun n => selected src check t snap fs1 n = true) names.
Proof.
  intros HF.
  assert (Hfil : filter (fun n => selected src check t snap fs n = true) names
                 = filter (fun n => selected src check t snap fs1 n = true)
                     names).
  { induction names as [|n names IH]; [reflexivity|].
    destruct (selected src check t snap fs1 n) eqn:Hsel.
    - rewrite !filter_cons_True, IH;
        [reflexivity|exact Hsel|rewrite (frame_selected _ _ _ _ _ _ _ HF); exact Hsel].
    - rewrite !filter_cons_False, IH;
        [reflexivity|rewrite Hsel; discriminate
        |rewrite (frame_selected _ _ _ _ _ _ _ HF), Hsel; discriminate]. }
  split; [|exact Hfil].
  unfold copies_of. rewrite Hfil. apply map_ext.
  intros n. rewrite (frame_dst_of src missing fs1 fs n HF). reflexivity.
Qed.

(** A listing that is the same after two extensions was not extended. *)
Lemma listing_sandwich (fs0 fs1 fs2 : gmap path node) (q : path)
    (l1 : list string) :
  grows fs0 fs1 -> (forall q l, fs1 !! q = Some (NDir l) ->
                      exists l', fs2 !! q = Some (NDir (l ++ l'))) ->
  fs2 !! q = fs0 !! q -> is_dir fs0 q = true ->
  fs1 !! q = Some (NDir l1) -> fs2 !! q = Some (NDir l1).
Proof.
  intros [_ Hg] Hf E Hd H1.
  apply is_dir_true in Hd as [l0 H0].
  destruct (Hg q l0 H0) as [a Ha]. rewrite Ha in H1. injection H1 as <-.
  destruct (Hf q _ Ha) as [b Hb]. rewrite Hb. rewrite E, H0 in Hb.
  injection Hb as Hb. rewrite <- app_assoc in Hb.
  rewrite <- (app_nil_r l0) in Hb at 1. apply app_inv_head in Hb.
  symmetry in Hb. apply app_eq_nil in Hb as [-> ->].
  rewrite !app_nil_r. reflexivity.
Qed.

(** C6, as amended.  When a run returns, has left the listings of
    [source_dir] and [upscaled_dir] as they were, and every file it copied
    is writable in the source, a second run from the world it left returns
    too: it makes the same copies in the same order, each onto the file the
    first run put there, so that the file system does not change; it shows
    the same message, with the same count; and every destination holds
    what its source held. *)
Theorem second_run_repeats_first (gui : inputs) (w w' : world)
    (cs : list (path * path)) (ds : list dialog) :
  find_and_copy_missing_images gui w = (Ok tt, w') ->
  w_fs w' !! source_dir_entry gui = w_fs w !! source_dir_entry gui ->
  w_fs w' !! upscaled_dir_entry gui = w_fs w !! upscaled_dir_entry gui ->
  w_copied w' = w_copied w ++ cs ->
  w_dialogs w' = w_dialogs w ++ ds ->
  (forall s d f, (s, d) ∈ cs -> w_fs w !! s = Some (NFile f) ->
                 writable f = true) ->
  exists w'',
    find_and_copy_missing_images gui w' = (Ok tt, w'') /\
    w_fs w'' = w_fs w' /\
    w_copied w'' = w_copied w' ++ cs /\
    w_dialogs w'' = w_dialogs w' ++ ds /\
    (forall s d, (s, d) ∈ cs ->
       exists f, w_fs w !! s = Some (NFile f) /\
                 w_fs w'' !! d = Some (NFile f) /\ s <> d).
Proof.
  intros Hrun Esrc Eup Hcs Hds Hwr.
  destruct (is_dir (w_fs w) (source_dir_entry gui)) eqn:Hs; cycle 1.
  { rewrite run_invalid_eq in Hrun by auto. injection Hrun as <-.
    simpl in Hcs, Hds. rewrite <- (app_nil_r (w_copied w)) in Hcs at 1.
    apply app_inv_head in Hcs as <-. apply app_inv_head in Hds as <-.
    eexists. split; [apply run_invalid_eq; simpl; auto|].
    simpl. rewrite app_nil_r. split_all; try reflexivity.
    intros s d Hin. inversion Hin. }
  destruct (is_dir (w_fs w) (upscaled_dir_entry gui)) eqn:Hu; cycle 1.
  { rewrite run_invalid_eq in Hrun by auto. injection Hrun as <-.
    simpl in Hcs, Hds. rewrite <- (app_nil_r (w_copied w)) in Hcs at 1.
    apply app_inv_head in Hcs as <-. apply app_inv_head in Hds as <-.
    eexists. split; [apply run_invalid_eq; simpl; auto|].
    simpl. rewrite app_nil_r. split_all; try reflexivity.
    intros s d Hin. inversion Hin. }
  destruct (run_done gui w w' Hs Hu Hrun)
    as (w1 & t & ups & names & He & Hp & Hups & Hnames & H).
  cbv zeta in H. destruct H as (Hcop & Hdlg & _ & Henv & HF & Hkept & Hnp).
  pose proof (ensure_missing_dir_spec _ _ _ _ He)
    as (Hg & (_ & _ & _ & _ & Henv1) & Hex & _).
  specialize (Hex eq_refl).
  pose proof HF as (Hdir & Hsrcs & Hlist & Hexi).
  (* the first run's record *)
  rewrite Hcop in Hcs. apply app_inv_head in Hcs. subst cs.
  rewrite Hdlg in Hds. apply app_inv_head in Hds. subst ds.
  (* the second run *)
  assert (Hs2 : is_dir (w_fs w') (source_dir_entry gui) = true)
    by (rewrite Hdir; exact (grows_is_dir _ _ _ Hg Hs)).
  assert (Hu2 : is_dir (w_fs w') (upscaled_dir_entry gui) = true)
    by (rewrite Hdir; exact (grows_is_dir _ _ _ Hg Hu)).
  rewrite (run_valid_eq gui w' Hs2 Hu2).
  destruct (ensure_missing_dir (missing_dir_entry gui) w') as [r wx] eqn:He2.
  apply ensure_missing_dir_spec in He2 as (_ & _ & _ & Hnoop).
  destruct Hnoop as [-> ->]; [apply Hexi; exact Hex|].
  rewrite Hp.
  assert (Hups2 : w_fs w' !! upscaled_dir_entry gui = Some (NDir ups))
    by (eapply listing_sandwich; eassumption).
  assert (Hnames2 : w_fs w' !! source_dir_entry gui = Some (NDir names))
    by (eapply listing_sandwich; eassumption).
  rewrite Hups2, Hnames2.
  rewrite (snapshot_listing w' _ ups Hups2).
  assert (El : listing w' (source_dir_entry gui) =
               listing w1 (source_dir_entry gui)).
  { unfold listing. rewrite Hnames2, Hnames, Henv, Henv1. reflexivity. }
  rewrite El.
  set (l := listing w1 (source_dir_entry gui)) in *.
  destruct (copies_of_frame (source_dir_entry gui) (missing_dir_entry gui)
              (check_var gui) t (snapshot ups) (w_fs w1) (w_fs w') l HF)
    as [Ecop Efil].
  destruct (for_each_again (source_dir_entry gui) (missing_dir_entry gui)
              (check_var gui) t (snapshot ups) (w_fs w') (w_env w') l 0
              (listed w' [upscaled_dir_entry gui; source_dir_entry gui])
              eq_refl eq_refl)
    as [out ->].
  { rewrite Efil. rewrite Forall_forall in Hkept |- *.
    intros n Hn. destruct (Hkept n Hn) as (f & H1 & H2 & H3 & Hr).
    assert (E1 : w_fs w' !! (source_dir_entry gui ++ [n]) = Some (NFile f)).
    { rewrite <- H1. apply Hsrcs. exact (is_dir_NFile _ _ _ H1). }
    split.
    - exists f.
      rewrite (frame_dst_of _ (missing_dir_entry gui) _ _ n HF). auto.
    - intros f' Hf'. rewrite E1 in Hf'. injection Hf' as <-.
      apply list_elem_of_filter in Hn as [Hsel Hn].
      apply (Hwr (source_dir_entry gui ++ [n])
                 (dst_of (missing_dir_entry gui) (w_fs w1) n)).
      + apply elem_of_copies_of. exists n. auto.
      + apply Hg. exact H1. }
  { eapply Forall_impl; [exact Hnp|]. intros n Hn e.
    rewrite (frame_verdict _ _ _ _ _ _ (w_env w') n HF), Henv. apply Hn. }
  rewrite Ecop, Efil.
  rewrite <- (length_copies_of (source_dir_entry gui) (missing_dir_entry gui)).
  eexists. split; [reflexivity|]. cbn -[copies_of].
  split; [reflexivity|]. split; [reflexivity|].
  split; [rewrite Z.add_0_l; reflexivity|].
  intros s d Hin.
  destruct (copies_in_place gui w w1 w' t (snapshot ups) l Hg Hkept s d Hin)
    as (n & f & _ & _ & _ & Hne & Hsf & Hdf).
  exists f. auto.
Qed.

(** * The theorems on the example worlds *)

Lemma copied_iff_missing_and_matching_witness :
  exists cs count,
    w_copied (world_after (find_and_copy_missing_images (gui_A false "#000000"))
                scenario_A) = w_copied scenario_A ++ cs /\
    (forall n,
       (exists d, (["source"] ++ [n], d) ∈ cs) <->
       n ∈ ["cat.png"; "dog.jpg"; "photo.png"] /\
       (base_name_lower n ∉ snapshot ["cat.PNG"; "photo.jpg"]) /\
       (false = false \/
        fst (check_corners_color (["source"] ++ [n]) (0, 0, 0) 10
               (world_after (ensure_missing_dir ["missing"]) scenario_A))
          = Ok true)) /\
    (forall s d, (s, d) ∈ cs ->
       exists n f,
         s = ["source"] ++ [n] /\
         (d = ["missing"] ++ [n] \/ d = ["missing"] ++ [n; n]) /\
         w_fs scenario_A !! s = Some (NFile f) /\
         w_fs (world_after (find_and_copy_missing_images
                              (gui_A false "#000000")) scenario_A) !! d
           = Some (NFile f)) /\
    w_dialogs (world_after (find_and_copy_missing_images (gui_A false "#000000"))
                 scenario_A) = w_dialogs scenario_A ++ [summary count] /\
    count = Z.of_nat (length cs) /\
    count = Z.of_nat (length (filter
              (fun n => selected ["source"] false (0, 0, 0)
                          (snapshot ["cat.PNG"; "photo.jpg"])
                          (w_fs (world_after (ensure_missing_dir ["missing"])
                                   scenario_A)) n = true)
              ["cat.png"; "dog.jpg"; "photo.png"])).
Proof.
  apply (copied_iff_missing_and_matching (gui_A false "#000000") scenario_A
           (world_after (ensure_missing_dir ["missing"]) scenario_A)
           (world_after (find_and_copy_missing_images (gui_A false "#000000"))
              scenario_A)
           (0, 0, 0) ["cat.PNG"; "photo.jpg"]
           ["cat.png"; "dog.jpg"; "photo.png"]);
    vm_compute; reflexivity.
Defined.

Lemma corner_matcher_decides_witness :
  check_corners_color ["source"; "A.png"] (0, 0, 0) 10 scenario_B
    = (Ok true, scenario_B) /\
  fst (check_corners_color ["source"; "A.png"] (0, 0, 0) 4 scenario_B)
    = Ok false.
Proof.
  assert (Hw : forall thr, 9 <= thr -> within (0, 0, 0) thr grey_rgba).
  { intros thr Hthr i Hi. destruct i as [|[|[|i]]]; [..|lia];
      eexists; (split; [reflexivity|simpl; lia]). }
  assert (He : exceeds (0, 0, 0) 4 grey_rgba).
  { exists 0%nat, 5. split; [lia|]. split; [reflexivity|simpl; lia]. }
  split.
  - refine (proj1 (corner_matcher_decides scenario_B ["source"; "A.png"]
                     (picture grey_rgba) (solid 4 3 grey_rgba) (0, 0, 0) 10
                     grey_rgba grey_rgba grey_rgba grey_rgba
                     _ _ _ _ _ _) _);
      try (vm_compute; reflexivity).
    repeat constructor; apply Hw; lia.
  - refine (proj2 (corner_matcher_decides scenario_B ["source"; "A.png"]
                     (picture grey_rgba) (solid 4 3 grey_rgba) (0, 0, 0) 4
                     grey_rgba grey_rgba grey_rgba grey_rgba
                     _ _ _ _ _ _) _ _);
      try (vm_compute; reflexivity).
    + constructor. exact He.
    + right. vm_compute. reflexivity.
Defined.

Lemma invalid_directory_aborts_witness :
  find_and_copy_missing_images
    (Inputs ["nowhere"] ["upscaled"] ["missing"] false "#000000") scenario_A =
    (Ok tt,
     World (w_fs scenario_A) [] [ErrInvalidDirectory] [] [] plain) /\
  w_fs scenario_A !! ["missing"] = None.
Proof.
  split; [|vm_compute; reflexivity].
  apply (invalid_directory_aborts
           (Inputs ["nowhere"] ["upscaled"] ["missing"] false "#000000")
           scenario_A).
  left. vm_compute. reflexivity.
Defined.

Lemma same_stem_other_extension_is_present_witness :
  exists cs,
    w_copied (world_after (find_and_copy_missing_images (gui_A false "#000000"))
                scenario_A) = w_copied scenario_A ++ cs /\
    forall d, (["source"] ++ ["photo.png"], d) ∉ cs.
Proof.
  apply (same_stem_other_extension_is_present (gui_A false "#000000")
           scenario_A
           (world_after (find_and_copy_missing_images (gui_A false "#000000"))
              scenario_A)
           (Ok tt) ["cat.PNG"; "photo.jpg"] "photo.jpg" "photo.png").
  - vm_compute. reflexivity.
  - decide_by_computing.
  - vm_compute. reflexivity.
  - vm_compute. discriminate.
  - vm_compute. reflexivity.
Defined.

Lemma second_run_repeats_first_witness :
  exists w'',
    find_and_copy_missing_images (gui_A false "#000000")
      (world_after (find_and_copy_missing_images (gui_A false "#000000"))
         scenario_A) = (Ok tt, w'') /\
    w_fs w'' = w_fs (world_after (find_and_copy_missing_images
                                    (gui_A false "#000000")) scenario_A) /\
    w_copied w'' = [(["source"; "dog.jpg"], ["missing"; "dog.jpg"])] ++
                   [(["source"; "dog.jpg"], ["missing"; "dog.jpg"])] /\
    w_dialogs w'' = [InfoFlagged 1] ++ [InfoFlagged 1] /\
    (forall s d,
       (s, d) ∈ [(["source"; "dog.jpg"], ["missing"; "dog.jpg"])] ->
       exists f, w_fs scenario_A !! s = Some (NFile f) /\
                 w_fs w'' !! d = Some (NFile f) /\ s <> d).
Proof.
  apply (second_run_repeats_first (gui_A false "#000000") scenario_A
           (world_after (find_and_copy_missing_images (gui_A false "#000000"))
              scenario_A)
           [(["source"; "dog.jpg"], ["missing"; "dog.jpg"])] [InfoFlagged 1]);
    try (vm_compute; reflexivity).
  intros s d f Hin Hf. apply list_elem_of_singleton in Hin.
  injection Hin as -> ->. vm_compute in Hf. injection Hf as <-.
  vm_compute. reflexivity.
Defined.

Lemma same_stem_sources_both_copied_witness :
  exists cs count da db fa fb,
    w_copied (world_after (find_and_copy_missing_images (gui_B true "#000000"))
                scenario_B) = w_copied scenario_B ++ cs /\
    (["source"] ++ ["A.png"], da) ∈ cs /\
    (["source"] ++ ["a.PNG"], db) ∈ cs /\
    da <> db /\
    (da = ["missing"] ++ ["A.png"] \/ da = ["missing"] ++ ["A.png"; "A.png"]) /\
    (db = ["missing"] ++ ["a.PNG"] \/ db = ["missing"] ++ ["a.PNG"; "a.PNG"]) /\
    w_fs scenario_B !! (["source"] ++ ["A.png"]) = Some (NFile fa) /\
    w_fs (world_after (find_and_copy_missing_images (gui_B true "#000000"))
            scenario_B) !! da = Some (NFile fa) /\
    w_fs scenario_B !! (["source"] ++ ["a.PNG"]) = Some (NFile fb) /\
    w_fs (world_after (find_and_copy_missing_images (gui_B true "#000000"))
            scenario_B) !! db = Some (NFile fb) /\
    w_dialogs (world_after (find_and_copy_missing_images (gui_B true "#000000"))
                 scenario_B) = w_dialogs scenario_B ++ [InfoFlagged count] /\
    count = Z.of_nat (length cs) /\
    2 <= count.
Proof.
  apply (same_stem_sources_both_copied (gui_B true "#000000") scenario_B
           scenario_B
           (world_after (find_and_copy_missing_images (gui_B true "#000000"))
              scenario_B)
           (0, 0, 0) ["v1.0"; "album"]
           ["A.png"; "a.PNG"; "v1.0.png"; "Album.png"; "broken.png"]
           "A.png" "a.PNG").
  - vm_compute. reflexivity.
  - vm_compute. reflexivity.
  - vm_compute. reflexivity.
  - vm_compute. reflexivity.
  - vm_compute. reflexivity.
  - vm_compute. reflexivity.
  - decide_by_computing.
  - decide_by_computing.
  - discriminate.
  - vm_compute. reflexivity.
  - decide_by_computing.
  - right. split; vm_compute; reflexivity.
  - vm_compute. reflexivity.
Defined.

Lemma copy_failure_aborts_batch_witness :
  find_and_copy_missing_images (gui_B false "#000000") scenario_C
    = (Raise IsADirectoryError,
       world_after (find_and_copy_missing_images (gui_B false "#000000"))
         scenario_C) /\
  w_dialogs (world_after (find_and_copy_missing_images (gui_B false "#000000"))
               scenario_C) = w_dialogs scenario_C /\
  w_copied (world_after (find_and_copy_missing_images (gui_B false "#000000"))
              scenario_C)
    = w_copied scenario_C ++
      copies_of ["source"] ["missing"] false (0, 0, 0)
        (snapshot (listing scenario_C ["upscaled"]))
        (w_fs scenario_C) ["first.png"] /\
  (forall s d,
     (s, d) ∈ copies_of ["source"] ["missing"] false (0, 0, 0)
                (snapshot (listing scenario_C ["upscaled"]))
                (w_fs scenario_C) ["first.png"] ->
     exists m f, m ∈ ["first.png"] /\ s = ["source"] ++ [m] /\
                 w_fs scenario_C !! s = Some (NFile f) /\
                 w_fs (world_after (find_and_copy_missing_images
                                      (gui_B false "#000000")) scenario_C) !! d
                   = Some (NFile f)).
Proof.
  apply (copy_failure_aborts_batch (gui_B false "#000000") scenario_C
           scenario_C
           (world_after (find_and_copy_missing_images (gui_B false "#000000"))
              scenario_C)
           (0, 0, 0) ["first.png"] ["last.png"] "sub" 1 IsADirectoryError).
  - vm_compute. reflexivity.
  - vm_compute. reflexivity.
  - vm_compute. reflexivity.
  - vm_compute. reflexivity.
  - vm_compute. reflexivity.
  - vm_compute. reflexivity.
  - decide_by_computing.
  - left. reflexivity.
  - vm_compute. reflexivity.
Defined.

Lemma bad_color_aborts_before_copying_witness :
  find_and_copy_missing_images (gui_A false "") scenario_A
    = (Raise ValueError,
       world_after (ensure_missing_dir ["missing"]) scenario_A) /\
  w_listed (world_after (ensure_missing_dir ["missing"]) scenario_A)
    = w_listed scenario_A /\
  w_copied (world_after (ensure_missing_dir ["missing"]) scenario_A)
    = w_copied scenario_A /\
  w_dialogs (world_after (ensure_missing_dir ["missing"]) scenario_A)
    = w_dialogs scenario_A /\
  w_stdout (world_after (ensure_missing_dir ["missing"]) scenario_A)
    = w_stdout scenario_A /\
  is_Some (w_fs (world_after (ensure_missing_dir ["missing"]) scenario_A)
             !! ["missing"]) /\
  grows (w_fs scenario_A)
        (w_fs (world_after (ensure_missing_dir ["missing"]) scenario_A)).
Proof.
  apply (bad_color_aborts_before_copying (gui_A false "") scenario_A
           (world_after (ensure_missing_dir ["missing"]) scenario_A)).
  - vm_compute. reflexivity.
  - vm_compute. reflexivity.
  - vm_compute. reflexivity.
  - left. exists ValueError. vm_compute. reflexivity.
Defined.

Lemma subdirectory_stem_suppresses_witness :
  exists cs,
    w_copied (world_after (find_and_copy_missing_images (gui_B false "#000000"))
                scenario_B) = w_copied scenario_B ++ cs /\
    forall d, (["source"] ++ ["Album.png"], d) ∉ cs.
Proof.
  apply (subdirectory_stem_suppresses (gui_B false "#000000") scenario_B
           (world_after (find_and_copy_missing_images (gui_B false "#000000"))
              scenario_B)
           (Ok tt) ["v1.0"; "album"] "album" "Album.png").
  - vm_compute. reflexivity.
  - decide_by_computing.
  - vm_compute. reflexivity.
  - right. split; [|vm_compute; reflexivity].
    intros a Ha. apply list_elem_of_In in Ha. simpl in Ha.
    intuition (subst; discriminate).
  - vm_compute. reflexivity.
Defined.

(** * Where the spec's wording and the script part *)

(** C1.  A run with the corner check off and an empty colour string:
    [dog.jpg] is listed in [source], its stem is not in the snapshot of
    [upscaled], and yet it is not copied, for the run raises
    [ValueError] before the loop. *)
Lemma copied_iff_missing_and_matching_counterexample :
  w_fs scenario_A !! ["source"]
    = Some (NDir ["cat.png"; "dog.jpg"; "photo.png"]) /\
  w_fs scenario_A !! ["upscaled"] = Some (NDir ["cat.PNG"; "photo.jpg"]) /\
  bool_decide (base_name_lower "dog.jpg" ∈ snapshot ["cat.PNG"; "photo.jpg"])
    = false /\
  check_var (gui_A false "") = false /\
  result_of (find_and_copy_missing_images (gui_A false "")) scenario_A
    = Raise ValueError /\
  w_copied (world_after (find_and_copy_missing_images (gui_A false ""))
              scenario_A) = [] /\
  w_fs (world_after (find_and_copy_missing_images (gui_A false ""))
          scenario_A) !! ["missing"; "dog.jpg"] = None.
Proof. split_all; vm_compute; reflexivity. Qed.

(** C3.  With the standard output closed, the corner matcher raises on a
    file Pillow cannot decode: the [print] of the handler raises
    [ValueError], which nothing catches.  A run with the corner check on
    then stops at [broken.png], after three copies and without a
    message. *)
Lemma corner_matcher_never_raises_counterexample :
  w_fs scenario_B !! ["source"; "broken.png"] = Some (NFile junk) /\
  f_image junk = None /\
  stdout_closed (w_env (in_env closed scenario_B)) = true /\
  check_corners_color ["source"; "broken.png"] (0, 0, 0) 10
    (in_env closed scenario_B)
    = (Raise ValueError, in_env closed scenario_B) /\
  result_of (find_and_copy_missing_images (gui_B true "#000000"))
    (in_env closed scenario_B) = Raise ValueError /\
  w_copied (world_after (find_and_copy_missing_images (gui_B true "#000000"))
              (in_env closed scenario_B))
    = [(["source"; "A.png"], ["missing"; "A.png"]);
       (["source"; "a.PNG"], ["missing"; "a.PNG"]);
       (["source"; "v1.0.png"], ["missing"; "v1.0.png"])] /\
  w_dialogs (world_after (find_and_copy_missing_images (gui_B true "#000000"))
               (in_env closed scenario_B)) = [].
Proof. split_all; vm_compute; reflexivity. Qed.

(** C6.  [source] holds the read-only picture [seal.png].  The first run
    copies it, mode and all, and shows its message; [source] and
    [upscaled] are as they were.  The second run cannot open the copy
    for writing: it raises [PermissionError], copies nothing and shows
    no message. *)
Lemma second_run_repeats_first_counterexample :
  w_fs scenario_D !! ["source"; "seal.png"]
    = Some (NFile (read_only (picture black))) /\
  writable (read_only (picture black)) = false /\
  find_and_copy_missing_images (gui_B false "#000000") scenario_D
    = (Ok tt,
       world_after (find_and_copy_missing_images (gui_B false "#000000"))
         scenario_D) /\
  w_copied (world_after (find_and_copy_missing_images (gui_B false "#000000"))
              scenario_D)
    = [(["source"; "seal.png"], ["missing"; "seal.png"])] /\
  w_dialogs (world_after (find_and_copy_missing_images (gui_B false "#000000"))
               scenario_D) = [InfoFlagged 1] /\
  w_fs (world_after (find_and_copy_missing_images (gui_B false "#000000"))
          scenario_D) !! ["missing"; "seal.png"]
    = Some (NFile (read_only (picture black))) /\
  w_fs (world_after (find_and_copy_missing_images (gui_B false "#000000"))
          scenario_D) !! ["source"] = w_fs scenario_D !! ["source"] /\
  w_fs (world_after (find_and_copy_missing_images (gui_B false "#000000"))
          scenario_D) !! ["upscaled"] = w_fs scenario_D !! ["upscaled"] /\
  result_of (find_and_copy_missing_images (gui_B false "#000000"))
    (world_after (find_and_copy_missing_images (gui_B false "#000000"))
       scenario_D) = Raise PermissionError /\
  w_copied (world_after (find_and_copy_missing_images (gui_B false "#000000"))
              (world_after (find_and_copy_missing_images
                              (gui_B false "#000000")) scenario_D))
    = [(["source"; "seal.png"], ["missing"; "seal.png"])] /\
  w_dialogs (world_after (find_and_copy_missing_images (gui_B false "#000000"))
               (world_after (find_and_copy_missing_images
                               (gui_B false "#000000")) scenario_D))
    = [InfoFlagged 1].
Proof. split_all; vm_compute; reflexivity. Qed.

(** C7.  [source] holds [A.png] and [a.PNG]; neither stem is in the
    snapshot of [upscaled] and the corner check is off.  With an empty
    colour string the run raises [ValueError] before the loop, and
    neither file is copied. *)
Lemma same_stem_sources_both_copied_counterexample :
  listing scenario_B ["source"]
    = ["A.png"; "a.PNG"; "v1.0.png"; "Album.png"; "broken.png"] /\
  base_name_lower "A.png" = base_name_lower "a.PNG" /\
  bool_decide (base_name_lower "A.png" ∈ snapshot (listing scenario_B
                                                     ["upscaled"])) = false /\
  check_var (gui_B false "") = false /\
  result_of (find_and_copy_missing_images (gui_B false "")) scenario_B
    = Raise ValueError /\
  w_copied (world_after (find_and_copy_missing_images (gui_B false ""))
              scenario_B) = [] /\
  w_fs (world_after (find_and_copy_missing_images (gui_B false ""))
          scenario_B) !! ["missing"; "A.png"] = None /\
  w_fs (world_after (find_and_copy_missing_images (gui_B false ""))
          scenario_B) !! ["missing"; "a.PNG"] = None.
Proof. split_all; vm_compute; reflexivity. Qed.

(** C9.  Colour strings of the wrong length, or with characters that are
    no hexadecimal digits, that the script accepts: the run returns and
    copies [dog.jpg]. *)
Lemma bad_color_aborts_before_copying_counterexample :
  well_formed_color "#1234567" = false /\
  parse_color "#1234567" = Ok (18, 52, 86) /\
  find_and_copy_missing_images (gui_A false "#1234567") scenario_A
    = (Ok tt,
       world_after (find_and_copy_missing_images (gui_A false "#1234567"))
         scenario_A) /\
  w_copied (world_after (find_and_copy_missing_images (gui_A false "#1234567"))
              scenario_A)
    = [(["source"; "dog.jpg"], ["missing"; "dog.jpg"])] /\
  well_formed_color "#12345" = false /\
  parse_color "#12345" = Ok (18, 52, 5) /\
  well_formed_color "#12 4 6" = false /\
  parse_color "#12 4 6" = Ok (18, 4, 6) /\
  w_copied (world_after (find_and_copy_missing_images (gui_A false "#12 4 6"))
              scenario_A)
    = [(["source"; "dog.jpg"], ["missing"; "dog.jpg"])].
Proof. split_all; vm_compute; reflexivity. Qed.

(** C10.  [upscaled] holds the subdirectory [v1.0], whose lowercased name
    is the case-folded stem of the source file [v1.0.png]; the run copies
    [v1.0.png] all the same, the stem of the subdirectory being [v1]. *)
Lemma subdirectory_stem_suppresses_counterexample :
  w_fs scenario_B !! ["upscaled"] = Some (NDir ["v1.0"; "album"]) /\
  is_dir (w_fs scenario_B) ["upscaled"; "v1.0"] = true /\
  w_fs scenario_B !! ["source"; "v1.0.png"] = Some (NFile (picture grey_rgba)) /\
  Str.lower "v1.0" = base_name_lower "v1.0.png" /\
  base_name_lower "v1.0" = "v1" /\
  find_and_copy_missing_images (gui_B false "#000000") scenario_B
    = (Ok tt,
       world_after (find_and_copy_missing_images (gui_B false "#000000"))
         scenario_B) /\
  w_copied (world_after (find_and_copy_missing_images (gui_B false "#000000"))
              scenario_B)
    = [(["source"; "A.png"], ["missing"; "A.png"]);
       (["source"; "a.PNG"], ["missing"; "a.PNG"]);
       (["source"; "v1.0.png"], ["missing"; "v1.0.png"]);
       (["source"; "broken.png"], ["missing"; "broken.png"])].
Proof. split_all; vm_compute; reflexivity. Qed.

(** * Further properties of the script *)

(** ** The colour string (line 76) *)

(** What a hexadecimal digit is not: a space, an underscore, a sign, the
    [x] of a prefix, or [#]. *)
Lemma digit_facts (c : ascii) :
  match Int16.digit c with
  | Some d =>
      (0 <=? d) && (d <? 16) && negb (Int16.is_space c)
      && negb (Int16.is_underscore c)
      && negb (Ascii.eqb c "+"%char) && negb (Ascii.eqb c "-"%char)
      && negb (Ascii.eqb c "x"%char) && negb (Ascii.eqb c "X"%char)
      && negb (Ascii.eqb c "#"%char)
  | None => true
  end = true.
Proof.
  destruct c as [[] [] [] [] [] [] [] []]; vm_compute; reflexivity.
Qed.

Lemma digit_inv (c : ascii) (d : Z) :
  Int16.digit c = Some d ->
  0 <= d < 16 /\ Int16.is_space c = false /\ Int16.is_underscore c = false /\
  Ascii.eqb c "+"%char = false /\ Ascii.eqb c "-"%char = false /\
  Ascii.eqb c "x"%char = false /\ Ascii.eqb c "X"%char = false /\
  Ascii.eqb c "#"%char = false.
Proof.
  intros H. pose proof (digit_facts c) as F. rewrite H in F.
  repeat (apply andb_prop in F as [F ?]).
  repeat match goal with
         | H : negb _ = true |- _ => apply negb_true_iff in H
         end.
  apply Z.leb_le in F.
  match goal with H : (_ <? _) = true |- _ => apply Z.ltb_lt in H end.
  repeat split; assumption.
Qed.

(** [int(s, 16)] on two hexadecimal digits. *)
Lemma int16_pair (a b : ascii) (x y : Z) :
  Int16.digit a = Some x -> Int16.digit b = Some y ->
  Int16.int16 (String a (String b EmptyString)) = Ok (16 * x + y).
Proof.
  intros Ha Hb.
  destruct (digit_inv a x Ha) as (_ & Sa & Ua & Pa & Ma & _).
  destruct (digit_inv b y Hb) as (_ & Sb & Ub & _ & _ & Xb & XXb & _).
  unfold Int16.int16, Int16.parse_chars, Str.chars. cbn [list_ascii_of_string].
  cbn [Int16.skip_spaces]. rewrite Sa, Pa, Ma.
  unfold Int16.strip_prefix. rewrite Xb, XXb, andb_false_r.
  cbn [Int16.scan]. rewrite Ua, Ha, Ub, Hb.
  cbn [Int16.skip_spaces]. f_equal. lia.
Qed.

(** The shape of a string [#RRGGBB]. *)
Lemma well_formed_digits (s : string) :
  well_formed_color s = true ->
  exists d1 d2 d3 d4 d5 d6 x1 x2 x3 x4 x5 x6,
    s = String "#"%char (String d1 (String d2 (String d3 (String d4
          (String d5 (String d6 EmptyString)))))) /\
    Int16.digit d1 = Some x1 /\ Int16.digit d2 = Some x2 /\
    Int16.digit d3 = Some x3 /\ Int16.digit d4 = Some x4 /\
    Int16.digit d5 = Some x5 /\ Int16.digit d6 = Some x6.
Proof.
  unfold well_formed_color, Str.chars.
  destruct s as [|h [|d1 [|d2 [|d3 [|d4 [|d5 [|d6 [|d7 s]]]]]]]];
    cbn [list_ascii_of_string length forallb];
    rewrite ?andb_false_r; try discriminate.
  intros H. repeat (apply andb_prop in H as [H ?]).
  apply Ascii.eqb_eq in H. subst h.
  unfold is_hex_digit in *.
  destruct (Int16.digit d1) as [x1|] eqn:E1; [|discriminate].
  destruct (Int16.digit d2) as [x2|] eqn:E2; [|discriminate].
  destruct (Int16.digit d3) as [x3|] eqn:E3; [|discriminate].
  destruct (Int16.digit d4) as [x4|] eqn:E4; [|discriminate].
  destruct (Int16.digit d5) as [x5|] eqn:E5; [|discriminate].
  destruct (Int16.digit d6) as [x6|] eqn:E6; [|discriminate].
  exists d1, d2, d3, d4, d5, d6, x1, x2, x3, x4, x5, x6.
  split; [reflexivity|]. repeat (split; [assumption|]). assumption.
Qed.

(** The value of [#RRGGBB]. *)
Lemma parse_hex6 (d1 d2 d3 d4 d5 d6 : ascii) (x1 x2 x3 x4 x5 x6 : Z) :
  Int16.digit d1 = Some x1 -> Int16.digit d2 = Some x2 ->
  Int16.digit d3 = Some x3 -> Int16.digit d4 = Some x4 ->
  Int16.digit d5 = Some x5 -> Int16.digit d6 = Some x6 ->
  parse_color (String "#"%char (String d1 (String d2 (String d3 (String d4
                 (String d5 (String d6 EmptyString)))))))
    = Ok (16 * x1 + x2, 16 * x3 + x4, 16 * x5 + x6).
Proof.
  intros E1 E2 E3 E4 E5 E6.
  destruct (digit_inv d1 x1 E1) as (_ & _ & _ & _ & _ & _ & _ & N1).
  unfold parse_color. cbn [Str.lstrip]. rewrite Ascii.eqb_refl.
  cbn [Str.lstrip]. rewrite N1.
  unfold Str.slice. cbn [substring].
  rewrite (int16_pair d1 d2 x1 x2 E1 E2), (int16_pair d3 d4 x3 x4 E3 E4),
    (int16_pair d5 d6 x5 x6 E5 E6).
  reflexivity.
Qed.

(** X1.  A colour string of the form [#RRGGBB] always parses, to three
    bands between 0 and 255. *)
Theorem well_formed_color_parses (s : string) :
  well_formed_color s = true ->
  exists r g b, parse_color s = Ok (r, g, b) /\
                0 <= r <= 255 /\ 0 <= g <= 255 /\ 0 <= b <= 255.
Proof.
  intros H.
  destruct (well_formed_digits s H)
    as (d1 & d2 & d3 & d4 & d5 & d6 & x1 & x2 & x3 & x4 & x5 & x6
        & -> & E1 & E2 & E3 & E4 & E5 & E6).
  exists (16 * x1 + x2), (16 * x3 + x4), (16 * x5 + x6).
  split; [apply parse_hex6; assumption|].
  destruct (digit_inv d1 x1 E1) as (R1 & _).
  destruct (digit_inv d2 x2 E2) as (R2 & _).
  destruct (digit_inv d3 x3 E3) as (R3 & _).
  destruct (digit_inv d4 x4 E4) as (R4 & _).
  destruct (digit_inv d5 x5 E5) as (R5 & _).
  destruct (digit_inv d6 x6 E6) as (R6 & _).
  lia.
Qed.

Lemma well_formed_color_parses_witness :
  exists r g b, parse_color "#1e90FF" = Ok (r, g, b) /\
                0 <= r <= 255 /\ 0 <= g <= 255 /\ 0 <= b <= 255.
Proof. apply (well_formed_color_parses "#1e90FF"). vm_compute. reflexivity. Defined.

Lemma substring_substring (s : string) :
  forall i n m, (i + n <= m)%nat ->
    substring i n (substring 0 m s) = substring i n s.
Proof.
  induction s as [|a s IH]; intros i n m H.
  - destruct m; destruct i; destruct n; reflexivity.
  - destruct m as [|m].
    + assert (i = 0 /\ n = 0)%nat as [-> ->] by lia. reflexivity.
    + destruct i as [|i].
      * destruct n as [|n]; [reflexivity|].
        cbn [substring]. f_equal. apply (IH 0%nat). lia.
      * cbn [substring]. apply IH. lia.
Qed.

Lemma lstrip_prefix (c : ascii) (s : string) (n : nat) :
  Str.lstrip c (substring 0 n (Str.lstrip c s)) =
  substring 0 n (Str.lstrip c s).
Proof.
  induction s as [|a s IH]; [destruct n; reflexivity|].
  cbn [Str.lstrip]. destruct (Ascii.eqb a c) eqn:E; [exact IH|].
  destruct n as [|n]; [reflexivity|].
  cbn [substring Str.lstrip]. rewrite E. reflexivity.
Qed.

(** X2.  Only the first six characters after the leading [#]s count:
    whatever follows them is never read. *)
Theorem parse_color_reads_six (s : string) :
  parse_color s = parse_color (Str.slice 0 6 (Str.lstrip "#"%char s)).
Proof.
  unfold parse_color at 2. unfold Str.slice.
  rewrite lstrip_prefix.
  rewrite !substring_substring by lia. reflexivity.
Qed.

(** ** The corner matcher (lines 43 to 57) *)

(** X3.  [is_corner_color] answers true exactly for a pixel with at least
    three bands, each of the first three within the threshold of the
    target's; further bands are not read. *)
Theorem is_corner_color_true_iff (px : pixel) (r g b thr : Z) :
  is_corner_color px (r, g, b) thr = Ok true <->
  exists x y z rest,
    px = PxTuple (x :: y :: z :: rest) /\
    Z.abs (x - r) <= thr /\ Z.abs (y - g) <= thr /\ Z.abs (z - b) <= thr.
Proof.
  split.
  - destruct px as [v|[|x [|y [|z rest]]]]; cbn.
    + discriminate.
    + discriminate.
    + destruct (_ <=? _); discriminate.
    + destruct (_ <=? _); [|discriminate]. destruct (_ <=? _); discriminate.
    + destruct (Z.abs (x - r) <=? thr) eqn:E1; [|discriminate].
      destruct (Z.abs (y - g) <=? thr) eqn:E2; [|discriminate].
      destruct (Z.abs (z - b) <=? thr) eqn:E3; [|discriminate].
      intros _. exists x, y, z, rest.
      apply Z.leb_le in E1, E2, E3. auto.
  - intros (x & y & z & rest & -> & H1 & H2 & H3).
    apply Z.leb_le in H1, H2, H3. cbn. rewrite H1, H2, H3. reflexivity.
Qed.

Lemma is_corner_color_mono (px : pixel) (t : rgb) (thr thr' : Z) :
  thr <= thr' ->
  is_corner_color px t thr = Ok true -> is_corner_color px t thr' = Ok true.
Proof.
  destruct t as [[r g] b]. intros Hle.
  destruct px as [v|[|x [|y [|z rest]]]]; cbn; try discriminate.
  - destruct (_ <=? _); discriminate.
  - destruct (_ <=? _); [|discriminate]. destruct (_ <=? _); discriminate.
  - destruct (Z.abs (x - r) <=? thr) eqn:E1; [|discriminate].
    destruct (Z.abs (y - g) <=? thr) eqn:E2; [|discriminate].
    destruct (Z.abs (z - b) <=? thr) eqn:E3; [|discriminate].
    apply Z.leb_le in E1, E2, E3. intros _.
    rewrite !(proj2 (Z.leb_le _ thr')) by lia. reflexivity.
Qed.

Lemma all_of_mono {A} (f g : A -> result bool) (l : list A) :
  (forall x, f x = Ok true -> g x = Ok true) ->
  all_of f l = Ok true -> all_of g l = Ok true.
Proof.
  intros H. induction l as [|x l IH]; [reflexivity|].
  cbn [all_of]. destruct (f x) as [[|]|e] eqn:E; try discriminate.
  rewrite (H x E). exact IH.
Qed.

Lemma corners_match_mono (img : image) (t : rgb) (thr thr' : Z) :
  thr <= thr' ->
  corners_match img t thr = Ok true -> corners_match img t thr' = Ok true.
Proof.
  intros Hle. unfold corners_match.
  destruct (img_size img) as [width height].
  destruct (pixel_access img 0 0) as [c1|e]; [|discriminate].
  destruct (pixel_access img 0 (height - 1)) as [c2|e]; [|discriminate].
  destruct (pixel_access img (width - 1) 0) as [c3|e]; [|discriminate].
  destruct (pixel_access img (width - 1) (height - 1)) as [c4|e];
    [|discriminate].
  cbn [rbind]. apply all_of_mono.
  intros px. apply is_corner_color_mono. exact Hle.
Qed.

(** X4.  A file that passes the corner check at one threshold passes it at
    every larger one. *)
Theorem corner_check_monotone_in_threshold (p : path) (t : rgb)
    (thr thr' : Z) (w : world) :
  thr <= thr' ->
  fst (check_corners_color p t thr w) = Ok true ->
  check_corners_color p t thr' w = (Ok true, w).
Proof.
  intros Hle H. apply check_corners_color_true in H.
  assert (H' : corner_ok (w_fs w) p t thr' = true).
  { revert H. unfold corner_ok.
    destruct (w_fs w !! p) as [[f|l]|]; try discriminate.
    destruct (f_image f) as [img|]; try discriminate.
    destruct (corners_match img t thr) as [[|]|e] eqn:E; try discriminate.
    rewrite (corners_match_mono img t thr thr' Hle E). reflexivity. }
  exact (check_corners_color_passes p t thr' w H').
Qed.

Lemma corner_check_monotone_in_threshold_witness :
  check_corners_color ["source"; "A.png"] (0, 0, 0) 200 scenario_B
    = (Ok true, scenario_B).
Proof.
  apply (corner_check_monotone_in_threshold ["source"; "A.png"] (0, 0, 0)
           10 200 scenario_B).
  - lia.
  - vm_compute. reflexivity.
Defined.

(** X5.  The corner check touches nothing but standard output.  Either it
    returns a boolean, leaves the file system, the messages, the copies
    and the record of listings as they were, and prints at most one line,
    none when it answers true; or the [print] of its handler raises, and
    then that exception escapes and the world is as it was. *)
Theorem corner_check_only_prints (p : path) (t : rgb) (thr : Z) (w : world) :
  (exists b out,
     check_corners_color p t thr w =
       (Ok b, World (w_fs w) (w_stdout w ++ out) (w_dialogs w) (w_copied w)
                    (w_listed w) (w_env w)) /\
     (length out <= 1)%nat /\
     (b = true -> out = []) /\
     (forall e, (p, e) ∈ out -> b = false)) \/
  (exists e,
     print_fails (w_env w) p = Some e /\
     check_corners_color p t thr w = (Raise e, w)).
Proof.
  rewrite check_corners_color_eq.
  destruct (corner_result (w_fs w) p t thr) as [b|caught].
  - left. exists b, []. rewrite app_nil_r.
    split; [destruct w; reflexivity|]. split; [simpl; lia|].
    split; [reflexivity|]. intros e He. inversion He.
  - destruct (print_fails (w_env w) p) as [e|].
    + right. exists e. split; reflexivity.
    + left. exists false, [(p, caught)].
      split; [reflexivity|]. split; [simpl; lia|].
      split; [discriminate|reflexivity].
Qed.

Lemma pixel_access_inside (img : image) (x y : Z) :
  0 <= x < fst (img_size img) -> 0 <= y < snd (img_size img) ->
  pixel_access img x y = Ok (img_data img x y).
Proof.
  intros Hx Hy. unfold pixel_access.
  destruct (img_size img) as [xsize ysize]; simpl in Hx, Hy.
  assert (E1 : (x <? 0) = false) by (apply Z.ltb_ge; lia).
  assert (E2 : (y <? 0) = false) by (apply Z.ltb_ge; lia).
  assert (E3 : (xsize <=? x) = false) by (apply Z.leb_gt; lia).
  assert (E4 : (ysize <=? y) = false) by (apply Z.leb_gt; lia).
  rewrite E1, E2. rewrite E1, E2, E3, E4. reflexivity.
Qed.

(** X6.  An image whose pixels are single numbers (a greyscale or palette
    image) never passes the corner check, whatever the target colour and
    the threshold: subscripting the first corner raises [TypeError]; the
    handler prints it and the answer is false, unless the [print] itself
    raises, and then that exception escapes. *)
Theorem single_band_image_never_matches (w : world) (p : path) (f : file)
    (img : image) (t : rgb) (thr : Z) :
  w_fs w !! p = Some (NFile f) ->
  f_image f = Some img ->
  0 < fst (img_size img) -> 0 < snd (img_size img) ->
  (forall x y, exists v, img_data img x y = PxScalar v) ->
  fst (check_corners_color p t thr w) <> Ok true /\
  match print_fails (w_env w) p with
  | None =>
      check_corners_color p t thr w =
        (Ok false,
         World (w_fs w) (w_stdout w ++ [(p, TypeError)]) (w_dialogs w)
               (w_copied w) (w_listed w) (w_env w))
  | Some e => check_corners_color p t thr w = (Raise e, w)
  end.
Proof.
  intros Hp Himg Hw Hh Hband.
  assert (Hc : corners_match img t thr = Raise TypeError).
  { unfold corners_match.
    pose proof (pixel_access_inside img) as Hin.
    destruct (img_size img) as [width height]; simpl in Hw, Hh, Hin.
    rewrite !Hin by lia. cbn [rbind all_of].
    destruct (Hband 0 0) as [v ->]. reflexivity. }
  rewrite check_corners_color_eq.
  rewrite (corner_result_image _ _ _ _ _ _ Hp Himg), Hc.
  destruct (print_fails (w_env w) p); split;
    try reflexivity; simpl; discriminate.
Qed.

Lemma single_band_image_never_matches_witness :
  fst (check_corners_color ["g.png"] (0, 0, 0) 10
         (world_of [(["g.png"], NFile (picture (PxScalar 0)))])) <> Ok true /\
  check_corners_color ["g.png"] (0, 0, 0) 10
    (world_of [(["g.png"], NFile (picture (PxScalar 0)))]) =
    (Ok false,
     World (w_fs (world_of [(["g.png"], NFile (picture (PxScalar 0)))]))
           ([] ++ [(["g.png"], TypeError)]) [] [] [] plain).
Proof.
  refine (single_band_image_never_matches
            (world_of [(["g.png"], NFile (picture (PxScalar 0)))]) ["g.png"]
            (picture (PxScalar 0)) (solid 4 3 (PxScalar 0)) (0, 0, 0) 10
            _ _ _ _ _).
  - vm_compute. reflexivity.
  - reflexivity.
  - simpl. lia.
  - simpl. lia.
  - intros x y. exists 0. reflexivity.
Defined.

(** X7.  The answer depends on the four corner pixels alone: two images of
    one size that agree there get the same answer, whatever lies
    between. *)
Theorem corners_match_reads_corners_only (img1 img2 : image) (t : rgb)
    (thr : Z) :
  img_size img1 = img_size img2 ->
  (forall x y,
     x = 0 \/ x = fst (img_size img1) - 1 ->
     y = 0 \/ y = snd (img_size img1) - 1 ->
     img_data img1 x y = img_data img2 x y) ->
  corners_match img1 t thr = corners_match img2 t thr.
Proof.
  intros Hsize Hdata.
  assert (Hacc : forall x y,
            x = 0 \/ x = fst (img_size img1) - 1 ->
            y = 0 \/ y = snd (img_size img1) - 1 ->
            pixel_access img1 x y = pixel_access img2 x y).
  { intros x y Hx Hy. unfold pixel_access. rewrite <- Hsize.
    specialize (Hdata x y Hx Hy).
    destruct (img_size img1) as [xsize ysize]; simpl in Hx, Hy, Hdata.
    destruct (x <? 0) eqn:Ex; destruct (y <? 0) eqn:Ey;
      try (rewrite Hdata; reflexivity);
      apply Z.ltb_lt in Ex || apply Z.ltb_lt in Ey.
    - replace (xsize + x <? 0) with true
        by (symmetry; apply Z.ltb_lt; lia). reflexivity.
    - replace (xsize + x <? 0) with true
        by (symmetry; apply Z.ltb_lt; lia). reflexivity.
    - replace (ysize + y <? 0) with true
        by (symmetry; apply Z.ltb_lt; lia).
      rewrite !orb_true_r. reflexivity. }
  unfold corners_match. rewrite <- Hsize.
  destruct (img_size img1) as [width height] eqn:Es; simpl in Hacc.
  rewrite !Hacc by auto. reflexivity.
Qed.

Lemma corners_match_reads_corners_only_witness :
  corners_match (solid 4 3 black) (0, 0, 0) 10 =
  corners_match
    (Image (4, 3) (fun x y => if (x =? 1) && (y =? 1) then white else black))
    (0, 0, 0) 10.
Proof.
  apply (corners_match_reads_corners_only (solid 4 3 black)
           (Image (4, 3)
              (fun x y => if (x =? 1) && (y =? 1) then white else black))
           (0, 0, 0) 10).
  - reflexivity.
  - simpl. intros x y [-> | ->] [-> | ->]; reflexivity.
Defined.

(** ** A run as a whole (lines 59 to 108) *)

(** What any run does to the file system: the missing directory may be
    made, then files are copied. *)
Lemma run_fs (gui : inputs) (w w' : world) (r : result unit) :
  find_and_copy_missing_images gui w = (r, w') ->
  exists fs1, grows (w_fs w) fs1 /\
              frame (source_dir_entry gui) fs1 (w_fs w').
Proof.
  intros H. apply run_outcome in H.
  destruct H as [Hinv|e w1 He|e w1 He Hp
                 |e w1 w2 t pre post n He Hp Hnames Hsel Hcp HF Hd Hc
                 |e w1 w2 t pre post n He Hp Hnames Hv HF Hd Hc
                 |w1 w2 t He Hp Hloop HF Hd Hc].
  - exists (w_fs w). split; [apply grows_refl|apply frame_refl].
  - apply ensure_missing_dir_spec in He as (Hg & _).
    exists (w_fs w1). split; [exact Hg|apply frame_refl].
  - apply ensure_missing_dir_spec in He as (Hg & _).
    exists (w_fs w1). split; [exact Hg|apply frame_refl].
  - apply ensure_missing_dir_spec in He as (Hg & _).
    exists (w_fs w1). split; [exact Hg|exact HF].
  - apply ensure_missing_dir_spec in He as (Hg & _).
    exists (w_fs w1). split; [exact Hg|exact HF].
  - apply ensure_missing_dir_spec in He as (Hg & _).
    exists (w_fs w1). split; [exact Hg|exact HF].
Qed.

(** X8.  No run, however it ends, deletes anything, turns a file into a
    directory or a directory into a file, shortens a listing, or changes
    a file that lies directly in [source_dir]. *)
Theorem run_preserves_what_is_there (gui : inputs) (w w' : world)
    (r : result unit) :
  find_and_copy_missing_images gui w = (r, w') ->
  (forall q, is_Some (w_fs w !! q) -> is_Some (w_fs w' !! q)) /\
  (forall q l, w_fs w !! q = Some (NDir l) ->
     exists l', w_fs w' !! q = Some (NDir (l ++ l'))) /\
  (forall q f, w_fs w !! q = Some (NFile f) ->
     exists f', w_fs w' !! q = Some (NFile f')) /\
  (forall n f, w_fs w !! (source_dir_entry gui ++ [n]) = Some (NFile f) ->
     w_fs w' !! (source_dir_entry gui ++ [n]) = Some (NFile f)).
Proof.
  intros H. apply run_fs in H as (fs1 & [Hfile Hdir] & Hd & Hs & Hl & He).
  assert (Hlist : forall q l, w_fs w !! q = Some (NDir l) ->
            exists l', w_fs w' !! q = Some (NDir (l ++ l'))).
  { intros q l Hq. destruct (Hdir q l Hq) as [l1 H1].
    destruct (Hl q _ H1) as [l2 H2]. exists (l1 ++ l2).
    rewrite H2, app_assoc. reflexivity. }
  assert (Hkeep : forall q f, w_fs w !! q = Some (NFile f) ->
            exists f', w_fs w' !! q = Some (NFile f')).
  { intros q f Hq. apply Hfile in Hq.
    pose proof (is_dir_NFile _ _ _ Hq) as Hnd. rewrite <- Hd in Hnd.
    destruct (He q (ex_intro _ _ Hq)) as [[f'|l] Hq'].
    - eauto.
    - rewrite (is_dir_NDir _ _ _ Hq') in Hnd. discriminate. }
  split; [|split; [exact Hlist|split; [exact Hkeep|]]].
  - intros q [[f|l] Hq].
    + destruct (Hkeep q f Hq) as [f' ->]. eauto.
    + destruct (Hlist q l Hq) as [l' ->]. eauto.
  - intros n f Hq. apply Hfile in Hq. rewrite <- Hq. apply Hs.
    exact (is_dir_NFile _ _ _ Hq).
Qed.

Lemma run_preserves_what_is_there_witness :
  (forall q, is_Some (w_fs scenario_C !! q) ->
     is_Some (w_fs (world_after (find_and_copy_missing_images
                                   (gui_B false "#000000")) scenario_C) !! q)) /\
  (forall q l, w_fs scenario_C !! q = Some (NDir l) ->
     exists l', w_fs (world_after (find_and_copy_missing_images
                                     (gui_B false "#000000")) scenario_C) !! q
                = Some (NDir (l ++ l'))) /\
  (forall q f, w_fs scenario_C !! q = Some (NFile f) ->
     exists f', w_fs (world_after (find_and_copy_missing_images
                                     (gui_B false "#000000")) scenario_C) !! q
                = Some (NFile f')) /\
  (forall n f, w_fs scenario_C !! (["source"] ++ [n]) = Some (NFile f) ->
     w_fs (world_after (find_and_copy_missing_images (gui_B false "#000000"))
             scenario_C) !! (["source"] ++ [n]) = Some (NFile f)).
Proof.
  apply (run_preserves_what_is_there (gui_B false "#000000") scenario_C
           (world_after (find_and_copy_missing_images (gui_B false "#000000"))
              scenario_C)
           (Raise IsADirectoryError)).
  vm_compute. reflexivity.
Defined.

(** X9.  Every copy a run makes, however the run ends, takes a file listed in
    [source_dir] to [missing_dir] under its own name (inside the
    directory of that name, if [missing_dir] has one); and when the run
    ends, the destination holds what the source file held when the run
    began. *)
Theorem copies_are_in_place (gui : inputs) (w w' : world) (r : result unit) :
  find_and_copy_missing_images gui w = (r, w') ->
  exists cs, w_copied w' = w_copied w ++ cs /\
    forall s d, (s, d) ∈ cs ->
      exists n f,
        s = source_dir_entry gui ++ [n] /\
        (d = missing_dir_entry gui ++ [n] \/
         d = missing_dir_entry gui ++ [n; n]) /\
        w_fs w !! s = Some (NFile f) /\
        w_fs w' !! d = Some (NFile f).
Proof.
  intros H.
  assert (Hnone : w_copied w' = w_copied w ->
            exists cs, w_copied w' = w_copied w ++ cs /\
              forall s d, (s, d) ∈ cs ->
                exists n f,
                  s = source_dir_entry gui ++ [n] /\
                  (d = missing_dir_entry gui ++ [n] \/
                   d = missing_dir_entry gui ++ [n; n]) /\
                  w_fs w !! s = Some (NFile f) /\
                  w_fs w' !! d = Some (NFile f)).
  { intros E. exists []. split; [rewrite app_nil_r; exact E|].
    intros s d Hin. inversion Hin. }
  destruct (is_dir (w_fs w) (source_dir_entry gui)) eqn:Hs;
    [|rewrite run_invalid_eq in H by auto; injection H as <- <-;
      apply Hnone; reflexivity].
  destruct (is_dir (w_fs w) (upscaled_dir_entry gui)) eqn:Hu;
    [|rewrite run_invalid_eq in H by auto; injection H as <- <-;
      apply Hnone; reflexivity].
  rewrite (run_valid_eq gui w Hs Hu) in H.
  destruct (ensure_missing_dir _ w) as [re w1] eqn:He.
  pose proof (ensure_missing_dir_spec _ _ _ _ He)
    as (Hg & (_ & Hdl & Hcp & _) & _).
  destruct re as [[]|e]; [|injection H as <- <-; apply Hnone; exact Hcp].
  destruct (parse_color _) as [t|e] eqn:Hp;
    [|injection H as <- <-; apply Hnone; exact Hcp].
  pose proof (grows_is_dir _ _ _ Hg Hs) as Hs1.
  pose proof (grows_is_dir _ _ _ Hg Hu) as Hu1.
  apply is_dir_true in Hs1 as [names Hnames].
  apply is_dir_true in Hu1 as [ups Hups].
  rewrite Hups, Hnames in H.
  destruct (for_each _ _ _ _) as [rl w2] eqn:Hloop.
  pose proof (for_each_spec (source_dir_entry gui) (missing_dir_entry gui)
                (check_var gui) t
                (snapshot (listing w1 (upscaled_dir_entry gui))) (w_fs w1)
                (w_env w1) (listing w1 (source_dir_entry gui)) 0
                (listed w1 [upscaled_dir_entry gui; source_dir_entry gui])
                rl w2 (frame_refl _ _) eq_refl Hloop)
    as (HF & Hdlg & _ & _ & Hr).
  cbn [listed w_copied] in Hr.
  destruct rl as [c|e].
  - destruct Hr as (_ & Hcop & Hkept & _). injection H as <- <-.
    eexists. split; [cbn [add_dialog w_copied]; rewrite Hcop, Hcp; reflexivity|].
    intros s d Hin.
    destruct (copies_in_place gui w w1 w2 t _ _ Hg Hkept s d Hin)
      as (n & f & _ & -> & Hd & _ & Hsf & Hdf).
    exists n, f. auto.
  - destruct Hr as (pre & n & post & _ & Hcop & Hkept & _).
    injection H as <- <-.
    eexists. split; [rewrite Hcop, Hcp; reflexivity|].
    intros s d Hin.
    destruct (copies_in_place gui w w1 w2 t _ _ Hg Hkept s d Hin)
      as (m & f & _ & -> & Hd & _ & Hsf & Hdf).
    exists m, f. auto.
Qed.

Lemma copies_are_in_place_witness :
  exists cs,
    w_copied (world_after (find_and_copy_missing_images (gui_B true "#000000"))
                scenario_B) = w_copied scenario_B ++ cs /\
    forall s d, (s, d) ∈ cs ->
      exists n f,
        s = ["source"] ++ [n] /\
        (d = ["missing"] ++ [n] \/ d = ["missing"] ++ [n; n]) /\
        w_fs scenario_B !! s = Some (NFile f) /\
        w_fs (world_after (find_and_copy_missing_images
                             (gui_B true "#000000")) scenario_B) !! d
          = Some (NFile f).
Proof.
  apply (copies_are_in_place (gui_B true "#000000") scenario_B
           (world_after (find_and_copy_missing_images (gui_B true "#000000"))
              scenario_B) (Ok tt)).
  vm_compute. reflexivity.
Defined.

(** X10.  Pointing the tool at one directory as both [source_dir] and
    [upscaled_dir] copies nothing: every entry has its own stem in the
    snapshot. *)
Theorem same_directory_copies_nothing (gui : inputs) (w w' : world)
    (r : result unit) :
  source_dir_entry gui = upscaled_dir_entry gui ->
  find_and_copy_missing_images gui w = (r, w') ->
  w_copied w' = w_copied w.
Proof.
  intros Hsame Hrun.
  destruct (run_copies_selected gui w w' r Hrun) as (cs & Hcs & Hsel).
  destruct cs as [|[s d] cs]; [rewrite app_nil_r in Hcs; exact Hcs|].
  exfalso.
  destruct (Hsel s d) as (w1 & t & ups & names & n & _ & _ & Hups & Hnames
                          & Hn & _ & Hm); [left|].
  rewrite Hsame, Hups in Hnames. injection Hnames as <-.
  apply selected_true in Hm as [Hm _]. apply Hm.
  exact (in_snapshot ups n n Hn eq_refl).
Qed.

Lemma same_directory_copies_nothing_witness :
  w_copied (world_after (find_and_copy_missing_images
                           (Inputs ["source"] ["source"] ["missing"] false
                                   "#000000")) scenario_B)
    = w_copied scenario_B.
Proof.
  apply (same_directory_copies_nothing
           (Inputs ["source"] ["source"] ["missing"] false "#000000")
           scenario_B
           (world_after (find_and_copy_missing_images
                           (Inputs ["source"] ["source"] ["missing"] false
                                   "#000000")) scenario_B)
           (Ok tt)).
  - reflexivity.
  - vm_compute. reflexivity.
Defined.

(** X11.  A run that returns shows exactly one message, and the message tells
    what was done: the error when a directory is invalid, [No files were
    flagged] exactly when validation passed and nothing was copied, and
    otherwise [Flagged n files] with [n], at least one, the number of
    copies made. *)
Theorem returning_run_reports_its_copies (gui : inputs) (w w' : world) :
  find_and_copy_missing_images gui w = (Ok tt, w') ->
  exists d cs,
    w_dialogs w' = w_dialogs w ++ [d] /\
    w_copied w' = w_copied w ++ cs /\
    let valid := is_dir (w_fs w) (source_dir_entry gui)
                 && is_dir (w_fs w) (upscaled_dir_entry gui) in
    match d with
    | ErrInvalidDirectory => valid = false /\ cs = []
    | InfoNoneMissing => valid = true /\ cs = []
    | InfoFlagged n => valid = true /\ n = Z.of_nat (length cs) /\ 1 <= n
    end.
Proof.
  intros Hrun.
  destruct (is_dir (w_fs w) (source_dir_entry gui)) eqn:Hs; cycle 1.
  { rewrite run_invalid_eq in Hrun by auto. injection Hrun as <-.
    exists ErrInvalidDirectory, []. simpl. rewrite app_nil_r. auto. }
  destruct (is_dir (w_fs w) (upscaled_dir_entry gui)) eqn:Hu; cycle 1.
  { rewrite run_invalid_eq in Hrun by auto. injection Hrun as <-.
    exists ErrInvalidDirectory, []. simpl. rewrite app_nil_r. auto. }
  apply run_outcome in Hrun.
  inversion Hrun as [Hinv| | | | |w1 w2 t He Hp Hloop HF Hd Hc].
  { destruct Hinv; congruence. }
  subst.
  set (cs := copies_of (source_dir_entry gui) (missing_dir_entry gui)
               (check_var gui) t
               (snapshot (listing w1 (upscaled_dir_entry gui))) (w_fs w1)
               (listing w1 (source_dir_entry gui))) in *.
  exists (summary (Z.of_nat (length cs))), cs.
  simpl. rewrite Hd. split; [reflexivity|]. split; [exact Hc|].
  unfold summary. destruct (Z.of_nat (length cs) =? 0) eqn:E.
  - apply Z.eqb_eq in E. split; [reflexivity|].
    destruct cs; [reflexivity|simpl in E; lia].
  - apply Z.eqb_neq in E. split; [reflexivity|]. split; [reflexivity|lia].
Qed.

Lemma returning_run_reports_its_copies_witness :
  exists d cs,
    w_dialogs (world_after (find_and_copy_missing_images (gui_B true "#000000"))
                 scenario_B) = w_dialogs scenario_B ++ [d] /\
    w_copied (world_after (find_and_copy_missing_images (gui_B true "#000000"))
                scenario_B) = w_copied scenario_B ++ cs /\
    match d with
    | ErrInvalidDirectory =>
        is_dir (w_fs scenario_B) ["source"]
        && is_dir (w_fs scenario_B) ["upscaled"] = false /\ cs = []
    | InfoNoneMissing =>
        is_dir (w_fs scenario_B) ["source"]
        && is_dir (w_fs scenario_B) ["upscaled"] = true /\ cs = []
    | InfoFlagged n =>
        is_dir (w_fs scenario_B) ["source"]
        && is_dir (w_fs scenario_B) ["upscaled"] = true /\
        n = Z.of_nat (length cs) /\ 1 <= n
    end.
Proof.
  apply (returning_run_reports_its_copies (gui_B true "#000000") scenario_B
           (world_after (find_and_copy_missing_images (gui_B true "#000000"))
              scenario_B)).
  vm_compute. reflexivity.
Defined.

(** X12.  A run that raises had passed validation, and shows no message at
    all: neither the error nor a summary of the copies it made before. *)
Theorem raising_run_shows_nothing (gui : inputs) (w w' : world) (e : exn) :
  find_and_copy_missing_images gui w = (Raise e, w') ->
  w_dialogs w' = w_dialogs w /\
  is_dir (w_fs w) (source_dir_entry gui) = true /\
  is_dir (w_fs w) (upscaled_dir_entry gui) = true.
Proof.
  intros Hrun.
  destruct (is_dir (w_fs w) (source_dir_entry gui)) eqn:Hs;
    [|rewrite run_invalid_eq in Hrun by auto; discriminate].
  destruct (is_dir (w_fs w) (upscaled_dir_entry gui)) eqn:Hu;
    [|rewrite run_invalid_eq in Hrun by auto; discriminate].
  split; [|auto].
  apply run_outcome in Hrun.
  inversion Hrun as [|e1 w1 He|e1 w1 He Hp
                     |e1 w1 w2 t pre post n He Hp Hnames Hsel Hcp HF Hd Hc
                     |e1 w1 w2 t pre post n He Hp Hnames Hv HF Hd Hc|]; subst.
  - apply ensure_missing_dir_spec in He as (_ & (_ & Hd & _) & _). exact Hd.
  - apply ensure_missing_dir_spec in He as (_ & (_ & Hd & _) & _). exact Hd.
  - exact Hd.
  - exact Hd.
Qed.

Lemma raising_run_shows_nothing_witness :
  w_dialogs (world_after (find_and_copy_missing_images (gui_B false "#000000"))
               scenario_C) = w_dialogs scenario_C /\
  is_dir (w_fs scenario_C) ["source"] = true /\
  is_dir (w_fs scenario_C) ["upscaled"] = true.
Proof.
  apply (raising_run_shows_nothing (gui_B false "#000000") scenario_C
           (world_after (find_and_copy_missing_images (gui_B false "#000000"))
              scenario_C)
           IsADirectoryError).
  vm_compute. reflexivity.
Defined.

(** ** The missing directory (lines 69 to 71) and [list_files] *)

(** X14.  When [missing_dir] is absent and its parent is a directory, the
    run's first step makes it: an empty directory, entered in its
    parent, nothing else being touched; [list_files] then finds it empty,
    and reports for the parent the names it had and the new one, in
    the order the system chooses. *)
Theorem missing_dir_is_created_empty (parent : path) (name : string)
    (l : list string) (w : world) :
  w_fs w !! parent = Some (NDir l) ->
  w_fs w !! (parent ++ [name]) = None ->
  let w' := World (<[parent ++ [name] := NDir []]>
                     (<[parent := NDir (l ++ [name])]> (w_fs w)))
                  (w_stdout w) (w_dialogs w) (w_copied w) (w_listed w)
                  (w_env w) in
  ensure_missing_dir (parent ++ [name]) w = (Ok tt, w') /\
  list_files (parent ++ [name]) w' = (Ok [], listed w' [parent ++ [name]]) /\
  exists names,
    list_files parent w' = (Ok names, listed w' [parent]) /\
    (forall n, n ∈ names <-> n ∈ l \/ n = name) /\
    length names = S (length l).
Proof.
  intros Hpar Hnew w'.
  assert (Hne : parent <> parent ++ [name]).
  { intros E. symmetry in E. exact (snoc_neq_self _ _ E). }
  split; [|split].
  - subst w'. unfold ensure_missing_dir, os_path_exists, os_makedirs.
    unfold bind at 1. unfold get_fs at 1. unfold bind at 1. unfold ret at 1.
    rewrite Hnew.
    rewrite bool_decide_eq_false_2 by (intros [x Hx]; discriminate).
    cbn [negb]. rewrite rev_unit. cbn [makedirs_rev].
    unfold os_path_exists. rewrite rev_involutive.
    change (rev (name :: rev parent)) with (rev (rev parent) ++ [name]).
    rewrite rev_involutive.
    unfold try_except, os_mkdir, link. unfold_M.
    rewrite Hpar.
    rewrite bool_decide_eq_true_2 by eauto. cbn [negb].
    rewrite Hnew.
    destruct (parent ++ [name]) as [|a p'] eqn:Ep.
    { destruct parent; discriminate. }
    rewrite <- Ep. unfold os_path_dirname, os_path_basename.
    rewrite removelast_snoc, last_snoc, Hpar. reflexivity.
  - assert (E : w_fs w' !! (parent ++ [name]) = Some (NDir []))
      by (subst w'; cbn [w_fs]; apply lookup_insert_eq).
    unfold list_files. rewrite (os_listdir_eq _ _ _ E).
    unfold listing. rewrite E. reflexivity.
  - assert (E : w_fs w' !! parent = Some (NDir (l ++ [name]))).
    { subst w'. cbn [w_fs].
      rewrite lookup_insert_ne by (intros E; apply Hne; symmetry; exact E).
      apply lookup_insert_eq. }
    exists (listing w' parent).
    unfold list_files. rewrite (os_listdir_eq _ _ _ E).
    split; [reflexivity|].
    pose proof (listing_perm w' parent _ E) as Hperm.
    split.
    + intros n. rewrite Hperm, elem_of_app, list_elem_of_singleton.
      reflexivity.
    + rewrite Hperm, length_app. simpl. lia.
Qed.

Lemma missing_dir_is_created_empty_witness :
  w_fs (world_after (ensure_missing_dir ([] ++ ["missing"])) scenario_A)
    !! ["missing"] = Some (NDir []) /\
  list_files ([] ++ ["missing"])
    (world_after (ensure_missing_dir ([] ++ ["missing"])) scenario_A)
    = (Ok [],
       listed (world_after (ensure_missing_dir ([] ++ ["missing"])) scenario_A)
              [[] ++ ["missing"]]).
Proof.
  destruct (missing_dir_is_created_empty [] "missing" ["source"; "upscaled"]
              scenario_A) as (He & Hl & _).
  - vm_compute. reflexivity.
  - vm_compute. reflexivity.
  - unfold world_after. rewrite He. cbn [snd w_fs].
    split; [apply lookup_insert_eq|exact Hl].
Defined.

(** ** The matching key (lines 79, 85 and 86) *)

Lemma lower_char_eqb_dot (a : ascii) :
  Ascii.eqb (Str.lower_char a) "."%char = Ascii.eqb a "."%char.
Proof. destruct a as [[] [] [] [] [] [] [] []]; vm_compute; reflexivity. Qed.

Lemma lower_char_eqb_sep (a : ascii) :
  Ascii.eqb (Str.lower_char a) "/"%char = Ascii.eqb a "/"%char.
Proof. destruct a as [[] [] [] [] [] [] [] []]; vm_compute; reflexivity. Qed.

Lemma lower_char_idem (a : ascii) :
  Str.lower_char (Str.lower_char a) = Str.lower_char a.
Proof. destruct a as [[] [] [] [] [] [] [] []]; vm_compute; reflexivity. Qed.

Lemma lower_idem (s : string) : Str.lower (Str.lower s) = Str.lower s.
Proof.
  induction s as [|a s IH]; [reflexivity|].
  cbn [Str.lower]. rewrite lower_char_idem, IH. reflexivity.
Qed.

Lemma rfind_from_lower (c : ascii) (s : string) :
  (forall a, Ascii.eqb (Str.lower_char a) c = Ascii.eqb a c) ->
  forall i last,
    Str.rfind_from i (Str.lower s) c last = Str.rfind_from i s c last.
Proof.
  intros Hc. induction s as [|a s IH]; intros i last; [reflexivity|].
  cbn [Str.lower Str.rfind_from]. rewrite Hc. apply IH.
Qed.

Lemma get_lower (s : string) :
  forall n, String.get n (Str.lower s) =
            option_map Str.lower_char (String.get n s).
Proof.
  induction s as [|a s IH]; intros n; [reflexivity|].
  destruct n as [|n]; [reflexivity|]. cbn [Str.lower String.get]. apply IH.
Qed.

Lemma only_dots_lower (p : string) (steps : nat) :
  forall i, only_dots (Str.lower p) i steps = only_dots p i steps.
Proof.
  induction steps as [|steps IH]; intros i; [reflexivity|].
  cbn [only_dots]. rewrite get_lower.
  destruct (String.get i p) as [a|]; [|reflexivity].
  cbn [option_map]. rewrite lower_char_eqb_dot, IH. reflexivity.
Qed.

Lemma substring_lower (s : string) :
  forall i n, substring i n (Str.lower s) = Str.lower (substring i n s).
Proof.
  induction s as [|a s IH]; intros i n.
  - destruct i; destruct n; reflexivity.
  - destruct i as [|i]; destruct n as [|n]; cbn [Str.lower substring];
      rewrite ?IH; reflexivity.
Qed.

Lemma length_lower (s : string) :
  String.length (Str.lower s) = String.length s.
Proof.
  induction s as [|a s IH]; [reflexivity|].
  cbn [Str.lower String.length]. rewrite IH. reflexivity.
Qed.

(** [splitext] and [lower] commute. *)
Lemma splitext_lower (p : string) :
  splitext (Str.lower p) =
  (Str.lower (fst (splitext p)), Str.lower (snd (splitext p))).
Proof.
  unfold splitext, Str.rfind, Str.slice.
  rewrite (rfind_from_lower "/"%char p lower_char_eqb_sep),
    (rfind_from_lower "."%char p lower_char_eqb_dot).
  destruct (_ <? _); [|reflexivity].
  rewrite only_dots_lower.
  destruct (only_dots _ _ _); [reflexivity|].
  rewrite length_lower, !substring_lower. reflexivity.
Qed.

(** X16.  Names that differ only by the case of their letters, in the stem or
    in the extension, have the same key: the matching is
    case-insensitive. *)
Theorem key_ignores_case (a b : string) :
  Str.lower a = Str.lower b -> base_name_lower a = base_name_lower b.
Proof.
  intros H. unfold base_name_lower.
  change (Str.lower (fst (splitext a)))
    with (fst (Str.lower (fst (splitext a)), Str.lower (snd (splitext a)))).
  change (Str.lower (fst (splitext b)))
    with (fst (Str.lower (fst (splitext b)), Str.lower (snd (splitext b)))).
  rewrite <- !splitext_lower, H. reflexivity.
Qed.

Lemma key_ignores_case_witness :
  base_name_lower "Holiday.PNG" = base_name_lower "hOLIDAY.png".
Proof.
  apply (key_ignores_case "Holiday.PNG" "hOLIDAY.png").
  vm_compute. reflexivity.
Defined.

Lemma append_cons (a : ascii) (s t : string) :
  (String a s ++ t)%string = String a (s ++ t)%string.
Proof. reflexivity. Qed.

Lemma append_nil_r (s : string) : (s ++ EmptyString)%string = s.
Proof.
  induction s as [|a s IH]; [reflexivity|].
  rewrite append_cons, IH. reflexivity.
Qed.

Lemma substring_whole (s : string) :
  forall n, (String.length s <= n)%nat -> substring 0 n s = s.
Proof.
  induction s as [|a s IH]; intros n H; [destruct n; reflexivity|].
  destruct n as [|n]; [simpl in H; lia|].
  cbn [substring]. rewrite IH by (simpl in H; lia). reflexivity.
Qed.

Lemma substring_cut (s : string) :
  forall d n, (String.length s <= n)%nat ->
    (substring 0 d s ++ substring d n s)%string = s.
Proof.
  induction s as [|a s IH]; intros d n H.
  - destruct d; destruct n; reflexivity.
  - destruct d as [|d].
    + change (substring 0 0 (String a s)) with EmptyString.
      change (EmptyString ++ substring 0 n (String a s))%string
        with (substring 0 n (String a s)).
      apply substring_whole. exact H.
    + cbn [substring]. rewrite append_cons, IH by (simpl in H; lia).
      reflexivity.
Qed.

Lemma rfind_from_found (c : ascii) (s : string) :
  forall i last,
    Str.rfind_from i s c last = last \/
    (i <= Str.rfind_from i s c last /\
     String.get (Z.to_nat (Str.rfind_from i s c last - i)) s = Some c).
Proof.
  induction s as [|a s IH]; intros i last; [left; reflexivity|].
  cbn [Str.rfind_from].
  destruct (Ascii.eqb a c) eqn:E.
  - apply Ascii.eqb_eq in E. subst a.
    destruct (IH (i + 1) i) as [H|[H1 H2]].
    + right. rewrite H, Z.sub_diag. split; [lia|reflexivity].
    + right. split; [lia|].
      replace (Str.rfind_from (i + 1) s c i - i)
        with (Z.succ (Str.rfind_from (i + 1) s c i - (i + 1))) by lia.
      rewrite Z2Nat.inj_succ by lia. exact H2.
  - destruct (IH (i + 1) last) as [H|[H1 H2]]; [left; exact H|].
    right. split; [lia|].
    replace (Str.rfind_from (i + 1) s c last - i)
      with (Z.succ (Str.rfind_from (i + 1) s c last - (i + 1))) by lia.
    rewrite Z2Nat.inj_succ by lia. exact H2.
Qed.

Lemma substring_from_get (s : string) :
  forall d n c, String.get d s = Some c -> (0 < n)%nat ->
    exists rest, substring d n s = String c rest.
Proof.
  induction s as [|a s IH]; intros d n c H Hn; [destruct d; discriminate|].
  destruct d as [|d].
  - injection H as ->. destruct n as [|n]; [lia|]. cbn [substring]. eauto.
  - cbn [substring]. apply IH; assumption.
Qed.

(** X17.  The two parts [splitext] returns make up the name again, and the
    extension is empty or begins with the period. *)
Theorem splitext_parts (p : string) :
  (fst (splitext p) ++ snd (splitext p))%string = p /\
  (snd (splitext p) = EmptyString \/
   exists rest, snd (splitext p) = String "."%char rest).
Proof.
  unfold splitext, Str.rfind, Str.slice.
  destruct (_ <? _) eqn:Elt; [|split; [apply append_nil_r|left; reflexivity]].
  destruct (only_dots _ _ _);
    [split; [apply append_nil_r|left; reflexivity]|].
  cbn [fst snd]. split; [apply substring_cut; lia|].
  right. apply Z.ltb_lt in Elt.
  pose proof (rfind_from_ge p "/"%char 0 (-1) ltac:(lia)) as Hsep.
  destruct (rfind_from_found "."%char p 0 (-1)) as [H|[H1 H2]]; [lia|].
  rewrite Z.sub_0_r in H2.
  destruct p as [|a p]; [discriminate|].
  eapply substring_from_get; [exact H2|simpl; lia].
Qed.

(** ** The callbacks of the buttons (lines 110 to 122) *)

Lemma substring_none (s : string) (i : nat) : substring i 0 s = EmptyString.
Proof.
  revert i. induction s as [|a s IH]; intros [|i]; try reflexivity.
  cbn [substring]. apply IH.
Qed.

(** Deleting from 0 to ["end"] and inserting at 0 replaces the text. *)
Lemma entry_replace (s text : string) :
  Entry.insert 0 s (Entry.delete 0 (Entry.end_index text) text) = s.
Proof.
  unfold Entry.delete, Entry.end_index. rewrite Nat.sub_diag.
  rewrite !substring_none.
  change (EmptyString ++ EmptyString)%string with EmptyString.
  unfold Entry.insert. cbn [substring String.length].
  change (EmptyString ++ s ++ EmptyString)%string
    with (s ++ EmptyString)%string.
  apply append_nil_r.
Qed.

(** X18.  Choosing a directory replaces whatever the entry held, old text and
    all; cancelling the dialog leaves the entry as it was. *)
Theorem select_directory_replaces_or_keeps (directory entry : string) :
  select_directory directory entry =
    if truthy directory then directory else entry.
Proof.
  unfold select_directory. destruct (truthy directory); [|reflexivity].
  apply entry_replace.
Qed.

(** X19.  A colour picked in the chooser, which answers [#rrggbb], replaces
    the entry's text by a string the run always parses, to bands between
    0 and 255; cancelling leaves the entry as it was. *)
Theorem chosen_color_always_parses (picked : option rgb) (code old : string) :
  well_formed_color code = true ->
  choose_color (picked, Some code) old = code /\
  choose_color (None, None) old = old /\
  exists r g b,
    parse_color (choose_color (picked, Some code) old) = Ok (r, g, b) /\
    0 <= r <= 255 /\ 0 <= g <= 255 /\ 0 <= b <= 255.
Proof.
  intros Hwf.
  assert (E : choose_color (picked, Some code) old = code).
  { unfold choose_color. cbn [snd].
    destruct code as [|c code]; [discriminate|].
    cbn [truthy]. apply entry_replace. }
  split; [exact E|]. split; [reflexivity|].
  rewrite E.
  destruct (well_formed_digits code Hwf)
    as (d1 & d2 & d3 & d4 & d5 & d6 & x1 & x2 & x3 & x4 & x5 & x6
        & -> & E1 & E2 & E3 & E4 & E5 & E6).
  rewrite (parse_hex6 d1 d2 d3 d4 d5 d6 x1 x2 x3 x4 x5 x6) by assumption.
  exists (16 * x1 + x2), (16 * x3 + x4), (16 * x5 + x6).
  split; [reflexivity|].
  destruct (digit_inv d1 x1 E1) as (R1 & _).
  destruct (digit_inv d2 x2 E2) as (R2 & _).
  destruct (digit_inv d3 x3 E3) as (R3 & _).
  destruct (digit_inv d4 x4 E4) as (R4 & _).
  destruct (digit_inv d5 x5 E5) as (R5 & _).
  destruct (digit_inv d6 x6 E6) as (R6 & _).
  lia.
Qed.

Lemma chosen_color_always_parses_witness :
  choose_color (Some (30, 144, 255), Some "#1e90ff") "#000000" = "#1e90ff" /\
  choose_color (None, None) "#000000" = "#000000" /\
  exists r g b,
    parse_color (choose_color (Some (30, 144, 255), Some "#1e90ff") "#000000")
      = Ok (r, g, b) /\
    0 <= r <= 255 /\ 0 <= g <= 255 /\ 0 <= b <= 255.
Proof.
  apply (chosen_color_always_parses (Some (30, 144, 255)) "#1e90ff" "#000000").
  vm_compute. reflexivity.
Defined.

(** ** What a run can raise *)

Lemma os_mkdir_raises (p : path) (w w' : world) (e : exn) :
  os_mkdir p w = (Raise e, w') -> is_os_error e = true.
Proof.
  unfold os_mkdir, link. unfold_M.
  destruct (w_fs w !! p); [intros H; injection H as <- _; reflexivity|].
  destruct p as [|a p']; [intros H; injection H as <- _; reflexivity|].
  destruct (w_fs w !! os_path_dirname (a :: p')) as [[f|l]|];
    intros H; try discriminate; injection H as <- _; reflexivity.
Qed.

Lemma mkdir_step_raises (name : path) (w w' : world) (e : exn) :
  try_except (os_mkdir name)
    (fun e => let* d := os_path_isdir name in
              if negb d then raise e else ret tt) w = (Raise e, w') ->
  is_os_error e = true.
Proof.
  unfold try_except.
  destruct (os_mkdir name w) as [[u|e1] w1] eqn:Hmk; [discriminate|].
  apply os_mkdir_raises in Hmk.
  unfold os_path_isdir. unfold_M.
  destruct (negb _); intros H; [|discriminate].
  injection H as <- _. exact Hmk.
Qed.

Lemma makedirs_rev_raises (rname : list string) :
  forall (w w' : world) (e : exn),
    makedirs_rev rname w = (Raise e, w') -> is_os_error e = true.
Proof.
  induction rname as [|tail rhead IH]; intros w w' e H.
  - cbn [makedirs_rev] in H. unfold bind at 1, ret at 1 in H.
    exact (mkdir_step_raises _ _ _ _ H).
  - cbn [makedirs_rev] in H. unfold bind at 1 in H.
    match type of H with
    | context [match ?m w with _ => _ end] =>
        destruct (m w) as [[u|e1] w1] eqn:Hhead
    end.
    + exact (mkdir_step_raises _ _ _ _ H).
    + injection H as <- _. revert Hhead.
      unfold os_path_exists, try_except. unfold_M.
      destruct (negb _); [|discriminate].
      destruct (makedirs_rev rhead w) as [[u'|e'] w2] eqn:Hrec;
        [discriminate|].
      apply IH in Hrec.
      destruct e'; intros E; inversion E; subst; exact Hrec.
Qed.

Lemma ensure_missing_dir_raises (missing : path) (w w' : world) (e : exn) :
  ensure_missing_dir missing w = (Raise e, w') -> is_os_error e = true.
Proof.
  unfold ensure_missing_dir, os_path_exists, os_makedirs.
  unfold bind at 1. unfold get_fs at 1. unfold bind at 1. unfold ret at 1.
  destruct (negb _); [apply makedirs_rev_raises|discriminate].
Qed.

Lemma shutil_copy_raises (src dst0 : path) (w w' : world) (e : exn) :
  shutil_copy src dst0 w = (Raise e, w') -> is_os_error e = true.
Proof.
  unfold shutil_copy, shutil_copyfile, shutil_copymode, os_path_isdir, link.
  unfold_M.
  intros H. repeat case_match; simplify_eq; reflexivity.
Qed.

Lemma print_fails_cases (env : environment) (p : path) (e : exn) :
  print_fails env p = Some e -> e = ValueError \/ e = UnicodeEncodeError.
Proof.
  unfold print_fails. destruct (stdout_closed env); [intros [= <-]; auto|].
  destruct (forallb _ _); [discriminate|intros [= <-]; auto].
Qed.

Lemma verdict_print_raises (src : path) (check : bool) (t : rgb)
    (snap : gset string) (fs : gmap path node) (env : environment)
    (n : string) (e : exn) :
  verdict_of src check t snap fs env n = PrintRaises e ->
  check = true /\ print_fails env (src ++ [n]) = Some e.
Proof.
  unfold verdict_of. destruct (bool_decide _); [discriminate|].
  destruct check; [|discriminate].
  destruct (corner_result _ _ _ _) as [[|]|caught]; try discriminate.
  destruct (print_fails _ _) as [e'|]; [|discriminate].
  intros [= <-]. auto.
Qed.

(** X13.  An exception that escapes a run is an error of the file system,
    from making the missing directory or from a copy; or the
    [ValueError] of the colour string, raised before anything is copied;
    or, with the corner check on, what the [print] of the corner check
    raised on the line for some entry: [ValueError] on a closed output,
    [UnicodeEncodeError] on a name the output cannot encode.  What the
    corner check catches ([TypeError], [IndexError], an unreadable
    image) does not escape. *)
Theorem run_raises_os_error_or_bad_color (gui : inputs) (w w' : world)
    (e : exn) :
  find_and_copy_missing_images gui w = (Raise e, w') ->
  is_os_error e = true \/
  (e = ValueError /\
   parse_color (color_entry gui) = Raise ValueError /\
   ensure_missing_dir (missing_dir_entry gui) w = (Ok tt, w') /\
   w_copied w' = w_copied w) \/
  (check_var gui = true /\
   (e = ValueError \/ e = UnicodeEncodeError) /\
   exists n, print_fails (w_env w) (source_dir_entry gui ++ [n]) = Some e).
Proof.
  intros Hrun. apply run_outcome in Hrun.
  inversion Hrun as [|e1 w1 He|e1 w1 He Hp
                     |e1 w1 w2 t pre post n He Hp Hnames Hsel Hcp HF Hd Hc
                     |e1 w1 w2 t pre post n He Hp Hnames Hv HF Hd Hc|]; subst.
  - left. exact (ensure_missing_dir_raises _ _ _ _ He).
  - right. left. pose proof (parse_color_raises _ _ Hp) as ->.
    split; [reflexivity|]. split; [exact Hp|]. split; [exact He|].
    apply ensure_missing_dir_spec in He as (_ & (_ & _ & Hc & _) & _).
    exact Hc.
  - left. exact (shutil_copy_raises _ _ _ _ _ Hcp).
  - right. right. apply verdict_print_raises in Hv as [Hchk Hpf].
    split; [exact Hchk|]. split; [exact (print_fails_cases _ _ _ Hpf)|].
    exists n. exact Hpf.
Qed.

Lemma run_raises_os_error_or_bad_color_witness :
  (is_os_error IsADirectoryError = true \/
   (IsADirectoryError = ValueError /\
    parse_color "#000000" = Raise ValueError /\
    ensure_missing_dir ["missing"] scenario_C
      = (Ok tt, world_after (find_and_copy_missing_images
                               (gui_B false "#000000")) scenario_C) /\
    w_copied (world_after (find_and_copy_missing_images
                             (gui_B false "#000000")) scenario_C)
      = w_copied scenario_C) \/
   (false = true /\
    (IsADirectoryError = ValueError \/
     IsADirectoryError = UnicodeEncodeError) /\
    exists n, print_fails plain (["source"] ++ [n])
              = Some IsADirectoryError)) /\
  (is_os_error ValueError = true \/
   (ValueError = ValueError /\
    parse_color "12" = Raise ValueError /\
    ensure_missing_dir ["missing"] scenario_A
      = (Ok tt, world_after (find_and_copy_missing_images (gui_A true "12"))
                  scenario_A) /\
    w_copied (world_after (find_and_copy_missing_images (gui_A true "12"))
                scenario_A)
      = w_copied scenario_A) \/
   (true = true /\
    (ValueError = ValueError \/ ValueError = UnicodeEncodeError) /\
    exists n, print_fails plain (["source"] ++ [n]) = Some ValueError)) /\
  (is_os_error ValueError = true \/
   (ValueError = ValueError /\
    parse_color "#000000" = Raise ValueError /\
    ensure_missing_dir ["missing"] (in_env closed scenario_B)
      = (Ok tt, world_after (find_and_copy_missing_images
                               (gui_B true "#000000"))
                  (in_env closed scenario_B)) /\
    w_copied (world_after (find_and_copy_missing_images
                             (gui_B true "#000000"))
                (in_env closed scenario_B))
      = w_copied (in_env closed scenario_B)) \/
   (true = true /\
    (ValueError = ValueError \/ ValueError = UnicodeEncodeError) /\
    exists n, print_fails closed (["source"] ++ [n]) = Some ValueError)).
Proof.
  split; [|split].
  - apply (run_raises_os_error_or_bad_color (gui_B false "#000000") scenario_C
             (world_after (find_and_copy_missing_images
                             (gui_B false "#000000")) scenario_C)
             IsADirectoryError).
    vm_compute. reflexivity.
  - apply (run_raises_os_error_or_bad_color (gui_A true "12") scenario_A
             (world_after (find_and_copy_missing_images (gui_A true "12"))
                scenario_A)
             ValueError).
    vm_compute. reflexivity.
  - apply (run_raises_os_error_or_bad_color (gui_B true "#000000")
             (in_env closed scenario_B)
             (world_after (find_and_copy_missing_images
                             (gui_B true "#000000"))
                (in_env closed scenario_B))
             ValueError).
    vm_compute. reflexivity.
Defined.

(** ** [os.makedirs]: the missing directory and its parents *)

Lemma suffix_cons_cases {A} (s l : list A) (x : A) :
  s `suffix_of` x :: l -> s = x :: l \/ s `suffix_of` l.
Proof.
  destruct s as [|y s]; [right; apply suffix_nil|apply suffix_cons_inv].
Qed.

Lemma suffix_same {A} (l : list A) : l `suffix_of` l.
Proof. exists []. reflexivity. Qed.

Lemma prefix_same {A} (l : list A) : l `prefix_of` l.
Proof. exists []. symmetry. apply app_nil_r. Qed.

(** The last step of [os.makedirs]: [mkdir] under a parent in place. *)
Lemma mkdir_step_creates (parent : path) (x : string) (l : list string)
    (w : world) :
  w_fs w !! parent = Some (NDir l) ->
  w_fs w !! (parent ++ [x]) = None ->
  try_except (os_mkdir (parent ++ [x]))
    (fun e => let* d := os_path_isdir (parent ++ [x]) in
              if negb d then raise e else ret tt) w =
  (Ok tt,
   World (<[parent ++ [x] := NDir []]> (<[parent := NDir (l ++ [x])]> (w_fs w)))
         (w_stdout w) (w_dialogs w) (w_copied w) (w_listed w) (w_env w)).
Proof.
  intros Hpar Hnew. unfold try_except, os_mkdir, link. unfold_M.
  rewrite Hnew.
  destruct (parent ++ [x]) as [|a p'] eqn:Ep; [destruct parent; discriminate|].
  rewrite <- Ep. unfold os_path_dirname, os_path_basename.
  rewrite removelast_snoc, last_snoc, Hpar. reflexivity.
Qed.

Section Makedirs.

Variable base : path.

(** The directories [os.makedirs] has to make below [base], for the
    reversed remainder [rr] of the path: one for each suffix of [rr]. *)
Lemma makedirs_rev_creates (rr : list string) :
  forall (x : string) (w : world) (l : list string),
    w_fs w !! base = Some (NDir l) ->
    (forall s, s `suffix_of` x :: rr -> s <> [] ->
               w_fs w !! (base ++ rev s) = None) ->
    exists w',
      makedirs_rev ((x :: rr) ++ rev base) w = (Ok tt, w') /\
      (forall s, s `suffix_of` x :: rr ->
                 is_dir (w_fs w') (base ++ rev s) = true) /\
      (forall q, (forall s, s `suffix_of` x :: rr -> q <> base ++ rev s) ->
                 w_fs w' !! q = w_fs w !! q) /\
      same_log w w'.
Proof.
  induction rr as [|y rr IH]; intros x w l Hbase Hnone.
  - (* the parent is [base] itself *)
    cbn [app makedirs_rev]. unfold bind at 1. unfold os_path_exists.
    unfold bind at 1. unfold get_fs at 1. unfold bind at 1. unfold ret at 1.
    rewrite rev_involutive, Hbase.
    rewrite bool_decide_eq_true_2 by eauto. cbn [negb]. unfold ret at 1.
    change (rev (x :: rev base)) with (rev (rev base) ++ [x]).
    rewrite rev_involutive.
    assert (Hnew : w_fs w !! (base ++ [x]) = None).
    { apply (Hnone [x]); [apply suffix_same|discriminate]. }
    rewrite (mkdir_step_creates base x l w Hbase Hnew).
    eexists. split; [reflexivity|]. cbn [w_fs].
    assert (Hne : base <> base ++ [x]).
    { intros E. symmetry in E. exact (snoc_neq_self _ _ E). }
    split; [|split; [|repeat split]].
    + intros s Hs. apply suffix_cons_cases in Hs as [->|Hs].
      * unfold is_dir. cbn [rev app]. rewrite lookup_insert_eq. reflexivity.
      * apply suffix_nil_inv in Hs as ->. cbn [rev]. rewrite app_nil_r.
        unfold is_dir. rewrite lookup_insert_ne by (intros E; auto).
        rewrite lookup_insert_eq. reflexivity.
    + intros q Hq.
      rewrite lookup_insert_ne
        by (intros E; apply (Hq [x]); [apply suffix_same|symmetry; exact E]).
      rewrite lookup_insert_ne; [reflexivity|].
      intros E. apply (Hq []); [apply suffix_nil|].
      cbn [rev]. rewrite app_nil_r. symmetry. exact E.
  - (* the parent has to be made first *)
    set (hp := base ++ rev (y :: rr)).
    assert (Hhp : rev ((y :: rr) ++ rev base) = hp).
    { unfold hp. rewrite rev_app_distr, rev_involutive. reflexivity. }
    assert (Hname : rev ((x :: y :: rr) ++ rev base) = hp ++ [x]).
    { rewrite <- Hhp. reflexivity. }
    assert (Hhead : w_fs w !! hp = None).
    { apply (Hnone (y :: rr)); [apply suffix_cons_r, suffix_same|discriminate]. }
    destruct (IH y w l Hbase) as (w1 & Hrec & Hdirs & Hframe & Hlog).
    { intros s Hs. apply Hnone. apply suffix_cons_r. exact Hs. }
    change ((x :: y :: rr) ++ rev base) with (x :: ((y :: rr) ++ rev base)).
    cbn [makedirs_rev].
    change (makedirs_rev ((y :: rr) ++ rev base) w = (Ok tt, w1)) in Hrec.
    unfold bind at 1. unfold os_path_exists.
    unfold bind at 1. unfold get_fs at 1. unfold bind at 1. unfold ret at 1.
    rewrite Hhp, Hhead.
    rewrite bool_decide_eq_false_2 by (intros [z Hz]; discriminate).
    cbn [negb]. unfold try_except at 1. rewrite Hrec.
    change (rev (x :: (y :: rr) ++ rev base))
      with (rev ((x :: y :: rr) ++ rev base)).
    rewrite Hname.
    pose proof (Hdirs (y :: rr) (suffix_same _)) as Hpd.
    fold hp in Hpd. apply is_dir_true in Hpd as [l1 Hl1].
    assert (Hlen : forall s, s `suffix_of` y :: rr -> hp ++ [x] <> base ++ rev s).
    { intros s Hs E. apply suffix_length in Hs.
      apply (f_equal (@length string)) in E. unfold hp in E.
      rewrite !length_app, !length_rev in E. simpl in E, Hs. lia. }
    assert (Hnew : w_fs w1 !! (hp ++ [x]) = None).
    { rewrite (Hframe _ Hlen).
      replace (hp ++ [x]) with (base ++ rev (x :: y :: rr))
        by (unfold hp; cbn [rev]; rewrite !app_assoc; reflexivity).
      apply Hnone; [apply suffix_same|discriminate]. }
    rewrite (mkdir_step_creates hp x l1 w1 Hl1 Hnew).
    eexists. split; [reflexivity|]. cbn [w_fs].
    assert (Hne : hp <> hp ++ [x]).
    { intros E. symmetry in E. exact (snoc_neq_self _ _ E). }
    assert (Htop : base ++ rev (x :: y :: rr) = hp ++ [x])
      by (unfold hp; cbn [rev]; rewrite !app_assoc; reflexivity).
    split; [|split].
    + intros s Hs. apply suffix_cons_cases in Hs as [->|Hs].
      * rewrite Htop. unfold is_dir. rewrite lookup_insert_eq. reflexivity.
      * unfold is_dir.
        rewrite lookup_insert_ne by (apply Hlen; exact Hs).
        destruct (decide (hp = base ++ rev s)) as [<-|Hd].
        -- rewrite lookup_insert_eq. reflexivity.
        -- rewrite lookup_insert_ne by exact Hd. apply (Hdirs s Hs).
    + intros q Hq.
      rewrite lookup_insert_ne
        by (intros E; apply (Hq (x :: y :: rr)); [apply suffix_same|];
            rewrite Htop; symmetry; exact E).
      rewrite lookup_insert_ne
        by (intros E; apply (Hq (y :: rr));
            [apply suffix_cons_r, suffix_same|symmetry; exact E]).
      apply Hframe. intros s Hs. apply Hq. apply suffix_cons_r. exact Hs.
    + destruct Hlog as (H1 & H2 & H3 & H4 & H5). repeat split; assumption.
Qed.

End Makedirs.

(** X15.  When [missing_dir] lies below an existing directory [base], none of
    the directories in between being there, the run's first step makes
    every one of them, down to [missing_dir]; nothing else in the file
    system changes (but the listings of the directories that receive a
    new entry), and nothing is printed, shown or copied. *)
Theorem missing_dir_is_created_with_parents (base rest : path)
    (l : list string) (w : world) :
  rest <> [] ->
  w_fs w !! base = Some (NDir l) ->
  (forall k, k `prefix_of` rest -> k <> [] -> w_fs w !! (base ++ k) = None) ->
  exists w',
    ensure_missing_dir (base ++ rest) w = (Ok tt, w') /\
    (forall k, k `prefix_of` rest -> is_dir (w_fs w') (base ++ k) = true) /\
    (forall q, (forall k, k `prefix_of` rest -> q <> base ++ k) ->
               w_fs w' !! q = w_fs w !! q) /\
    w_stdout w' = w_stdout w /\ w_dialogs w' = w_dialogs w /\
    w_copied w' = w_copied w.
Proof.
  intros Hrest Hbase Hnone.
  assert (Hps : forall s, s `suffix_of` rev rest -> rev s `prefix_of` rest).
  { intros s [a Ha]. exists (rev a).
    rewrite <- (rev_involutive rest), Ha, rev_app_distr. reflexivity. }
  assert (Hsp : forall k, k `prefix_of` rest -> rev k `suffix_of` rev rest).
  { intros k [a ->]. exists (rev a). apply rev_app_distr. }
  destruct (rev rest) as [|x rr] eqn:Er.
  { exfalso. apply Hrest. rewrite <- (rev_involutive rest), Er. reflexivity. }
  destruct (makedirs_rev_creates base rr x w l Hbase)
    as (w' & Hmk & Hdirs & Hframe & Hlog).
  { intros s Hs Hne. apply Hnone; [apply Hps; exact Hs|].
    intros E. apply Hne. rewrite <- (rev_involutive s), E. reflexivity. }
  destruct Hlog as (Hout & Hdlg & Hcop & _).
  exists w'. split; [|split; [|split; [|auto]]].
  - unfold ensure_missing_dir, os_path_exists, os_makedirs.
    unfold bind at 1. unfold get_fs at 1. unfold bind at 1. unfold ret at 1.
    rewrite (Hnone rest (prefix_same _) Hrest).
    rewrite bool_decide_eq_false_2 by (intros [z Hz]; discriminate).
    cbn [negb]. rewrite rev_app_distr, Er. exact Hmk.
  - intros k Hk. rewrite <- (rev_involutive k). apply Hdirs, Hsp, Hk.
  - intros q Hq. apply Hframe. intros s Hs. apply Hq, Hps, Hs.
Qed.

Lemma missing_dir_is_created_with_parents_witness :
  exists w',
    ensure_missing_dir (["upscaled"] ++ ["todo"; "batch1"]) scenario_A
      = (Ok tt, w') /\
    (forall k, k `prefix_of` ["todo"; "batch1"] ->
               is_dir (w_fs w') (["upscaled"] ++ k) = true) /\
    (forall q, (forall k, k `prefix_of` ["todo"; "batch1"] ->
                          q <> ["upscaled"] ++ k) ->
               w_fs w' !! q = w_fs scenario_A !! q) /\
    w_stdout w' = w_stdout scenario_A /\
    w_dialogs w' = w_dialogs scenario_A /\
    w_copied w' = w_copied scenario_A.
Proof.
  apply (missing_dir_is_created_with_parents ["upscaled"] ["todo"; "batch1"]
           ["cat.PNG"; "photo.jpg"] scenario_A).
  - discriminate.
  - vm_compute. reflexivity.
  - intros k Hk Hne.
    destruct k as [|a [|b [|c k]]]; [congruence| | |].
    + destruct Hk as [r Hr]. injection Hr as <- _. vm_compute. reflexivity.
    + destruct Hk as [r Hr]. injection Hr as <- <- _. vm_compute. reflexivity.
    + destruct Hk as [r Hr]. discriminate Hr.
Defined.
